(** * Spec-Kit: contract-to-code pipeline, planner and guardrails

    A shallow embedding of the TypeScript sources of Spec-Kit (the
    consumer generator, the [spec plan] command and the guardrail engine)
    and the properties of its specification, stated over that embedding.

    Conventions of the embedding.
    - A JavaScript string is a [string] over the 8-bit alphabet [ascii]:
      the UTF-8 encoding of the text, which is how the files the code reads
      hold it. Comparison, search, concatenation and the patterns of the
      sources read the same on the encoding as on the text. White space
      ([String.prototype.trim], the class [\s]) is the white space of
      ECMAScript, with its characters beyond ASCII in their encoding. Case
      mapping changes the letters A to Z and a to z only, and [length] and
      the positions of [substring] count bytes: where a statement depends
      on either, it is made for ASCII text ([isAscii]).
    - A JavaScript object whose enumeration order the code observes
      ([Object.entries]) is an association list in own-property order;
      an object that is only looked up by key is a [gmap].
    - The contract document has the shape its TypeScript types declare,
      with the optional fields as options; a value the code tests before
      use ([typeof operation !== 'object'], a missing or empty
      [operationId]) has a case of its own, and so has [null], which
      [yaml.load] gives for a key without a value, where the code meets it.
    - [undefined] is [None]; what is thrown is the left summand of a sum.
    - [Date.now()] is an explicit argument. *)

From Stdlib Require Import Ascii String ZArith Lia.
From stdpp Require Import base option list strings gmap pretty.

#[local] Set Warnings "-clear-no-such-hyp,-register-all".

Local Open Scope Z_scope.

(** ** JavaScript string primitives *)

Module JsString.

(** The double quote, kept apart from the literals. *)
Definition dq : string := String (ascii_of_nat 34) EmptyString.

(** The line feed. *)
Definition LF : ascii := ascii_of_nat 10.

Definition is_upper (c : ascii) : bool :=
  let n := nat_of_ascii c in (65 <=? n)%nat && (n <=? 90)%nat.

Definition is_lower (c : ascii) : bool :=
  let n := nat_of_ascii c in (97 <=? n)%nat && (n <=? 122)%nat.

Definition is_digit (c : ascii) : bool :=
  let n := nat_of_ascii c in (48 <=? n)%nat && (n <=? 57)%nat.

(** [\w] of the pattern language: letters, digits and underscore. *)
Definition is_word (c : ascii) : bool :=
  is_upper c || is_lower c || is_digit c || (nat_of_ascii c =? 95)%nat.

(** The white space and the line terminators within ASCII: tab, line feed,
    vertical tab, form feed, carriage return, space. *)
Definition is_ws (c : ascii) : bool :=
  let n := nat_of_ascii c in ((9 <=? n)%nat && (n <=? 13)%nat) || (n =? 32)%nat.

(** Those beyond ASCII, by their UTF-8 encoding. Two bytes: U+00A0 (C2 A0). *)
Definition wide_ws2 (a b : ascii) : bool :=
  (nat_of_ascii a =? 194)%nat && (nat_of_ascii b =? 160)%nat.

(** The third byte of U+2000 to U+200A, U+2028, U+2029 and U+202F, after
    E2 80. *)
Definition general_punctuation_ws (c : ascii) : bool :=
  let n := nat_of_ascii c in
  ((128 <=? n)%nat && (n <=? 138)%nat) || (n =? 168)%nat || (n =? 169)%nat || (n =? 175)%nat.

(** Three bytes: U+1680 (E1 9A 80), U+2000 to U+200A, U+2028, U+2029 and
    U+202F (E2 80 ..), U+205F (E2 81 9F), U+3000 (E3 80 80) and U+FEFF
    (EF BB BF). *)
Definition wide_ws3 (a b c : ascii) : bool :=
  let x := nat_of_ascii a in
  let y := nat_of_ascii b in
  let z := nat_of_ascii c in
  ((x =? 225)%nat && (y =? 154)%nat && (z =? 128)%nat)
  || ((x =? 226)%nat && (y =? 128)%nat && general_punctuation_ws c)
  || ((x =? 226)%nat && (y =? 129)%nat && (z =? 159)%nat)
  || ((x =? 227)%nat && (y =? 128)%nat && (z =? 128)%nat)
  || ((x =? 239)%nat && (y =? 187)%nat && (z =? 191)%nat).

(** The number of bytes of the white-space character the text starts with,
    0 when it starts with none. *)
Definition ws_width (s : string) : nat :=
  match s with
  | EmptyString => 0
  | String a s1 =>
      if is_ws a then 1
      else match s1 with
           | EmptyString => 0
           | String b s2 =>
               if wide_ws2 a b then 2
               else match s2 with
                    | EmptyString => 0
                    | String c _ => if wide_ws3 a b c then 3 else 0
                    end
           end
  end.

Definition lower_char (c : ascii) : ascii :=
  if is_upper c then ascii_of_nat (nat_of_ascii c + 32) else c.

Definition upper_char (c : ascii) : ascii :=
  if is_lower c then ascii_of_nat (nat_of_ascii c - 32) else c.

Fixpoint map_chars (f : ascii -> ascii) (s : string) : string :=
  match s with
  | EmptyString => EmptyString
  | String c s' => String (f c) (map_chars f s')
  end.

Definition toLowerCase : string -> string := map_chars lower_char.
Definition toUpperCase : string -> string := map_chars upper_char.

Definition startsWith (s p : string) : bool := String.prefix p s.

Definition endsWith (s p : string) : bool :=
  let n := String.length s in
  let k := String.length p in
  (k <=? n)%nat && String.eqb (String.substring (n - k) k s) p.

(** [s.includes(sub)]: [sub] occurs at some position of [s]. *)
Fixpoint includes (s sub : string) : bool :=
  String.prefix sub s
  || match s with
     | EmptyString => false
     | String _ s' => includes s' sub
     end.

(** [s.split(c)] for a one-character separator: never empty, one more
    piece than there are separators. *)
Fixpoint split_char (c : ascii) (s : string) : list string :=
  match s with
  | EmptyString => [EmptyString]
  | String a s' =>
      if Ascii.eqb a c then EmptyString :: split_char c s'
      else match split_char c s' with
           | [] => [String a EmptyString]
           | w :: ws => String a w :: ws
           end
  end.

(** The text without the white space it starts with; [w2] and [w3] tell
    the characters of two and three bytes. *)
Fixpoint strip_ws (w2 : ascii -> ascii -> bool) (w3 : ascii -> ascii -> ascii -> bool)
    (s : string) : string :=
  match s with
  | EmptyString => EmptyString
  | String a s1 =>
      if is_ws a then strip_ws w2 w3 s1
      else match s1 with
           | EmptyString => s
           | String b s2 =>
               if w2 a b then strip_ws w2 w3 s2
               else match s2 with
                    | EmptyString => s
                    | String c s3 => if w3 a b c then strip_ws w2 w3 s3 else s
                    end
           end
  end.

Definition drop_ws : string -> string := strip_ws wide_ws2 wide_ws3.

(** [s.split(/\s+/)]: cut at every maximal run of whitespace; a run at
    the start or at the end leaves an empty piece there. [n] bounds the
    number of bytes left. *)
Fixpoint split_ws_from (n : nat) (s : string) : list string :=
  match s, n with
  | EmptyString, _ => [EmptyString]
  | _, O => [s]
  | String a s', S n' =>
      if (0 <? ws_width s)%nat then EmptyString :: split_ws_from n' (drop_ws s)
      else match split_ws_from n' s' with
           | [] => [String a EmptyString]
           | w :: ws => String a w :: ws
           end
  end.

Definition split_ws (s : string) : list string := split_ws_from (String.length s) s.

Definition trimStart : string -> string := drop_ws.

(** From the end the bytes of a character come in reverse. *)
Definition trimEnd (s : string) : string :=
  String.rev (strip_ws (fun a b => wide_ws2 b a) (fun a b c => wide_ws3 c b a)
                       (String.rev s)).

Definition trim (s : string) : string := trimEnd (trimStart s).

(** [l.join(sep)] *)
Fixpoint join (sep : string) (l : list string) : string :=
  match l with
  | [] => EmptyString
  | [x] => x
  | x :: l' => x +:+ sep +:+ join sep l'
  end.

(** [s.charAt(0)]: the empty string when [s] is empty. *)
Definition charAt0 (s : string) : string :=
  match s with
  | EmptyString => EmptyString
  | String c _ => String c EmptyString
  end.

(** [s.slice(1)] *)
Definition slice1 (s : string) : string :=
  match s with
  | EmptyString => EmptyString
  | String _ s' => s'
  end.

(** Truthiness of a string that may be [undefined]. *)
Definition truthy (o : option string) : bool :=
  match o with
  | Some (String _ _) => true
  | _ => false
  end.

(** [a || b] on strings. *)
Definition or_else (o : option string) (d : string) : string :=
  match o with
  | Some (String c s) => String c s
  | _ => d
  end.

(** Every character of the text passes the test. *)
Fixpoint all_chars (f : ascii -> bool) (s : string) : bool :=
  match s with
  | EmptyString => true
  | String c s' => f c && all_chars f s'
  end.


(** The text with the given bytes. *)
Definition bytes (l : list nat) : string :=
  foldr (fun n s => String (ascii_of_nat n) s) EmptyString l.

End JsString.

(** ** The contract document ([src/types/index.ts]) *)

Record SchemaObject := {
  schema_type : option string;
  schema_ref : option string
}.

(** [Parameter] of the sources; the name is reserved here. *)
Record ParameterObject := {
  param_name : string;
  param_in : string;
  param_schema : option SchemaObject
}.

Record MediaType := { media_schema : option SchemaObject }.

Record Response := {
  response_description : string;
  response_content : option (gmap string MediaType)
}.

Record RequestBody := { body_content : gmap string MediaType }.

Record Operation := {
  operationId : option string;
  op_summary : option string;
  op_tags : option (list string);
  op_parameters : option (list ParameterObject);
  op_requestBody : option RequestBody;
  op_responses : gmap string Response
}.

(** A value found under a key of a path item: the code tells apart what is
    not an object ([typeof operation !== 'object']) from an object, which it
    then reads as an [Operation]. The type of [null] is ['object'] too, and
    [null] has no property to read. *)
Inductive PathEntry :=
  | NullValue
  | NotAnObject
  | OperationObject (op : Operation).

(** The value under a path: its own properties in order, or [null]. *)
Definition PathItem := option (list (string * PathEntry)).

Record OpenAPISpec := {
  info_title : string;
  paths : option (list (string * PathItem))
}.

Inductive TaskStatus := pending | in_progress | completed.

Record Task := {
  task_id : string;
  task_title : string;
  task_description : string;
  task_status : TaskStatus;
  task_operations : list string
}.

(** What the code throws: an [Error] with its message, the [TypeError] of
    the engine on [null], and the exception of [yaml.load]. *)
Inductive Exception :=
  | Error (message : string)
  | TypeError
  | YAMLException (diagnostic : string).

(** [for (const x of l) { body }] on the state [s]: the state after the last
    pass, or what the first pass that throws has thrown. *)
Definition forOf {A S} (l : list A) (body : S -> A -> Exception + S) (s : S)
    : Exception + S :=
  foldl (fun acc x =>
           match acc with
           | inl e => inl e
           | inr s => body s x
           end)
        (inr s) l.

(** A loop whose passes print: the lines on the console when it ends, and
    what the first pass that throws has thrown. *)
Definition forOfPrinting {A} (l : list A)
    (body : list string -> A -> list string * option Exception) (console : list string)
    : list string * option Exception :=
  foldl (fun '(console, thrown) x =>
           match thrown with
           | Some e => (console, Some e)
           | None => body console x
           end)
        (console, None) l.

(** [Object.entries(o)], which throws on [null]. *)
Definition objectEntries {V} (o : option (list (string * V)))
    : Exception + list (string * V) :=
  match o with
  | None => inl TypeError
  | Some own => inr own
  end.

(** The entries the loop guard lets through: the operation and its id. *)
Definition usable (e : PathEntry) : option (string * Operation) :=
  match e with
  | NullValue => None
  | NotAnObject => None
  | OperationObject op =>
      match operationId op with
      | Some (String c s) => Some (String c s, op)
      | _ => None
      end
  end.

(** The loop guard [typeof operation !== 'object' || !operation.operationId]:
    the operation and its id when the entry is processed, nothing when it is
    skipped. On [null] the first test is false and the second throws. *)
Definition guard (operation : PathEntry) : Exception + option (string * Operation) :=
  match operation with
  | NullValue => inl TypeError
  | NotAnObject => inr None
  | OperationObject op => inr (usable (OperationObject op))
  end.

(** [Object.entries(spec.paths || {})] followed by [Object.entries(pathItem)]:
    the (path, key, value) triples in the order the two loops visit them,
    when nothing is [null]. *)
Definition traversal (spec : OpenAPISpec) : list (string * string * PathEntry) :=
  p ← default [] (paths spec);
  e ← default [] p.2;
  [(p.1, e.1, e.2)].

Definition isNull (e : PathEntry) : bool :=
  match e with
  | NullValue => true
  | _ => false
  end.

(** A path item of the document, or an entry of a path item, is [null]. *)
Definition hasNull (spec : OpenAPISpec) : bool :=
  existsb (fun p =>
             match p.2 with
             | None => true
             | Some own => existsb (fun e => isNull e.2) own
             end)
          (default [] (paths spec)).

(** ** The consumer generator (class [ConsumerGenerator]) *)

Module ConsumerGenerator.
Import JsString.

Definition nl : string := String (ascii_of_nat 10) EmptyString.

(** The type ['java' | 'typescript' | 'python']. A value of this declared
    type comes from the configuration by a cast that checks nothing: where
    the code receives it, it is a [string]. *)
Inductive SupportedLanguage := java | typescript | python.

Definition languageName (language : SupportedLanguage) : string :=
  match language with
  | java => "java"
  | typescript => "typescript"
  | python => "python"
  end.

Record OperationParam := {
  p_name : string;
  p_type : string;
  p_in : string
}.

Record OperationContext := {
  ctx_operationId : string;
  ctx_method : string;
  ctx_path : string;
  ctx_summary : string;
  hasBody : bool;
  hasParams : bool;
  params : list OperationParam;
  returnType : string
}.

Record EmitContext := {
  packageName : string;
  apiClassName : string
}.

(** The generator object: its only field is the template table, filled by
    the constructor ([initializeTemplates] adds nothing). *)
Record ConsumerGenerator := {
  templates : list (SupportedLanguage * list (string * string))
}.

Definition constructor : ConsumerGenerator :=
  {| templates := [ (java, []); (typescript, []); (python, []) ] |}.

(** *** Helpers *)

Definition schemaToType (schema : option SchemaObject) : string :=
  match schema with
  | None => "any"
  | Some schema =>
      if bool_decide (schema_type schema = Some "integer") then "number"
      else if bool_decide (schema_type schema = Some "array") then "array"
      else or_else (schema_type schema) "any"
  end.

(** [a.pop()] on the pieces of a split: the last piece. *)
Definition pop (l : list string) : option string := last l.

Definition inferReturnType (op : Operation) : string :=
  let successResponse :=
    match op_responses op !! "200" with
    | Some r => Some r
    | None => op_responses op !! "201"
    end in
  match successResponse with
  | None => "void"
  | Some successResponse =>
      match response_content successResponse with
      | None => "void"
      | Some content =>
          match content !! "application/json" with
          | None => "Object"
          | Some jsonContent =>
              match media_schema jsonContent with
              | None => "Object"
              | Some schema =>
                  if truthy (schema_ref schema)
                  then or_else (pop (split_char "/" (default EmptyString (schema_ref schema))))
                               "Object"
                  else "Object"
              end
          end
      end
  end.

Definition is_alnum (c : ascii) : bool := is_upper c || is_lower c || is_digit c.

Fixpoint keep_chars (f : ascii -> bool) (s : string) : string :=
  match s with
  | EmptyString => EmptyString
  | String c s' => if f c then String c (keep_chars f s') else keep_chars f s'
  end.

Definition deriveApiClassName (title : string) : string :=
  let stripped := keep_chars is_alnum title in
  or_else (Some (toUpperCase (charAt0 stripped) +:+ slice1 stripped)) "Default".

Definition toJavaType (type : string) : string :=
  if String.eqb type "number" then "Integer"
  else if String.eqb type "string" then "String"
  else if String.eqb type "boolean" then "Boolean"
  else if String.eqb type "array" then "List<?>"
  else "Object".

Definition toTypeScriptType (type : string) : string :=
  if String.eqb type "number" then "number"
  else if String.eqb type "string" then "string"
  else if String.eqb type "boolean" then "boolean"
  else if String.eqb type "array" then "any[]"
  else "any".

Definition toPythonType (type : string) : string :=
  if String.eqb type "number" then "int"
  else if String.eqb type "string" then "str"
  else if String.eqb type "boolean" then "bool"
  else if String.eqb type "array" then "list"
  else "any".

(** [str.replace(/([A-Z])/g, '_$1')] *)
Fixpoint underscore_upper (s : string) : string :=
  match s with
  | EmptyString => EmptyString
  | String c s' =>
      if is_upper c then String "_" (String c (underscore_upper s'))
      else String c (underscore_upper s')
  end.

Definition toSnakeCase (str : string) : string :=
  match toLowerCase (underscore_upper str) with
  | String "_" s => s
  | s => s
  end.

(** *** Extraction *)

Definition describe (pathKey method : string) (id : string) (op : Operation)
    : OperationContext :=
  let params :=
    map (fun p => {| p_name := param_name p;
                     p_type := schemaToType (param_schema p);
                     p_in := param_in p |})
        (default [] (op_parameters op)) in
  {| ctx_operationId := id;
     ctx_method := toUpperCase method;
     ctx_path := pathKey;
     ctx_summary := or_else (op_summary op) id;
     hasBody := bool_decide (is_Some (op_requestBody op));
     hasParams := (0 <? length params)%nat;
     params := params;
     returnType := inferReturnType op |}.

(** [filterOperationIds && !filterOperationIds.includes(id)]: an array,
    also the empty one, is truthy. *)
Definition filteredOut (filterOperationIds : option (list string)) (id : string) : bool :=
  match filterOperationIds with
  | None => false
  | Some ids => negb (bool_decide (id ∈ ids))
  end.

Definition extractOperations (spec : OpenAPISpec) (filterOperationIds : option (list string))
    : Exception + list OperationContext :=
  forOf (default [] (paths spec))
    (fun operations '(pathKey, pathItem) =>
       match objectEntries pathItem with
       | inl e => inl e
       | inr own =>
           forOf own
             (fun operations '(method, operation) =>
                match guard operation with
                | inl e => inl e
                | inr None => inr operations
                | inr (Some (id, op)) =>
                    if filteredOut filterOperationIds id then inr operations
                    else inr (operations ++ [describe pathKey method id op])
                end)
             operations
       end)
    [].

(** *** Template text *)

Definition javaApplicationTemplate (operationCalls : string) : string :=
  "/**
 * REST Client Application
 * 
 * Generated by Origo-Spec-Kit from OpenAPI specification.
 * This code contains complete HTTP client implementation.
 */
package client;

public class Application {
    
    private final ApiClient apiClient;
    
    public Application(String baseUrl) {
        this.apiClient = new ApiClient(baseUrl);
    }
    
    public static void main(String[] args) {
        String baseUrl = args.length > 0 ? args[0] : " +:+ dq +:+ "http://localhost:3000/api/v1" +:+ dq +:+ ";
        Application app = new Application(baseUrl);
        app.run();
    }
    
    public void run() {
        System.out.println(" +:+ dq +:+ "REST Client Application Started" +:+ dq +:+ ");
        System.out.println(" +:+ dq +:+ "Base URL: " +:+ dq +:+ " + apiClient.getBaseUrl());
        System.out.println();
        
        try {
            // Available operations:
"
  +:+ operationCalls
  +:+ "
            
            System.out.println();
            System.out.println(" +:+ dq +:+ "REST Client Application Finished" +:+ dq +:+ ");
        } catch (Exception e) {
            System.err.println(" +:+ dq +:+ "Error: " +:+ dq +:+ " + e.getMessage());
            e.printStackTrace();
        }
    }
    
    public ApiClient getApiClient() {
        return apiClient;
    }
}
".

Definition javaServiceHead : string :=
  "/**
 * REST API Client
 * 
 * Generated by Origo-Spec-Kit from OpenAPI specification.
 * Complete HTTP client implementation using Java HttpClient.
 */
package client;

import java.net.URI;
import java.net.http.HttpClient;
import java.net.http.HttpRequest;
import java.net.http.HttpResponse;
import java.time.Duration;
import com.google.gson.Gson;
import com.google.gson.GsonBuilder;

public class ApiClient {
    
    private final String baseUrl;
    private final HttpClient httpClient;
    private final Gson gson;
    
    public ApiClient(String baseUrl) {
        this.baseUrl = baseUrl.endsWith(" +:+ dq +:+ "/" +:+ dq +:+ ") ? baseUrl.substring(0, baseUrl.length() - 1) : baseUrl;
        this.httpClient = HttpClient.newBuilder()
            .connectTimeout(Duration.ofSeconds(30))
            .build();
        this.gson = new GsonBuilder().setPrettyPrinting().create();
    }
    
    public String getBaseUrl() {
        return baseUrl;
    }
    
    /**
     * Send HTTP request and return response body
     */
    private String sendRequest(String method, String path, Object body) throws Exception {
        String url = baseUrl + path;
        
        HttpRequest.Builder requestBuilder = HttpRequest.newBuilder()
            .uri(URI.create(url))
            .timeout(Duration.ofSeconds(30))
            .header(" +:+ dq +:+ "Content-Type" +:+ dq +:+ ", " +:+ dq +:+ "application/json" +:+ dq +:+ ")
            .header(" +:+ dq +:+ "Accept" +:+ dq +:+ ", " +:+ dq +:+ "application/json" +:+ dq +:+ ");
        
        HttpRequest.BodyPublisher bodyPublisher = body != null 
            ? HttpRequest.BodyPublishers.ofString(gson.toJson(body))
            : HttpRequest.BodyPublishers.noBody();
        
        switch (method.toUpperCase()) {
            case " +:+ dq +:+ "GET" +:+ dq +:+ ":
                requestBuilder.GET();
                break;
            case " +:+ dq +:+ "POST" +:+ dq +:+ ":
                requestBuilder.POST(bodyPublisher);
                break;
            case " +:+ dq +:+ "PUT" +:+ dq +:+ ":
                requestBuilder.PUT(bodyPublisher);
                break;
            case " +:+ dq +:+ "DELETE" +:+ dq +:+ ":
                requestBuilder.DELETE();
                break;
            case " +:+ dq +:+ "PATCH" +:+ dq +:+ ":
                requestBuilder.method(" +:+ dq +:+ "PATCH" +:+ dq +:+ ", bodyPublisher);
                break;
            default:
                throw new IllegalArgumentException(" +:+ dq +:+ "Unsupported HTTP method: " +:+ dq +:+ " + method);
        }
        
        HttpResponse<String> response = httpClient.send(
            requestBuilder.build(),
            HttpResponse.BodyHandlers.ofString()
        );
        
        int statusCode = response.statusCode();
        String responseBody = response.body();
        
        ".

Definition javaStatusHandling : string :=
  "if (statusCode >= 200 && statusCode < 300) {
            return responseBody;
        } else if (statusCode == 204) {
            return null;
        } else {
            throw new RuntimeException(" +:+ dq +:+ "HTTP " +:+ dq +:+ " + statusCode + " +:+ dq +:+ ": " +:+ dq +:+ " + responseBody);
        }".

Definition javaServiceMiddle : string :=
  "
    }
".

Definition javaServiceTail : string :=
  "
    
    /**
     * Parse JSON response to object
     */
    public <T> T parseResponse(String json, Class<T> clazz) {
        return gson.fromJson(json, clazz);
    }
}
".

Definition javaMethodTemplate (summary method path retType operationId paramList pathCode queryCode returnStatement : string) : string :=
  "
    /**
     * "
  +:+ summary
  +:+ "
     * "
  +:+ method
  +:+ " "
  +:+ path
  +:+ "
     */
    public "
  +:+ retType
  +:+ " "
  +:+ operationId
  +:+ "("
  +:+ paramList
  +:+ ") throws Exception {
        "
  +:+ pathCode
  +:+ queryCode
  +:+ "
        "
  +:+ returnStatement
  +:+ "
    }".

Definition javaQueryOpen : string :=
  "
        StringBuilder query = new StringBuilder();
".

Definition javaQueryClose : string :=
  "
        if (query.length() > 0) {
            path += " +:+ dq +:+ "?" +:+ dq +:+ " + query.toString();
        }".

Definition javaQueryAppend (name prefix : string) : string :=
  "        if ("
  +:+ name
  +:+ " != null) {
            query.append("
  +:+ prefix
  +:+ ").append(" +:+ dq
  +:+ name
  +:+ "=" +:+ dq +:+ ").append("
  +:+ name
  +:+ ");
        }".

Definition javaPomTemplate : string :=
  "<?xml version=" +:+ dq +:+ "1.0" +:+ dq +:+ " encoding=" +:+ dq +:+ "UTF-8" +:+ dq +:+ "?>
<project xmlns=" +:+ dq +:+ "http://maven.apache.org/POM/4.0.0" +:+ dq +:+ "
         xmlns:xsi=" +:+ dq +:+ "http://www.w3.org/2001/XMLSchema-instance" +:+ dq +:+ "
         xsi:schemaLocation=" +:+ dq +:+ "http://maven.apache.org/POM/4.0.0 http://maven.apache.org/xsd/maven-4.0.0.xsd" +:+ dq +:+ ">
    <modelVersion>4.0.0</modelVersion>
    
    <groupId>client</groupId>
    <artifactId>rest-client</artifactId>
    <version>1.0.0</version>
    <packaging>jar</packaging>
    
    <name>REST API Client</name>
    <description>Generated REST client from OpenAPI specification</description>
    
    <properties>
        <maven.compiler.source>17</maven.compiler.source>
        <maven.compiler.target>17</maven.compiler.target>
        <project.build.sourceEncoding>UTF-8</project.build.sourceEncoding>
    </properties>
    
    <dependencies>
        <!-- JSON processing -->
        <dependency>
            <groupId>com.google.code.gson</groupId>
            <artifactId>gson</artifactId>
            <version>2.10.1</version>
        </dependency>
    </dependencies>
    
    <build>
        <plugins>
            <plugin>
                <groupId>org.apache.maven.plugins</groupId>
                <artifactId>maven-compiler-plugin</artifactId>
                <version>3.11.0</version>
            </plugin>
            <plugin>
                <groupId>org.codehaus.mojo</groupId>
                <artifactId>exec-maven-plugin</artifactId>
                <version>3.1.0</version>
                <configuration>
                    <mainClass>client.Application</mainClass>
                </configuration>
            </plugin>
        </plugins>
    </build>
</project>
".

Definition typeScriptIndexTemplate (operationLines : string) : string :=
  "/**
 * Generated Consumer Application
 * Uses the generated SDK - no manual HTTP calls allowed.
 */

import { ApiService } from './api-service';

async function main() {
  const apiService = new ApiService('http://localhost:8080/api/v1');
  
  console.log('Consumer Application Started');
  
  // Available operations:
"
  +:+ operationLines
  +:+ "
  
  console.log('Consumer Application Finished');
}

main().catch(console.error);
".

Definition typeScriptIndexLine (operationId : string) : string :=
  "  // await apiService."
  +:+ operationId
  +:+ "(...);".

Definition typeScriptMethodTemplate (summary method path operationId params returnType args : string) : string :=
  "
  /**
   * "
  +:+ summary
  +:+ "
   * "
  +:+ method
  +:+ " "
  +:+ path
  +:+ "
   */
  async "
  +:+ operationId
  +:+ "("
  +:+ params
  +:+ "): Promise<"
  +:+ returnType
  +:+ "> {
    return this.api."
  +:+ operationId
  +:+ "("
  +:+ args
  +:+ ");
  }".

Definition typeScriptServiceTemplate (apiClassName methods : string) : string :=
  "/**
 * API Service - Facade for SDK operations
 */

import { Configuration, "
  +:+ apiClassName
  +:+ "Api } from '../sdk';

export class ApiService {
  private api: "
  +:+ apiClassName
  +:+ "Api;
  
  constructor(basePath: string) {
    const config = new Configuration({ basePath });
    this.api = new "
  +:+ apiClassName
  +:+ "Api(config);
  }
"
  +:+ methods
  +:+ "
}
".

Definition typeScriptPackageTemplate : string :=
  "{
  " +:+ dq +:+ "name" +:+ dq +:+ ": " +:+ dq +:+ "api-consumer" +:+ dq +:+ ",
  " +:+ dq +:+ "version" +:+ dq +:+ ": " +:+ dq +:+ "1.0.0" +:+ dq +:+ ",
  " +:+ dq +:+ "main" +:+ dq +:+ ": " +:+ dq +:+ "dist/index.js" +:+ dq +:+ ",
  " +:+ dq +:+ "scripts" +:+ dq +:+ ": {
    " +:+ dq +:+ "build" +:+ dq +:+ ": " +:+ dq +:+ "tsc" +:+ dq +:+ ",
    " +:+ dq +:+ "start" +:+ dq +:+ ": " +:+ dq +:+ "node dist/index.js" +:+ dq +:+ "
  },
  " +:+ dq +:+ "dependencies" +:+ dq +:+ ": {
    " +:+ dq +:+ "@sdk/client" +:+ dq +:+ ": " +:+ dq +:+ "file:../sdk" +:+ dq +:+ "
  },
  " +:+ dq +:+ "devDependencies" +:+ dq +:+ ": {
    " +:+ dq +:+ "typescript" +:+ dq +:+ ": " +:+ dq +:+ "^5.0.0" +:+ dq +:+ "
  }
}
".

Definition pythonMainTemplate (operationLines : string) : string :=
  dq +:+ dq +:+ dq +:+ "
Generated Consumer Application
Uses the generated SDK - no manual HTTP calls allowed.
" +:+ dq +:+ dq +:+ dq +:+ "

from api_service import ApiService


def main():
    api_service = ApiService(" +:+ dq +:+ "http://localhost:8080/api/v1" +:+ dq +:+ ")
    
    print(" +:+ dq +:+ "Consumer Application Started" +:+ dq +:+ ")
    
    # Available operations:
"
  +:+ operationLines
  +:+ "
    
    print(" +:+ dq +:+ "Consumer Application Finished" +:+ dq +:+ ")


if __name__ == " +:+ dq +:+ "__main__" +:+ dq +:+ ":
    main()
".

Definition pythonMainLine (snakeId : string) : string :=
  "    # api_service."
  +:+ snakeId
  +:+ "(...)".

Definition pythonMethodTemplate (snakeId selfParams summary method path args : string) : string :=
  "
    def "
  +:+ snakeId
  +:+ "(self"
  +:+ selfParams
  +:+ "):
        " +:+ dq +:+ dq +:+ dq +:+ "
        "
  +:+ summary
  +:+ "
        "
  +:+ method
  +:+ " "
  +:+ path
  +:+ "
        " +:+ dq +:+ dq +:+ dq +:+ "
        return self.api."
  +:+ snakeId
  +:+ "("
  +:+ args
  +:+ ")".

Definition pythonServiceTemplate (apiClassName methods : string) : string :=
  dq +:+ dq +:+ dq +:+ "
API Service - Facade for SDK operations
All API interactions MUST go through this service.
" +:+ dq +:+ dq +:+ dq +:+ "

from sdk_client import ApiClient, "
  +:+ apiClassName
  +:+ "Api


class ApiService:
    def __init__(self, base_path: str):
        client = ApiClient()
        client.configuration.host = base_path
        self.api = "
  +:+ apiClassName
  +:+ "Api(client)
"
  +:+ methods
  +:+ "
".

(** *** Java emission (direct REST client) *)

Definition inPath (p : OperationParam) : bool := String.eqb (p_in p) "path".
Definition inQuery (p : OperationParam) : bool := String.eqb (p_in p) "query".
Definition isVoid (op : OperationContext) : bool := String.eqb (returnType op) "void".

Definition generateJavaApplication (ops : list OperationContext) (ctx : EmitContext)
    : string :=
  let operationCalls :=
    join (nl +:+ nl)
      (map (fun op =>
              let exampleArgs :=
                join ", " (map (fun p => dq +:+ "example-" +:+ p_name p +:+ dq)
                               (List.filter inPath (params op))) in
              "        // " +:+ ctx_summary op +:+ nl +:+ "        // "
              +:+ (if negb (isVoid op) then "var result = " else EmptyString)
              +:+ "apiClient." +:+ ctx_operationId op +:+ "(" +:+ exampleArgs +:+ ");")
           ops) in
  javaApplicationTemplate operationCalls.

Definition javaMethodParams (op : OperationContext) : list string :=
  let methodParams : list string := [] in
  let methodParams :=
    methodParams ++ map (fun p => "String " +:+ p_name p) (List.filter inPath (params op)) in
  let methodParams :=
    methodParams ++ map (fun p => toJavaType (p_type p) +:+ " " +:+ p_name p)
                        (List.filter inQuery (params op)) in
  if hasBody op then methodParams ++ ["Object requestBody"] else methodParams.

(** Path building *)
Definition javaPathCode (op : OperationContext) : string :=
  let pathCode := "String path = " +:+ dq +:+ ctx_path op +:+ dq in
  let pathCode :=
    foldl (fun pathCode p =>
             pathCode +:+ ".replace(" +:+ dq +:+ "{" +:+ p_name p +:+ "}" +:+ dq
                      +:+ ", " +:+ p_name p +:+ ")")
          pathCode (List.filter inPath (params op)) in
  pathCode +:+ ";".

(** Query params *)
Definition javaQueryPrefix (i : nat) : string :=
  if (i =? 0)%nat then dq +:+ dq else dq +:+ "&" +:+ dq.

Definition javaQueryCode (queryParams : list OperationParam) : string :=
  if (0 <? length queryParams)%nat
  then javaQueryOpen
       +:+ join nl (imap (fun i p => javaQueryAppend (p_name p) (javaQueryPrefix i))
                         queryParams)
       +:+ javaQueryClose
  else EmptyString.

Definition javaReturnStatement (op : OperationContext) : string :=
  let body := if hasBody op then "requestBody" else "null" in
  if negb (isVoid op)
  then "return sendRequest(" +:+ dq +:+ ctx_method op +:+ dq +:+ ", path, " +:+ body +:+ ");"
  else "sendRequest(" +:+ dq +:+ ctx_method op +:+ dq +:+ ", path, " +:+ body +:+ ");"
       +:+ nl +:+ "        return;".

Definition javaMethod (op : OperationContext) : string :=
  javaMethodTemplate (ctx_summary op) (ctx_method op) (ctx_path op)
    (if isVoid op then "void" else "String")
    (ctx_operationId op)
    (join ", " (javaMethodParams op))
    (javaPathCode op)
    (javaQueryCode (List.filter inQuery (params op)))
    (javaReturnStatement op).

Definition generateJavaService (ops : list OperationContext) (ctx : EmitContext)
    : string :=
  let methods := join nl (map javaMethod ops) in
  javaServiceHead +:+ javaStatusHandling +:+ javaServiceMiddle
  +:+ methods +:+ javaServiceTail.

Definition generateJavaPom (ctx : EmitContext) : string := javaPomTemplate.

(** *** TypeScript emission *)

Definition generateTypeScriptIndex (ops : list OperationContext) (ctx : EmitContext)
    : string :=
  typeScriptIndexTemplate
    (join nl (map (fun op => typeScriptIndexLine (ctx_operationId op)) ops)).

Definition generateTypeScriptService (ops : list OperationContext) (ctx : EmitContext)
    : string :=
  let methods :=
    join nl
      (map (fun op =>
              let typedParams :=
                join ", " (map (fun p => p_name p +:+ ": " +:+ toTypeScriptType (p_type p))
                               (params op)) in
              typeScriptMethodTemplate (ctx_summary op) (ctx_method op) (ctx_path op)
                (ctx_operationId op) typedParams (returnType op)
                (join ", " (map p_name (params op))))
           ops) in
  typeScriptServiceTemplate (apiClassName ctx) methods.

Definition generateTypeScriptPackage (ctx : EmitContext) : string :=
  typeScriptPackageTemplate.

(** *** Python emission *)

Definition generatePythonMain (ops : list OperationContext) (ctx : EmitContext)
    : string :=
  pythonMainTemplate
    (join nl (map (fun op => pythonMainLine (toSnakeCase (ctx_operationId op))) ops)).

Definition generatePythonService (ops : list OperationContext) (ctx : EmitContext)
    : string :=
  let methods :=
    join nl
      (map (fun op =>
              let typedParams :=
                join ", " (map (fun p => toSnakeCase (p_name p) +:+ ": "
                                         +:+ toPythonType (p_type p))
                               (params op)) in
              pythonMethodTemplate (toSnakeCase (ctx_operationId op))
                (if truthy (Some typedParams) then ", " +:+ typedParams else EmptyString)
                (ctx_summary op) (ctx_method op) (ctx_path op)
                (join ", " (map (fun p => toSnakeCase (p_name p)) (params op))))
           ops) in
  pythonServiceTemplate (apiClassName ctx) methods.

(** *** The file map *)

(** [files[key] = value] on an object held in own-property order. *)
Fixpoint assign (key value : string) (files : list (string * string))
    : list (string * string) :=
  match files with
  | [] => [(key, value)]
  | (k, v) :: rest =>
      if String.eqb k key then (k, value) :: rest else (k, v) :: assign key value rest
  end.

(** The [switch] has no [default]: a language that is none of the three
    leaves the file map empty. *)
Definition generateForLanguage (this : ConsumerGenerator) (language : string)
    (operations : list OperationContext) (context : EmitContext)
    : list (string * string) :=
  let files : list (string * string) := [] in
  if String.eqb language "java" then
    let files := assign "src/main/java/Application.java"
                   (generateJavaApplication operations context) files in
    let files := assign "src/main/java/ApiService.java"
                   (generateJavaService operations context) files in
    let files := assign "pom.xml" (generateJavaPom context) files in
    files
  else if String.eqb language "typescript" then
    let files := assign "src/index.ts"
                   (generateTypeScriptIndex operations context) files in
    let files := assign "src/api-service.ts"
                   (generateTypeScriptService operations context) files in
    let files := assign "package.json" (generateTypeScriptPackage context) files in
    files
  else if String.eqb language "python" then
    let files := assign "main.py" (generatePythonMain operations context) files in
    let files := assign "api_service.py"
                   (generatePythonService operations context) files in
    let files := assign "requirements.txt" ("requests>=2.28.0" +:+ nl) files in
    files
  else files.

(** *** The entry points *)

Record ConsumerGeneratorOptions := {
  specPath : string;
  outputDir : string;
  language : string;
  opt_packageName : option string;
  operations : option (list string)
}.

(** What a call reads from the file system: at a path, nothing, or a file
    on which [yaml.load] either throws or gives a document. *)
Inductive YamlFile :=
  | Malformed (diagnostic : string)
  | Document (spec : OpenAPISpec).

(** What a call leaves behind: [fs.writeFileSync(path.join(dir, file), content)]
    is recorded with the two components of the joined path. The
    directories made on the way are not recorded. *)
Record FileWrite := {
  write_dir : string;
  write_file : string;
  write_content : string
}.

Definition generateForOperations (this : ConsumerGenerator)
    (fs : gmap string YamlFile) (options : ConsumerGeneratorOptions)
    : Exception + (list (string * string) * list FileWrite) :=
  match fs !! specPath options with
  | None => inl (Error ("OpenAPI spec not found: " +:+ specPath options))
  | Some (Malformed diagnostic) => inl (YAMLException diagnostic)
  | Some (Document spec) =>
      match extractOperations spec (operations options) with
      | inl thrown => inl thrown
      | inr operations =>
          if (length operations =? 0)%nat
          then inl (Error "No operations found in the spec")
          else
            let generatedFiles :=
              generateForLanguage this (language options) operations
                {| packageName := or_else (opt_packageName options) "com.example.client";
                   apiClassName := deriveApiClassName (info_title spec) |} in
            let writes :=
              if truthy (Some (outputDir options))
              then map (fun '(filePath, content) =>
                          {| write_dir := outputDir options;
                             write_file := filePath;
                             write_content := content |})
                       generatedFiles
              else [] in
            inr (generatedFiles, writes)
      end
  end.

(** [generate] forces the filter to [undefined]. *)
Definition generate (this : ConsumerGenerator) (fs : gmap string YamlFile)
    (options : ConsumerGeneratorOptions)
    : Exception + (list (string * string) * list FileWrite) :=
  generateForOperations this fs
    {| specPath := specPath options; outputDir := outputDir options;
       language := language options; opt_packageName := opt_packageName options;
       operations := None |}.

(** *** Reading of the extraction *)

(** The entries the loop guard lets through, in traversal order: path, key,
    operation id, operation. *)
Definition wellFormed (spec : OpenAPISpec) : list (string * string * string * Operation) :=
  omap (fun t => '(id, op) ← usable t.2; Some (t.1.1, t.1.2, id, op)) (traversal spec).

Definition operationIds (spec : OpenAPISpec) : list string :=
  map (fun w => w.1.2) (wellFormed spec).

Definition describeEntry (w : string * string * string * Operation) : OperationContext :=
  describe w.1.1.1 w.1.1.2 w.1.2 w.2.

(** What the loop body adds for one triple of the traversal. *)
Definition extracted (filterOperationIds : option (list string))
    (t : string * string * PathEntry) : list OperationContext :=
  match usable t.2 with
  | None => []
  | Some (id, op) =>
      if filteredOut filterOperationIds id then [] else [describe t.1.1 t.1.2 id op]
  end.

(** Descriptors of one path item come in increasing rank of their verb. *)
Definition VerbsRanked (rank : string -> nat) (ops : list OperationContext) : Prop :=
  forall i j d1 d2,
    (i < j)%nat -> ops !! i = Some d1 -> ops !! j = Some d2 ->
    ctx_path d1 = ctx_path d2 -> (rank (ctx_method d1) < rank (ctx_method d2))%nat.

Definition petOperation (id : string) : Operation :=
  {| operationId := Some id; op_summary := None; op_tags := None;
     op_parameters := None; op_requestBody := None; op_responses := ∅ |}.

Definition getFirst : OpenAPISpec :=
  {| info_title := "Pets";
     paths := Some [ ("/pets", Some [ ("get", OperationObject (petOperation "listPets"));
                                      ("post", OperationObject (petOperation "createPet")) ]) ] |}.

Definition postFirst : OpenAPISpec :=
  {| info_title := "Pets";
     paths := Some [ ("/pets", Some [ ("post", OperationObject (petOperation "createPet"));
                                      ("get", OperationObject (petOperation "listPets")) ]) ] |}.

(** A document with entries the guard skips: a scalar, an object without
    an id, an object with an empty id. *)
Definition mixedSpec : OpenAPISpec :=
  {| info_title := "Pets";
     paths := Some [ ("/pets", Some [ ("summary", NotAnObject);
                                      ("post", OperationObject (petOperation "createPet"));
                                      ("parameters", OperationObject
                                         {| operationId := None; op_summary := None;
                                            op_tags := None; op_parameters := None;
                                            op_requestBody := None; op_responses := ∅ |});
                                      ("get", OperationObject (petOperation "listPets")) ]);
                     ("/pets/{id}",
                      Some [ ("get", OperationObject (petOperation "getPet"));
                             ("put", OperationObject (petOperation EmptyString));
                             ("delete", OperationObject (petOperation "deletePet")) ]) ] |}.

(** The same document with a key without a value after the first
    operation: [yaml.load] gives [null] for it. *)
Definition nullEntrySpec : OpenAPISpec :=
  {| info_title := "Pets";
     paths := Some [ ("/pets", Some [ ("post", OperationObject (petOperation "createPet"));
                                      ("get", NullValue) ]);
                     ("/pets/{id}",
                      Some [ ("get", OperationObject (petOperation "getPet")) ]) ] |}.

(** *** Reading of the return type *)

(** The response the return type is read from: that of status 200 when
    there is one, that of status 201 otherwise. *)
Definition selectedResponse (op : Operation) : option Response :=
  match op_responses op !! "200" with
  | Some r => Some r
  | None => op_responses op !! "201"
  end.

(** The type a content map names: the text after the last slash of the
    [$ref] of its JSON schema, when there is such a text. *)
Definition namedSchema (content : gmap string MediaType) : option string :=
  json ← content !! "application/json";
  schema ← media_schema json;
  ref ← schema_ref schema;
  match ref, last (split_char "/" ref) with
  | String _ _, Some (String c s) => Some (String c s)
  | _, _ => None
  end.

(** A 200 or 201 response declares a JSON body. *)
Definition hasJsonBody (op : Operation) : bool :=
  existsb (fun code =>
             match op_responses op !! code with
             | Some r =>
                 match response_content r with
                 | Some content => bool_decide (is_Some (content !! "application/json"))
                 | None => false
                 end
             | None => false
             end)
          ["200"; "201"].

Definition withResponses (responses : gmap string Response) : Operation :=
  {| operationId := Some "getPet"; op_summary := None; op_tags := None;
     op_parameters := None; op_requestBody := None; op_responses := responses |}.

Definition refTo (ref : string) : MediaType :=
  {| media_schema := Some {| schema_type := None; schema_ref := Some ref |} |}.

(** A 200 response with a plain-text body only. *)
Definition textOnly : Operation :=
  withResponses
    {[ "200" := {| response_description := "OK";
                   response_content :=
                     Some {[ "text/plain" :=
                               {| media_schema :=
                                    Some {| schema_type := Some "string";
                                            schema_ref := None |} |} ]} |} ]}.

(** A 200 response with a JSON body that refers to a component schema. *)
Definition jsonPet : Operation :=
  withResponses
    {[ "200" := {| response_description := "OK";
                   response_content :=
                     Some {[ "application/json" := refTo "#/components/schemas/Pet" ]} |} ]}.

(** A 200 response without content before a 201 response with a JSON body. *)
Definition createdPet : Operation :=
  withResponses
    {[ "200" := {| response_description := "OK"; response_content := None |};
       "201" := {| response_description := "Created";
                   response_content :=
                     Some {[ "application/json" := refTo "#/components/schemas/Pet" ]} |} ]}.

(** A 204 response only. *)
Definition noContent : Operation :=
  withResponses
    {[ "204" := {| response_description := "No Content"; response_content := None |} ]}.

(** *** What the emitters read *)

(** The paths of the file map of a language. *)
Definition pathsOf (language : string) : list string :=
  if String.eqb language "java"
  then ["src/main/java/Application.java"; "src/main/java/ApiService.java"; "pom.xml"]
  else if String.eqb language "typescript"
  then ["src/index.ts"; "src/api-service.ts"; "package.json"]
  else if String.eqb language "python"
  then ["main.py"; "api_service.py"; "requirements.txt"]
  else [].

(** A descriptor with the fields blanked that the emitters of a language
    never read. None reads [hasParams]. Those of Java read the rest; those
    of the other languages read neither [hasBody] nor where a parameter
    is [in]. *)
Definition readBy (language : string) (op : OperationContext) : OperationContext :=
  if String.eqb language "java"
  then {| ctx_operationId := ctx_operationId op; ctx_method := ctx_method op;
          ctx_path := ctx_path op; ctx_summary := ctx_summary op;
          hasBody := hasBody op; hasParams := false; params := params op;
          returnType := returnType op |}
  else {| ctx_operationId := ctx_operationId op; ctx_method := ctx_method op;
          ctx_path := ctx_path op; ctx_summary := ctx_summary op;
          hasBody := false; hasParams := false;
          params := map (fun p => {| p_name := p_name p; p_type := p_type p;
                                     p_in := EmptyString |})
                        (params op);
          returnType := returnType op |}.

(** Two descriptors of one operation that differ in all that the emitters
    of Python do not read. *)
Definition findByStatus : OperationContext :=
  {| ctx_operationId := "findPetsByStatus"; ctx_method := "GET";
     ctx_path := "/pets/findByStatus"; ctx_summary := "Finds pets by status";
     hasBody := false; hasParams := true;
     params := [ {| p_name := "status"; p_type := "string"; p_in := "query" |} ];
     returnType := "Pet" |}.

Definition findByStatus' : OperationContext :=
  {| ctx_operationId := "findPetsByStatus"; ctx_method := "GET";
     ctx_path := "/pets/findByStatus"; ctx_summary := "Finds pets by status";
     hasBody := true; hasParams := false;
     params := [ {| p_name := "status"; p_type := "string"; p_in := "header" |} ];
     returnType := "Pet" |}.

End ConsumerGenerator.

(** ** What the emitted Java does

    The two pieces of emitted Java the specification speaks of, the query
    block of a method and the status test of [sendRequest], as small
    programs: each is rendered to the text the generator emits, and run. *)

Module GeneratedJava.
Import JsString ConsumerGenerator.

(** *** The query block of a method *)

Inductive QueryStmt :=
  | NewQuery
  | AppendIfNotNull (name prefix : string)
  | AppendQueryToPath.

Definition renderQueryStmt (s : QueryStmt) : string :=
  match s with
  | NewQuery => "        StringBuilder query = new StringBuilder();"
  | AppendIfNotNull name prefix => javaQueryAppend name (dq +:+ prefix +:+ dq)
  | AppendQueryToPath =>
      "        if (query.length() > 0) {
            path += " +:+ dq +:+ "?" +:+ dq +:+ " + query.toString();
        }"
  end.

(** The statements [generateJavaService] emits for the query parameters of
    an operation, in the order it emits them. *)
Definition queryProgram (queryParams : list OperationParam) : list QueryStmt :=
  NewQuery
  :: imap (fun i p => AppendIfNotNull (p_name p) (if (i =? 0)%nat then EmptyString else "&"))
          queryParams
  ++ [AppendQueryToPath].

Record QueryState := {
  query : string;
  path : string
}.

(** [args] gives the text of the argument bound to a method parameter, or
    [None] when the caller passes [null]. *)
Definition execQueryStmt (args : string -> option string) (st : QueryState)
    (s : QueryStmt) : QueryState :=
  match s with
  | NewQuery => {| query := EmptyString; path := path st |}
  | AppendIfNotNull name prefix =>
      match args name with
      | Some value =>
          {| query := query st +:+ prefix +:+ name +:+ "=" +:+ value; path := path st |}
      | None => st
      end
  | AppendQueryToPath =>
      if (0 <? String.length (query st))%nat
      then {| query := query st; path := path st +:+ "?" +:+ query st |}
      else st
  end.

(** The value of [path] after the query block of [op], from the value
    [path0] the path-building statement left. *)
Definition runQueryBlock (op : OperationContext) (args : string -> option string)
    (path0 : string) : string :=
  let queryParams := List.filter inQuery (params op) in
  if (0 <? length queryParams)%nat
  then path (foldl (execQueryStmt args) {| query := EmptyString; path := path0 |}
                   (queryProgram queryParams))
  else path0.

(** *** The status test of [sendRequest] *)

Inductive StatusTest :=
  | Between (lo hi : Z)
  | Is (n : Z).

Inductive StatusAction :=
  | ReturnResponseBody
  | ReturnNull
  | ThrowRuntimeException.

Definition renderStatusTest (t : StatusTest) : string :=
  match t with
  | Between lo hi => "statusCode >= " +:+ pretty lo +:+ " && statusCode < " +:+ pretty hi
  | Is n => "statusCode == " +:+ pretty n
  end.

Definition renderStatusAction (a : StatusAction) : string :=
  match a with
  | ReturnResponseBody => "return responseBody;"
  | ReturnNull => "return null;"
  | ThrowRuntimeException =>
      "throw new RuntimeException(" +:+ dq +:+ "HTTP " +:+ dq +:+ " + statusCode + "
      +:+ dq +:+ ": " +:+ dq +:+ " + responseBody);"
  end.

(** An [if] / [else if] / [else] chain. *)
Fixpoint renderStatusChain (branches : list (StatusTest * StatusAction))
    (otherwise : StatusAction) : string :=
  match branches with
  | [] => "{
            " +:+ renderStatusAction otherwise +:+ "
        }"
  | (t, a) :: rest =>
      "if (" +:+ renderStatusTest t +:+ ") {
            " +:+ renderStatusAction a +:+ "
        } else " +:+ renderStatusChain rest otherwise
  end.

Definition statusBranches : list (StatusTest * StatusAction) :=
  [ (Between 200 300, ReturnResponseBody); (Is 204, ReturnNull) ].

Inductive JavaResult :=
  | Returns (value : option string)
  | Throws (message : string).

Definition holds (t : StatusTest) (statusCode : Z) : bool :=
  match t with
  | Between lo hi => (lo <=? statusCode) && (statusCode <? hi)
  | Is n => statusCode =? n
  end.

Definition perform (a : StatusAction) (statusCode : Z) (responseBody : string)
    : JavaResult :=
  match a with
  | ReturnResponseBody => Returns (Some responseBody)
  | ReturnNull => Returns None
  | ThrowRuntimeException => Throws ("HTTP " +:+ pretty statusCode +:+ ": " +:+ responseBody)
  end.

Fixpoint runStatusChain (branches : list (StatusTest * StatusAction))
    (otherwise : StatusAction) (statusCode : Z) (responseBody : string) : JavaResult :=
  match branches with
  | [] => perform otherwise statusCode responseBody
  | (t, a) :: rest =>
      if holds t statusCode then perform a statusCode responseBody
      else runStatusChain rest otherwise statusCode responseBody
  end.

(** What [sendRequest] does with a response once it has one. *)
Definition handleStatus (statusCode : Z) (responseBody : string) : JavaResult :=
  runStatusChain statusBranches ThrowRuntimeException statusCode responseBody.

(** What a generated method hands to its caller: a [void] method calls
    [sendRequest] and drops the result, any other returns it. *)
Inductive MethodOutcome :=
  | NoValue
  | Value (v : option string)
  | Raised (message : string).

Definition methodOutcome (op : OperationContext) (statusCode : Z) (responseBody : string)
    : MethodOutcome :=
  match handleStatus statusCode responseBody with
  | Throws message => Raised message
  | Returns v => if isVoid op then NoValue else Value v
  end.

(** The operation of the specification's query example: two optional query
    parameters [a] and [b], in this order. *)
Definition twoQueryParams : OperationContext :=
  {| ctx_operationId := "listPets"; ctx_method := "GET"; ctx_path := "/pets";
     ctx_summary := "listPets"; hasBody := false; hasParams := true;
     params := [ {| p_name := "a"; p_type := "string"; p_in := "query" |};
                 {| p_name := "b"; p_type := "string"; p_in := "query" |} ];
     returnType := "Object" |}.

Definition onlyB (value : string) (name : string) : option string :=
  if String.eqb name "b" then Some value else None.

(** What the query block appends for the parameters [queryParams], the
    first of which has index [i] in the declaration. *)
Fixpoint appended (args : string -> option string) (i : nat)
    (queryParams : list OperationParam) : string :=
  match queryParams with
  | [] => EmptyString
  | p :: ps =>
      match args (p_name p) with
      | Some value =>
          (if (i =? 0)%nat then EmptyString else "&") +:+ p_name p +:+ "=" +:+ value
          +:+ appended args (S i) ps
      | None => appended args (S i) ps
      end
  end.

(** The name=value pairs of the supplied parameters, in declaration order. *)
Definition queryPairs (args : string -> option string)
    (queryParams : list OperationParam) : list string :=
  omap (fun p => value ← args (p_name p); Some (p_name p +:+ "=" +:+ value)) queryParams.

(** *** The path statement of a method *)

(** [s.replace(target, replacement)] of Java on a target that is not
    empty: every occurrence of the target, from the left, without overlap.
    [skip] counts the characters of a replaced occurrence still to pass. *)
Fixpoint replace_go (target replacement : string) (skip : nat) (s : string) : string :=
  match s with
  | EmptyString => EmptyString
  | String c s' =>
      match skip with
      | S k => replace_go target replacement k s'
      | O =>
          if String.prefix target s
          then replacement
               +:+ replace_go target replacement (String.length target - 1) s'
          else String c (replace_go target replacement 0 s')
      end
  end.

Definition javaReplace (target replacement s : string) : string :=
  replace_go target replacement 0 s.

(** The expression [javaPathCode] emits for the initial value of [path]:
    the path template as a string literal, then one call of [replace] on
    it for each path parameter, with a literal target and the method
    parameter as replacement. *)
Inductive PathExpr :=
  | Template (text : string)
  | ReplaceCall (receiver : PathExpr) (target argument : string).

Fixpoint renderPathExpr (e : PathExpr) : string :=
  match e with
  | Template text => dq +:+ text +:+ dq
  | ReplaceCall receiver target argument =>
      renderPathExpr receiver +:+ ".replace(" +:+ dq +:+ target +:+ dq
      +:+ ", " +:+ argument +:+ ")"
  end.

(** The expression for an operation: a call for each path parameter, in
    declaration order. *)
Definition pathProgram (op : OperationContext) : PathExpr :=
  foldl (fun e p => ReplaceCall e ("{" +:+ p_name p +:+ "}") (p_name p))
        (Template (ctx_path op)) (List.filter inPath (params op)).

(** A text that a Java string literal holds as it is written: it has no
    double quote, no backslash and no line break. *)
Definition plainLiteral (text : string) : bool :=
  all_chars (fun c => negb (Ascii.eqb c (ascii_of_nat 34))
                      && negb (Ascii.eqb c (ascii_of_nat 92))
                      && negb (Ascii.eqb c (ascii_of_nat 10))
                      && negb (Ascii.eqb c (ascii_of_nat 13)))
            text.

(** The value of the expression, its literals being plain. [None] is the
    [NullPointerException] of [replace] on a [null] replacement. *)
Fixpoint evalPathExpr (args : string -> option string) (e : PathExpr) : option string :=
  match e with
  | Template text => Some text
  | ReplaceCall receiver target argument =>
      path ← evalPathExpr args receiver;
      value ← args argument;
      Some (javaReplace target value path)
  end.

(** The value of [path] after the statement [javaPathCode] emits. *)
Definition runPathCode (op : OperationContext) (args : string -> option string)
    : option string :=
  evalPathExpr args (pathProgram op).

(** The operation of the specification's path example. *)
Definition getPetById : OperationContext :=
  {| ctx_operationId := "getPet"; ctx_method := "GET"; ctx_path := "/pets/{id}";
     ctx_summary := "getPet"; hasBody := false; hasParams := true;
     params := [ {| p_name := "id"; p_type := "string"; p_in := "path" |};
                 {| p_name := "limit"; p_type := "number"; p_in := "query" |};
                 {| p_name := "offset"; p_type := "number"; p_in := "query" |} ];
     returnType := "Pet" |}.

End GeneratedJava.

(** ** The planner (the [spec plan] command) *)

Module Plan.
Import JsString.

(** Action keywords that map to HTTP methods. *)
Definition actionKeywords : list (string * list string) :=
  [ ("create", ["create"; "add"; "new"; "make"; "post"]);
    ("list", ["list"; "get all"; "fetch all"; "show all"; "all"]);
    ("get", ["get"; "fetch"; "retrieve"; "find"; "show"; "read"]);
    ("update", ["update"; "modify"; "edit"; "change"; "put"; "patch"]);
    ("delete", ["delete"; "remove"; "destroy"]) ].

(** Extract action types from intent. *)
Definition matchedActions (intentLower : string) : gset string :=
  foldl (fun acc '(action, keywords) =>
           if existsb (fun kw => includes intentLower kw) keywords
           then acc ∪ {[ action ]} else acc)
        ∅ actionKeywords.

Definition has (s : gset string) (a : string) : bool := bool_decide (a ∈ s).

(** Check 1: direct entity match. *)
Definition entityMatch (intentWords : list string)
    (opId opPath opSummary : string) (opTags : list string) : bool :=
  existsb (fun word =>
             (2 <? String.length word)%nat
             && (includes opId word
                 || includes opPath word
                 || includes opSummary word
                 || existsb (fun tag => includes tag word) opTags))
          intentWords.

(** Check 2: action match, the five assignments in sequence. *)
Definition actionMatch (actions : gset string) (method pathKey : string) : bool :=
  let actionMatch := false in
  let actionMatch :=
    if has actions "create" && String.eqb method "post" then true else actionMatch in
  let actionMatch :=
    if has actions "list" && String.eqb method "get" && negb (includes pathKey "{")
    then true else actionMatch in
  let actionMatch :=
    if has actions "get" && String.eqb method "get" then true else actionMatch in
  let actionMatch :=
    if has actions "update" && (String.eqb method "put" || String.eqb method "patch")
    then true else actionMatch in
  let actionMatch :=
    if has actions "delete" && String.eqb method "delete" then true else actionMatch in
  actionMatch.

(** The second test: the operation id contains an intent word of more
    than three characters. *)
Definition idMatch (intentWords : list string) (opId : string) : bool :=
  existsb (fun word => (3 <? String.length word)%nat && includes opId word) intentWords.

(** [if (!matchedOperations.includes(id)) matchedOperations.push(id)] *)
Definition pushUnique (id : string) (matchedOperations : list string) : list string :=
  if bool_decide (id ∈ matchedOperations) then matchedOperations
  else matchedOperations ++ [id].

(** The body of the inner loop, on the list built so far. *)
Definition visit (intentWords : list string) (actions : gset string)
    (matchedOperations : list string) (pathKey method : string) (entry : PathEntry)
    : Exception + list string :=
  match guard entry with
  | inl thrown => inl thrown
  | inr None => inr matchedOperations
  | inr (Some (id, op)) =>
      let opId := toLowerCase id in
      let opSummary := toLowerCase (or_else (op_summary op) EmptyString) in
      let opTags := map toLowerCase (default [] (op_tags op)) in
      let opPath := toLowerCase pathKey in
      let entity := entityMatch intentWords opId opPath opSummary opTags in
      let action := actionMatch actions method pathKey in
      let matchedOperations :=
        if entity && (action || (size actions =? 0)%nat)
        then pushUnique id matchedOperations else matchedOperations in
      let matchedOperations :=
        if idMatch intentWords opId
        then pushUnique id matchedOperations else matchedOperations in
      inr matchedOperations
  end.

Definition findMatchingOperations (intentWords : list string) (actions : gset string)
    (spec : OpenAPISpec) : Exception + list string :=
  forOf (default [] (paths spec))
    (fun matchedOperations '(pathKey, pathItem) =>
       match objectEntries pathItem with
       | inl thrown => inl thrown
       | inr own =>
           forOf own
             (fun matchedOperations '(method, operation) =>
                visit intentWords actions matchedOperations pathKey method operation)
             matchedOperations
       end)
    [].

Definition extractTaskTitle (intent : string) : string :=
  let title := toUpperCase (charAt0 intent) +:+ slice1 intent in
  if (50 <? String.length title)%nat
  then String.substring 0 47 title +:+ "..." else title.

(** [now] is the value of [Date.now()]. *)
Definition analyzeIntentAndCreateTasks (now : Z) (intent : string) (spec : OpenAPISpec)
    : Exception + list Task :=
  let tasks : list Task := [] in
  let intentLower := toLowerCase intent in
  let intentWords := split_ws intentLower in
  let actions := matchedActions intentLower in
  match findMatchingOperations intentWords actions spec with
  | inl thrown => inl thrown
  | inr matchedOperations =>
      if (0 <? length matchedOperations)%nat
      then inr (tasks ++ [ {| task_id := "task-" +:+ pretty now;
                              task_title := extractTaskTitle intent;
                              task_description := "Implement: " +:+ intent;
                              task_status := pending;
                              task_operations := matchedOperations |} ])
      else inr tasks
  end.

(** *** Reading of the planner's selection *)

(** Whether the two tests of the loop body select an entry. *)
Definition selects (intentWords : list string) (actions : gset string)
    (t : string * string * PathEntry) : option string :=
  '(id, op) ← usable t.2;
  let opId := toLowerCase id in
  if (entityMatch intentWords opId (toLowerCase t.1.1)
        (toLowerCase (or_else (op_summary op) EmptyString))
        (map toLowerCase (default [] (op_tags op)))
      && (actionMatch actions t.1.2 t.1.1 || (size actions =? 0)%nat))
     || idMatch intentWords opId
  then Some id else None.

(** The ids the planner selects for an intent, one per selected entry, in
    traversal order. *)
Definition matchedIds (intent : string) (spec : OpenAPISpec) : list string :=
  omap (selects (split_ws (toLowerCase intent)) (matchedActions (toLowerCase intent)))
       (traversal spec).

(** Keep the first occurrence of every element. *)
Fixpoint first_seen (l : list string) : list string :=
  match l with
  | [] => []
  | x :: l' => x :: filter (fun y => y ≠ x) (first_seen l')
  end.

Definition mkOp (id : string) (summary : option string) (tags : option (list string))
    : Operation :=
  {| operationId := Some id; op_summary := summary; op_tags := tags;
     op_parameters := None; op_requestBody := None; op_responses := ∅ |}.

(** The pets contract of the specification's example. *)
Definition petsSpec (s1 s2 s3 : option string) (t1 t2 t3 : option (list string))
    : OpenAPISpec :=
  {| info_title := "Pets";
     paths := Some [ ("/pets", Some [ ("get", OperationObject (mkOp "listPets" s1 t1));
                                      ("post", OperationObject (mkOp "createPet" s2 t2)) ]);
                     ("/pets/{id}",
                      Some [ ("get", OperationObject (mkOp "getPet" s3 t3)) ]) ] |}.

(** The three operations of the example, with any summaries and tags. *)
Definition petsEntries (s1 s2 s3 : option string) (t1 t2 t3 : option (list string))
    : list (string * string * PathEntry) :=
  [ ("/pets", "get", OperationObject (mkOp "listPets" s1 t1));
    ("/pets", "post", OperationObject (mkOp "createPet" s2 t2));
    ("/pets/{id}", "get", OperationObject (mkOp "getPet" s3 t3)) ].

(** The three operations of the example as the loop guard lets them
    through (path, key, id, operation), whatever the operations hold. *)
Definition petsOperations (listPets createPet getPet : Operation)
    : list (string * string * string * Operation) :=
  [ ("/pets", "get", "listPets", listPets);
    ("/pets", "post", "createPet", createPet);
    ("/pets/{id}", "get", "getPet", getPet) ].

Definition petResponse : Response :=
  {| response_description := "A pet";
     response_content :=
       Some {[ "application/json" :=
                 {| media_schema :=
                      Some {| schema_type := None;
                              schema_ref := Some "#/components/schemas/Pet" |} |} ]} |}.

(** A pets contract with what a contract has besides the ids: parameters,
    a request body, responses, and keys of a path item that are not
    operations. *)
Definition petStore : OpenAPISpec :=
  {| info_title := "Pet Store";
     paths :=
       Some [ ("/pets/{id}",
               Some [ ("parameters", OperationObject
                         {| operationId := None; op_summary := None; op_tags := None;
                            op_parameters := None; op_requestBody := None;
                            op_responses := ∅ |});
                      ("get", OperationObject
                         {| operationId := Some "getPet"; op_summary := Some "Info for a pet";
                            op_tags := Some ["pets"];
                            op_parameters :=
                              Some [ {| param_name := "id"; param_in := "path";
                                        param_schema :=
                                          Some {| schema_type := Some "string";
                                                  schema_ref := None |} |} ];
                            op_requestBody := None;
                            op_responses := {[ "200" := petResponse ]} |}) ]);
              ("/pets",
               Some [ ("summary", NotAnObject);
                      ("post", OperationObject
                         {| operationId := Some "createPet"; op_summary := Some "Create a pet";
                            op_tags := Some ["pets"]; op_parameters := None;
                            op_requestBody :=
                              Some {| body_content :=
                                        {[ "application/json" :=
                                             {| media_schema :=
                                                  Some {| schema_type := None;
                                                          schema_ref :=
                                                            Some "#/components/schemas/Pet" |} |} ]} |};
                            op_responses := {[ "201" := petResponse ]} |});
                      ("get", OperationObject
                         {| operationId := Some "listPets"; op_summary := None;
                            op_tags := None;
                            op_parameters :=
                              Some [ {| param_name := "limit"; param_in := "query";
                                        param_schema :=
                                          Some {| schema_type := Some "integer";
                                                  schema_ref := None |} |} ];
                            op_requestBody := None;
                            op_responses := {[ "200" := petResponse ]} |}) ]) ] |}.

(** *** The catalog of operations *)

(** The lines [listAvailableOperations] prints, in order, and what it
    throws, if it does. *)
Definition listAvailableOperations (spec : OpenAPISpec) : list string * option Exception :=
  forOfPrinting (default [] (paths spec))
    (fun console '(pathKey, pathItem) =>
       match objectEntries pathItem with
       | inl thrown => (console, Some thrown)
       | inr own =>
           forOfPrinting own
             (fun console '(method, operation) =>
                match guard operation with
                | inl thrown => (console, Some thrown)
                | inr None => (console, None)
                | inr (Some (id, op)) =>
                    let console :=
                      console
                      ++ ["  - " +:+ toUpperCase method +:+ " " +:+ pathKey
                          +:+ ": " +:+ id] in
                    if truthy (op_summary op)
                    then (console ++ ["    " +:+ default EmptyString (op_summary op)], None)
                    else (console, None)
                end)
             console
       end)
    [].

(** *** The choice of tasks of [spec implement] *)

Record ImplementOptions := {
  opt_task : option string;
  opt_all : bool;
  opt_plan : string;
  opt_dryRun : bool
}.

Definition isPending (t : Task) : bool :=
  match task_status t with
  | pending => true
  | _ => false
  end.

(** The tasks to implement, or the message of the error the command ends
    with. *)
Definition tasksToImplement (options : ImplementOptions) (tasks : list Task)
    : string + list Task :=
  if truthy (opt_task options) then
    match List.find (fun t => String.eqb (task_id t) (default EmptyString (opt_task options)))
                    tasks with
    | None => inl ("Task '" +:+ default EmptyString (opt_task options)
                   +:+ "' not found in plan")
    | Some task => inr [task]
    end
  else if opt_all options then inr (List.filter isPending tasks)
  else
    (* Default: implement first pending task *)
    match List.find isPending tasks with
    | Some pendingTask => inr [pendingTask]
    | None => inr []
    end.

(** The line of the catalog for a descriptor. *)
Definition catalogLine (d : ConsumerGenerator.OperationContext) : string :=
  "  - " +:+ ConsumerGenerator.ctx_method d +:+ " " +:+ ConsumerGenerator.ctx_path d
  +:+ ": " +:+ ConsumerGenerator.ctx_operationId d.

End Plan.

(** ** The fetch of a contract ([spec sync]) *)

Module Sync.
Import JsString.

Inductive HttpModule := http | https.

(** What the request gives: a throw of [get] itself, no connection, a
    response that breaks off with an error, or a response with its status
    and the chunks of its body. *)
Inductive NetOutcome :=
  | Threw
  | ConnectionError (message : string)
  | ResponseError (error : string)
  | Responded (statusCode : Z) (chunks : list string).

Definition concat_chunks (chunks : list string) : string :=
  foldl (fun data chunk => data +:+ chunk) EmptyString chunks.

(** The result of [fetchSpec]: the text of the contract, or the message of
    the error the promise is rejected with. [get] is the request made with
    the module the URL selects. *)
Definition fetchSpec (get : HttpModule -> string -> NetOutcome) (url : option string)
    : string + string :=
  (* Validate URL format *)
  if negb (truthy url) then inl "URL is required. Use: spec sync --url <url>"
  else
    let url := default EmptyString url in
    if negb (startsWith url "http://") && negb (startsWith url "https://")
    then inl ("Invalid URL: " +:+ url +:+ ". URL must start with http:// or https://")
    else
      let client := if startsWith url "https" then https else http in
      match get client url with
      | Responded statusCode chunks =>
          if negb (statusCode =? 200)
          then inl ("HTTP " +:+ pretty statusCode +:+ ": Failed to fetch spec from " +:+ url)
          else inr (concat_chunks chunks)
      | ResponseError error => inl error
      | ConnectionError message =>
          inl ("Failed to connect to " +:+ url +:+ ": " +:+ message)
      | Threw => inl ("Invalid URL format: " +:+ url)
      end.

End Sync.

(** ** Patterns

    The fragment of JavaScript regular expressions the guardrail rules are
    written in, with [RegExp.prototype.test] for a pattern without the [g]
    flag: some substring matches. The flag [i] bears on literal
    characters, the only ones the sources use it with. *)

Module Regex.
Import JsString.

Inductive re :=
  | Eps
  | Chr (c : ascii)
  | Class (f : ascii -> bool)
  | WordBoundary
  | Seq (r1 r2 : re)
  | Alt (r1 r2 : re)
  | Star (r : re).

Record RegExp := {
  source : re;
  ignoreCase : bool
}.

Definition chr_eq (ic : bool) (a c : ascii) : bool :=
  if ic then Ascii.eqb (lower_char a) (lower_char c) else Ascii.eqb a c.

Definition word_at (o : option ascii) : bool :=
  match o with
  | Some c => is_word c
  | None => false
  end.

Definition next (s : string) : option ascii :=
  match s with
  | String a _ => Some a
  | EmptyString => None
  end.

(** Zero or more iterations of what [m] matches, then [k]; an iteration
    that consumes nothing is not repeated, and [n] bounds the iterations. *)
Fixpoint starLoop (m : option ascii -> string -> (option ascii -> string -> bool) -> bool)
    (k : option ascii -> string -> bool) (n : nat) (prev : option ascii) (s : string)
    {struct n} : bool :=
  k prev s
  || match n with
     | O => false
     | S n' =>
         m prev s (fun p s' =>
                     (String.length s' <? String.length s)%nat && starLoop m k n' p s')
     end.

(** [matchFrom ic r prev s k]: [r] matches a prefix of [s], the character
    before [s] being [prev], and [k] accepts what follows. *)
Fixpoint matchFrom (ic : bool) (r : re) (prev : option ascii) (s : string)
    (k : option ascii -> string -> bool) {struct r} : bool :=
  match r with
  | Eps => k prev s
  | Chr c =>
      match s with
      | String a s' => if chr_eq ic a c then k (Some a) s' else false
      | EmptyString => false
      end
  | Class f =>
      match s with
      | String a s' => if f a then k (Some a) s' else false
      | EmptyString => false
      end
  | WordBoundary => if xorb (word_at prev) (word_at (next s)) then k prev s else false
  | Seq r1 r2 => matchFrom ic r1 prev s (fun p s' => matchFrom ic r2 p s' k)
  | Alt r1 r2 => matchFrom ic r1 prev s k || matchFrom ic r2 prev s k
  | Star r1 => starLoop (matchFrom ic r1) k (String.length s) prev s
  end.

Fixpoint searchFrom (ic : bool) (r : re) (prev : option ascii) (s : string) : bool :=
  matchFrom ic r prev s (fun _ _ => true)
  || match s with
     | String a s' => searchFrom ic r (Some a) s'
     | EmptyString => false
     end.

Definition test (rx : RegExp) (s : string) : bool :=
  searchFrom (ignoreCase rx) (source rx) None s.

(** Abbreviations for writing the patterns down. *)
Fixpoint lit (s : string) : re :=
  match s with
  | EmptyString => Eps
  | String c EmptyString => Chr c
  | String c s' => Seq (Chr c) (lit s')
  end.

Fixpoint seq (rs : list re) : re :=
  match rs with
  | [] => Eps
  | [r] => r
  | r :: rs' => Seq r (seq rs')
  end.

Fixpoint alt (rs : list re) : re :=
  match rs with
  | [] => Class (fun _ => false)
  | [r] => r
  | r :: rs' => Alt r (alt rs')
  end.

Fixpoint occurs (c : ascii) (s : string) : bool :=
  match s with
  | EmptyString => false
  | String a s' => Ascii.eqb a c || occurs c s'
  end.

Definition oneOf (s : string) : re := Class (fun c => occurs c s).
Definition noneOf (s : string) : re := Class (fun c => negb (occurs c s)).

(** [\s]: a white-space character, of one, two or three bytes. *)
Definition space : re :=
  alt [ Class is_ws;
        lit (bytes [194; 160]%nat);
        lit (bytes [225; 154; 128]%nat);
        Seq (lit (bytes [226; 128]%nat)) (Class general_punctuation_ws);
        lit (bytes [226; 129; 159]%nat);
        lit (bytes [227; 128; 128]%nat);
        lit (bytes [239; 187; 191]%nat) ].
Definition plus (r : re) : re := Seq r (Star r).
Definition opt (r : re) : re := Alt r Eps.
Definition regex (r : re) : RegExp := {| source := r; ignoreCase := false |}.
Definition regex_i (r : re) : RegExp := {| source := r; ignoreCase := true |}.

(** *** What a pattern matches *)

(** The character before the position reached after reading [w]. *)
Fixpoint last_char (prev : option ascii) (w : string) : option ascii :=
  match w with
  | EmptyString => prev
  | String a w' => last_char (Some a) w'
  end.

(** [Matches ic r prev w rest]: the pattern [r] matches the text [w], which
    stands after the character [prev] and before the text [rest]. *)
Inductive Matches (ic : bool) : re -> option ascii -> string -> string -> Prop :=
  | MEps prev rest :
      Matches ic Eps prev EmptyString rest
  | MChr c a prev rest :
      chr_eq ic a c = true ->
      Matches ic (Chr c) prev (String a EmptyString) rest
  | MClass f a prev rest :
      f a = true ->
      Matches ic (Class f) prev (String a EmptyString) rest
  | MWordBoundary prev rest :
      xorb (word_at prev) (word_at (next rest)) = true ->
      Matches ic WordBoundary prev EmptyString rest
  | MSeq r1 r2 prev w1 w2 rest :
      Matches ic r1 prev w1 (w2 +:+ rest) ->
      Matches ic r2 (last_char prev w1) w2 rest ->
      Matches ic (Seq r1 r2) prev (w1 +:+ w2) rest
  | MAltL r1 r2 prev w rest :
      Matches ic r1 prev w rest ->
      Matches ic (Alt r1 r2) prev w rest
  | MAltR r1 r2 prev w rest :
      Matches ic r2 prev w rest ->
      Matches ic (Alt r1 r2) prev w rest
  | MStarDone r prev rest :
      Matches ic (Star r) prev EmptyString rest
  | MStarStep r prev w1 w2 rest :
      Matches ic r prev w1 (w2 +:+ rest) ->
      w1 <> EmptyString ->
      Matches ic (Star r) (last_char prev w1) w2 rest ->
      Matches ic (Star r) prev (w1 +:+ w2) rest.

(** What the continuation-passing matcher of a pattern is to compute. *)
Definition MatcherSpec (ic : bool) (r : re) : Prop :=
  forall prev s k,
    matchFrom ic r prev s k = true
    <-> exists w rest,
          s = w +:+ rest /\ Matches ic r prev w rest /\ k (last_char prev w) rest = true.

End Regex.

(** ** The guardrail engine ([src/core/guardrails.ts]) *)

Module Guardrails.
Import JsString Regex.

Record Rule := {
  name : string;
  pattern : RegExp;
  message : string;
  languages : option (list string);
  skipPatterns : option (list RegExp)
}.

Definition quotes : string := dq +:+ "'".

Definition noFetch : Rule :=
  {| name := "no-fetch";
     (* /\bfetch\s*\(/ *)
     pattern := regex (seq [WordBoundary; lit "fetch"; Star space; Chr "("]);
     message := "Direct fetch() calls are not allowed. Use the SDK instead.";
     languages := Some ["typescript"; "javascript"];
     skipPatterns := None |}.

Definition noAxios : Rule :=
  {| name := "no-axios";
     (* /\baxios\s*[\.\(]/ *)
     pattern := regex (seq [WordBoundary; lit "axios"; Star space; oneOf ".("]);
     message := "Direct axios calls are not allowed. Use the SDK instead.";
     languages := Some ["typescript"; "javascript"];
     skipPatterns := None |}.

Definition noHttpClient : Rule :=
  {| name := "no-http-client";
     (* /new\s+HttpClient\s*\(/ *)
     pattern := regex (seq [lit "new"; plus space; lit "HttpClient"; Star space; Chr "("]);
     message := "Direct HttpClient usage is not allowed. Use the SDK instead.";
     languages := Some ["java"];
     skipPatterns := None |}.

Definition noOkHttpDirect : Rule :=
  {| name := "no-okhttp-direct";
     (* /new\s+OkHttpClient\s*\(/ *)
     pattern := regex (seq [lit "new"; plus space; lit "OkHttpClient"; Star space; Chr "("]);
     message := "Direct OkHttpClient usage is not allowed. Use the SDK instead.";
     languages := Some ["java"];
     skipPatterns := None |}.

Definition noRequests : Rule :=
  {| name := "no-requests";
     (* /requests\.(get|post|put|delete|patch)\s*\(/ *)
     pattern := regex (seq [lit "requests."; 
                            alt [lit "get"; lit "post"; lit "put"; lit "delete"; lit "patch"];
                            Star space; Chr "("]);
     message := "Direct requests calls are not allowed. Use the SDK instead.";
     languages := Some ["python"];
     skipPatterns := None |}.

Definition noUrllib : Rule :=
  {| name := "no-urllib";
     (* /urllib\.(request|urlopen)/ *)
     pattern := regex (seq [lit "urllib."; alt [lit "request"; lit "urlopen"]]);
     message := "Direct urllib usage is not allowed. Use the SDK instead.";
     languages := Some ["python"];
     skipPatterns := None |}.

Definition noRawUrl : Rule :=
  {| name := "no-raw-url";
     (* a quote of either kind, http, an optional s, ://, one or more
        characters that are not quotes, a quote of either kind *)
     pattern := regex (seq [oneOf quotes; lit "http"; opt (Chr "s"); lit "://";
                            plus (noneOf quotes); oneOf quotes]);
     message := "Hardcoded URLs detected. API calls should go through the SDK.";
     languages := None;
     (* Skip SDK config, XML namespaces, schema locations *)
     skipPatterns := Some [ regex_i (lit "xmlns");
                            regex_i (lit "xsi:");
                            regex_i (lit "schema");
                            regex (lit "setBasePath");
                            regex (lit "basePath");
                            regex (seq [lit "Configuration"; Star space; Chr "("]) ] |}.

Definition rules : list Rule :=
  [noFetch; noAxios; noHttpClient; noOkHttpDirect; noRequests; noUrllib; noRawUrl].

(** Infer language from file path *)
Definition inferLanguage (filePath : string) : string :=
  if endsWith filePath ".java" then "java"
  else if endsWith filePath ".ts" || endsWith filePath ".tsx" then "typescript"
  else if endsWith filePath ".js" || endsWith filePath ".jsx" then "javascript"
  else if endsWith filePath ".py" then "python"
  else "unknown".

(** Check if a line is a comment *)
Definition isComment (line language : string) : bool :=
  let trimmed := trim line in
  if String.eqb language "java" || String.eqb language "typescript"
     || String.eqb language "javascript"
  then startsWith trimmed "//" || startsWith trimmed "*" || startsWith trimmed "/*"
  else if String.eqb language "python"
  then startsWith trimmed "#" || startsWith trimmed (dq +:+ dq +:+ dq)
       || startsWith trimmed "'''"
  else false.

(** Validate a single file *)
Definition validateFile (content language : string) (filePath : option string)
    : list string :=
  let lines := split_char LF content in
  foldl (fun violations rule =>
           (* Skip rules not applicable to this language *)
           if match languages rule with
              | Some ls => negb (bool_decide (language ∈ ls))
              | None => false
              end
           then violations
           else
             (* Check each line *)
             foldl (fun violations '(i, line) =>
                      (* Skip comments *)
                      if isComment line language then violations
                      else if test (pattern rule) line then
                        (* Check if any skip pattern matches (allowed exceptions) *)
                        let shouldSkip :=
                          match skipPatterns rule with
                          | Some skips => existsb (fun skip => test skip line) skips
                          | None => false
                          end in
                        if negb shouldSkip then
                          let location :=
                            if truthy filePath
                            then default EmptyString filePath +:+ ":" +:+ pretty (i + 1)%nat
                            else "line " +:+ pretty (i + 1)%nat in
                          violations
                          ++ ["[" +:+ name rule +:+ "] " +:+ location +:+ ": " +:+ message rule]
                        else violations
                      else violations)
                   violations (imap pair lines))
        [] rules.

(** Validate generated code against guardrails. [files] is
    [Object.entries(files)]: the entries of the file map in the order in
    which the map enumerates them. *)
Definition validate (files : list (string * string)) : list string :=
  foldl (fun violations '(filePath, content) =>
           (* Skip XML files entirely (pom.xml, etc.) *)
           if endsWith filePath ".xml" || endsWith filePath ".pom" then violations
           else
             let language := inferLanguage filePath in
             violations ++ validateFile content language (Some filePath))
        [] files.

(** Check if a file is a source file *)
Definition isSourceFile (filename : string) : bool :=
  existsb (fun ext => endsWith filename ext) [".java"; ".ts"; ".tsx"; ".js"; ".jsx"; ".py"].

(** *** Reading of the scan *)

Definition applies (rule : Rule) (language : string) : bool :=
  match languages rule with
  | Some ls => bool_decide (language ∈ ls)
  | None => true
  end.

Definition suppressed (rule : Rule) (line : string) : bool :=
  match skipPatterns rule with
  | Some skips => existsb (fun skip => test skip line) skips
  | None => false
  end.

(** The four conditions under which a rule reports a line. *)
Definition reports (rule : Rule) (language line : string) : bool :=
  applies rule language
  && negb (isComment line language)
  && test (pattern rule) line
  && negb (suppressed rule line).

(** The text of the violation of [rule] on the line of index [i]. *)
Definition violationText (rule : Rule) (filePath : option string) (i : nat) : string :=
  "[" +:+ name rule +:+ "] "
  +:+ (if truthy filePath then default EmptyString filePath +:+ ":" +:+ pretty (i + 1)%nat
       else "line " +:+ pretty (i + 1)%nat)
  +:+ ": " +:+ message rule.

Definition fetchLine : string :=
  "const res = await fetch(" +:+ dq +:+ "https://api.example.com/x" +:+ dq +:+ ")".

Definition basePathLine : string :=
  "  basePath: " +:+ dq +:+ "https://api.example.com" +:+ dq +:+ ",".

Definition rawUrlLine : string :=
  "<url>" +:+ dq +:+ "http://internal.example.com/api" +:+ dq +:+ "</url>".

(** *** The directory scan *)

(** A violation as [validateDirectory] returns it. *)
Record GuardrailViolation := {
  gv_rule : string;
  gv_message : string;
  gv_file : option string;
  gv_line : option nat
}.

(** [s.replace(c, '')] for a one-character pattern: the first occurrence
    goes. *)
Fixpoint removeFirst (c : ascii) (s : string) : string :=
  match s with
  | EmptyString => EmptyString
  | String a s' => if Ascii.eqb a c then s' else String a (removeFirst c s')
  end.

(** [msg.split(']')[0].replace('[', '')] *)
Definition ruleOfMessage (msg : string) : string :=
  removeFirst "[" (default EmptyString (head (split_char "]" msg))).

(** What the walk finds on disk: a file with its content, or a directory
    with its entries in the order [readdirSync] lists them. *)
Inductive FsNode :=
  | FsFile (content : string)
  | FsDir (entries : list (string * FsNode)).

Definition skippedDirectories : list string :=
  ["node_modules"; "dist"; "build"; "target"; ".git"].

(** The body of the loop of [walkDir] for the entry [file] of [dir];
    [pathJoin] stands for [path.join]. *)
Fixpoint walkEntry (pathJoin : string -> string -> string) (dir file : string)
    (node : FsNode) {struct node} : list GuardrailViolation :=
  let fullPath := pathJoin dir file in
  match node with
  | FsDir entries =>
      (* Skip common non-source directories *)
      if negb (bool_decide (file ∈ skippedDirectories))
      then (fix walk (es : list (string * FsNode)) : list GuardrailViolation :=
              match es with
              | [] => []
              | (f, n) :: es' => walkEntry pathJoin fullPath f n ++ walk es'
              end) entries
      else []
  | FsFile content =>
      if isSourceFile file
      then map (fun msg => {| gv_rule := ruleOfMessage msg;
                             gv_message := msg;
                             gv_file := Some fullPath;
                             gv_line := None |})
               (validateFile content (inferLanguage file) (Some fullPath))
      else []
  end.

Definition walkDir (pathJoin : string -> string -> string) (dir : string)
    (entries : list (string * FsNode)) : list GuardrailViolation :=
  flat_map (fun e => walkEntry pathJoin dir e.1 e.2) entries.

(** Validate an entire directory: [root] is what stands at [dirPath], if
    anything; reading a file as a directory throws. *)
Definition validateDirectory (pathJoin : string -> string -> string)
    (dirPath : string) (root : option FsNode) : string + list GuardrailViolation :=
  match root with
  | None => inr []
  | Some (FsFile _) => inl "ENOTDIR"
  | Some (FsDir entries) => inr (walkDir pathJoin dirPath entries)
  end.

(** Every line of the text is a comment of the language. *)
Definition allComments (content language : string) : bool :=
  forallb (fun line => isComment line language) (split_char LF content).

(** ** The report *)

(** A JS [Map] with string keys, in insertion order: [get], and [set],
    which keeps the place of a key that is already there. *)
Fixpoint mapGet {V} (m : list (string * V)) (k : string) : option V :=
  match m with
  | [] => None
  | (k', v) :: m' => if decide (k' = k) then Some v else mapGet m' k
  end.

Fixpoint mapSet {V} (m : list (string * V)) (k : string) (v : V) : list (string * V) :=
  match m with
  | [] => [(k, v)]
  | (k', v') :: m' => if decide (k' = k) then (k, v) :: m' else (k', v') :: mapSet m' k v
  end.

(** [byRule.get(v.rule) || []; list.push(v); byRule.set(v.rule, list)]. *)
Definition byRule (violations : list GuardrailViolation)
    : list (string * list GuardrailViolation) :=
  foldl (fun m v =>
           let list := default [] (mapGet m (gv_rule v)) in
           mapSet m (gv_rule v) (list ++ [v]))
        [] violations.

Fixpoint repeatString (s : string) (n : nat) : string :=
  match n with
  | O => EmptyString
  | S n' => s +:+ repeatString s n'
  end.

Definition passedReport : string :=
  "
╔═══════════════════════════════════════════════════════════╗
║           ✓ GUARDRAILS CHECK PASSED                       ║
║                                                           ║
║   No violations detected.                                 ║
║   All code follows spec-driven development principles.    ║
╚═══════════════════════════════════════════════════════════╝
".

Definition failedReportHead : string :=
  "
╔═══════════════════════════════════════════════════════════╗
║           ✗ GUARDRAILS CHECK FAILED                       ║
║                                                           ║
║   ".

Definition failedReportTail : string :=
  " violation(s) detected.                           ║
╚═══════════════════════════════════════════════════════════╝

".

Definition fixAdvice : string :=
  "
╔═══════════════════════════════════════════════════════════╗
║   FIX: Remove direct HTTP calls and use the SDK instead.  ║
║   All API interactions must go through the generated SDK. ║
╚═══════════════════════════════════════════════════════════╝
".

(** [v.file || 'unknown']: the empty path is falsy too. *)
Definition fileOrUnknown (v : GuardrailViolation) : string :=
  if truthy (gv_file v) then default EmptyString (gv_file v) else "unknown".

Definition reportSection (report : string) (entry : string * list GuardrailViolation)
    : string :=
  let '(rule, vs) := entry in
  let report := report +:+ ConsumerGenerator.nl +:+ "[" +:+ rule +:+ "] - " +:+ pretty (length vs)
                +:+ " occurrence(s)" +:+ ConsumerGenerator.nl in
  let report := report +:+ repeatString "─" 50 +:+ ConsumerGenerator.nl in
  foldl (fun report v => report +:+ "  • " +:+ fileOrUnknown v +:+ ConsumerGenerator.nl) report vs.

(** Generate a guardrails report *)
Definition generateReport (violations : list GuardrailViolation) : string :=
  if bool_decide (length violations = 0%nat) then passedReport
  else
    let report := failedReportHead +:+ pretty (length violations) +:+ failedReportTail in
    let report := foldl reportSection report (byRule violations) in
    report +:+ fixAdvice.

End Guardrails.

(** ** The run of [spec implement]

    The command from the choice of the tasks on: the project root, the
    configuration and the plan are loaded, and the contract stays what it
    is during the run. The command holds the chosen tasks by reference:
    they are positions in the plan. *)

Module Implement.
Import JsString ConsumerGenerator Plan Guardrails.

(** The configuration as [loadConfig] gives it: [consumer.language] is a
    [string], which the command casts to the three languages unchecked. *)
Record SpecKitConfig := {
  cfg_openapi : string;
  cfg_consumer_language : string;
  cfg_consumer_outputDir : string;
  cfg_sdk_packageName : option string
}.

(** [tasks.find(p)], as a position. *)
Fixpoint findIndex (p : Task -> bool) (tasks : list Task) : option nat :=
  match tasks with
  | [] => None
  | t :: ts => if p t then Some 0%nat else S <$> findIndex p ts
  end.

(** [tasks.filter(p)], as positions. *)
Fixpoint filterIndices (p : Task -> bool) (tasks : list Task) : list nat :=
  match tasks with
  | [] => []
  | t :: ts =>
      if p t then 0%nat :: map S (filterIndices p ts) else map S (filterIndices p ts)
  end.

(** The positions of the tasks to implement, or the message of the error
    the command ends with. *)
Definition chosenTasks (options : ImplementOptions) (tasks : list Task)
    : string + list nat :=
  if truthy (opt_task options) then
    match findIndex (fun t => String.eqb (task_id t) (default EmptyString (opt_task options)))
                    tasks with
    | None => inl ("Task '" +:+ default EmptyString (opt_task options)
                   +:+ "' not found in plan")
    | Some i => inr [i]
    end
  else if opt_all options then inr (filterIndices isPending tasks)
  else
    match findIndex isPending tasks with
    | Some i => inr [i]
    | None => inr []
    end.

(** [task.status = status] *)
Definition setStatus (status : TaskStatus) (t : Task) : Task :=
  {| task_id := task_id t; task_title := task_title t;
     task_description := task_description t; task_status := status;
     task_operations := task_operations t |}.

(** What the loop over the tasks has done so far. *)
Record RunState := {
  run_tasks : list Task;
  run_writes : list FileWrite;
  run_violations : list string;
  run_failure : option Exception
}.

(** The body of the loop for the task at position [i]; nothing more is
    done once a generation has failed. *)
Definition implementTask (pathJoin : string -> string -> string)
    (this : ConsumerGenerator) (fs : gmap string YamlFile)
    (projectRoot : string) (config : SpecKitConfig) (dryRun : bool)
    (st : RunState) (i : nat) : RunState :=
  match run_failure st with
  | Some _ => st
  | None =>
      (* Update task status *)
      let tasks := alter (setStatus in_progress) i (run_tasks st) in
      match tasks !! i with
      | None => st
      | Some task =>
          (* Generate consumer code for task operations *)
          match generateForOperations this fs
                  {| specPath := pathJoin projectRoot (cfg_openapi config);
                     outputDir := pathJoin projectRoot (cfg_consumer_outputDir config);
                     language := cfg_consumer_language config;
                     opt_packageName := cfg_sdk_packageName config;
                     operations := Some (task_operations task) |} with
          | inl failure =>
              {| run_tasks := tasks; run_writes := run_writes st;
                 run_violations := run_violations st; run_failure := Some failure |}
          | inr (generatedCode, written) =>
              (* Validate guardrails *)
              let violations := validate generatedCode in
              if negb dryRun then
                {| run_tasks := alter (setStatus completed) i tasks;
                   run_writes :=
                     run_writes st ++ written
                     ++ map (fun '(filePath, content) =>
                               {| write_dir :=
                                    pathJoin projectRoot (cfg_consumer_outputDir config);
                                  write_file := filePath;
                                  write_content := content |})
                            generatedCode;
                   run_violations := run_violations st ++ violations;
                   run_failure := None |}
              else
                {| run_tasks := tasks; run_writes := run_writes st ++ written;
                   run_violations := run_violations st ++ violations;
                   run_failure := None |}
          end
      end
  end.

(** How the command ends. *)
Record ImplementResult := {
  exit_code : Z;
  saved_plan : option (list Task);
  files_written : list FileWrite;
  warned_violations : list string
}.

Definition implementPlan (pathJoin : string -> string -> string)
    (this : ConsumerGenerator) (fs : gmap string YamlFile)
    (projectRoot : string) (config : SpecKitConfig) (options : ImplementOptions)
    (tasks : list Task) : ImplementResult :=
  match chosenTasks options tasks with
  | inl _ =>
      {| exit_code := 1; saved_plan := None; files_written := []; warned_violations := [] |}
  | inr [] =>
      {| exit_code := 0; saved_plan := None; files_written := []; warned_violations := [] |}
  | inr chosen =>
      let final :=
        foldl (implementTask pathJoin this fs projectRoot config (opt_dryRun options))
              {| run_tasks := tasks; run_writes := []; run_violations := [];
                 run_failure := None |}
              chosen in
      match run_failure final with
      | Some _ =>
          {| exit_code := 1; saved_plan := None; files_written := run_writes final;
             warned_violations := run_violations final |}
      | None =>
          {| exit_code := 0;
             (* Save updated plan *)
             saved_plan := if negb (opt_dryRun options) then Some (run_tasks final) else None;
             files_written := run_writes final;
             warned_violations := run_violations final |}
      end
  end.

(** The status a task is left with, in memory, by a pass of the loop. *)
Definition statusAfter (dryRun : bool) : TaskStatus :=
  if dryRun then in_progress else completed.

(** The languages the generator has a case for. *)
Definition supportedLanguages : list string := ["java"; "typescript"; "python"].

(** The files a pass of the loop writes for one task: those of the
    language by the generator, and the same once more by the command unless
    the run is dry. *)
Definition writesPerTask (language : string) (dryRun : bool) : nat :=
  if dryRun then length (pathsOf language) else (2 * length (pathsOf language))%nat.

(** The configuration of the examples with a language the generator has no
    case for. *)
Definition goConfig : SpecKitConfig :=
  {| cfg_openapi := "openapi.yaml"; cfg_consumer_language := "go";
     cfg_consumer_outputDir := "consumer"; cfg_sdk_packageName := None |}.

(** A project for the examples: the pets contract at its usual place. *)
Definition slashJoin (a b : string) : string := a +:+ "/" +:+ b.

Definition petsProject : gmap string YamlFile :=
  {[ "proj/openapi.yaml" := Document (petsSpec None None None None None None) ]}.

Definition petsConfig : SpecKitConfig :=
  {| cfg_openapi := "openapi.yaml"; cfg_consumer_language := "java";
     cfg_consumer_outputDir := "consumer"; cfg_sdk_packageName := None |}.

Definition petsPlan : list Task :=
  [ {| task_id := "task-1"; task_title := "List pets";
       task_description := "Implement: list pets"; task_status := completed;
       task_operations := ["listPets"] |};
    {| task_id := "task-2"; task_title := "Create pets";
       task_description := "Implement: create pets"; task_status := pending;
       task_operations := ["createPet"] |} ].

End Implement.

(** * Properties *)

(** ** Strings *)

Section JsStringFacts.
Import JsString.

Lemma append_assoc (a b c : string) : (a +:+ b) +:+ c = a +:+ b +:+ c.
Proof.
  induction a as [|x a IH]; [done|].
  change (String x ((a +:+ b) +:+ c) = String x (a +:+ b +:+ c)). by rewrite IH.
Qed.

Lemma append_nil_r (a : string) : a +:+ EmptyString = a.
Proof.
  induction a as [|x a IH]; [done|].
  change (String x (a +:+ EmptyString) = String x a). by rewrite IH.
Qed.

Lemma length_append (a b : string) :
  String.length (a +:+ b) = (String.length a + String.length b)%nat.
Proof.
  induction a as [|x a IH]; [done|].
  change (S (String.length (a +:+ b)) = S (String.length a + String.length b)).
  by rewrite IH.
Qed.

Lemma append_empty (a b : string) : a +:+ b = EmptyString -> a = EmptyString /\ b = EmptyString.
Proof. destruct a; [done|discriminate]. Qed.





(** [s.startsWith(p)]: [s] is [p] followed by some text. *)
Lemma startsWith_spec (s p : string) :
  startsWith s p = true <-> exists post, s = p +:+ post.
Proof.
  unfold startsWith. revert s. induction p as [|c p IH]; intros s.
  - split; [intros _; by exists s|]. by destruct s.
  - destruct s as [|a s]; cbn [String.prefix].
    + split; [done|]. by intros [post ?].
    + destruct (Ascii.ascii_dec c a) as [->|Hne].
      * rewrite IH. split; intros [post H]; exists post.
        -- change (String a s = String a (p +:+ post)). by rewrite H.
        -- by injection H.
      * split; [done|]. intros [post H]. by injection H.
Qed.

(** [s.includes(sub)]: [sub] stands somewhere in [s]. *)
Lemma includes_spec (s sub : string) :
  includes s sub = true <-> exists pre post, s = pre +:+ sub +:+ post.
Proof.
  induction s as [|a s IH]; cbn [includes]; rewrite orb_true_iff.
  - split.
    + intros [Hp|]; [|done]. apply (startsWith_spec EmptyString sub) in Hp as [post H].
      by exists EmptyString, post.
    + intros (pre & post & H). left. apply (startsWith_spec EmptyString sub).
      symmetry in H. apply append_empty in H as [-> H]. exists post. by rewrite H.
  - split.
    + intros [Hp|(pre & post & ->)%IH].
      * apply (startsWith_spec (String a s) sub) in Hp as [post H].
        by exists EmptyString, post.
      * by exists (String a pre), post.
    + intros (pre & post & H). destruct pre as [|b pre].
      * left. apply (startsWith_spec (String a s) sub). by exists post.
      * right. injection H as <- ->. apply IH. by exists pre, post.
Qed.

Lemma append_cancel_l (a x y : string) : a +:+ x = a +:+ y -> x = y.
Proof.
  induction a as [|c a IH]; [done|]. intros H. apply IH. by injection H.
Qed.

Lemma append_cancel_r (x y s : string) : x +:+ s = y +:+ s -> x = y.
Proof.
  revert y. induction x as [|c x IH]; intros [|d y] H.
  - done.
  - exfalso. apply (f_equal String.length) in H.
    rewrite !length_append in H. cbn in H. lia.
  - exfalso. apply (f_equal String.length) in H.
    rewrite !length_append in H. cbn in H. lia.
  - injection H as -> H. f_equal. by apply IH.
Qed.

Lemma join_cons sep x (l : list string) :
  l <> [] -> join sep (x :: l) = x +:+ sep +:+ join sep l.
Proof. by destruct l. Qed.

Lemma join_snoc sep (l : list string) z :
  l <> [] -> join sep (l ++ [z]) = join sep l +:+ sep +:+ z.
Proof.
  induction l as [|x l IH]; [done|]. intros _.
  destruct l as [|y l]; [done|].
  change ((x :: y :: l) ++ [z]) with (x :: ((y :: l) ++ [z])).
  rewrite join_cons by done. rewrite IH by done.
  rewrite (join_cons sep x (y :: l)) by done. by rewrite !append_assoc.
Qed.

End JsStringFacts.

(** ** Loops that may throw *)

Section LoopFacts.

Lemma foldl_thrown {A S} (body : S -> A -> Exception + S) (l : list A) e :
  foldl (fun acc x => match acc with inl e => inl e | inr s => body s x end) (inl e) l
  = inl e.
Proof. induction l as [|x l IH]; [done|]. apply IH. Qed.

(** A loop whose passes throw on the elements that are [bad] and on no
    others throws when it meets one, and is a plain loop otherwise. *)
Lemma forOf_bad {A S} (bad : A -> bool) (g : S -> A -> S)
    (body : S -> A -> Exception + S) :
  (forall s x, body s x = if bad x then inl TypeError else inr (g s x)) ->
  forall l s, forOf l body s = if existsb bad l then inl TypeError else inr (foldl g s l).
Proof.
  intros Hbody l. unfold forOf. induction l as [|x l IH]; intros s; [done|].
  cbn [foldl existsb]. rewrite Hbody. destruct (bad x); cbn [orb].
  - apply foldl_thrown.
  - apply IH.
Qed.

(** The two loops over the paths and over the entries of a path item. *)
Lemma forOf_paths {S} (g : S -> string -> string -> PathEntry -> S)
    (body : S -> string -> string -> PathEntry -> Exception + S) spec s :
  (forall s pathKey method entry,
     body s pathKey method entry
     = if isNull entry then inl TypeError else inr (g s pathKey method entry)) ->
  forOf (default [] (paths spec))
    (fun s '(pathKey, pathItem) =>
       match objectEntries pathItem with
       | inl e => inl e
       | inr own => forOf own (fun s '(method, entry) => body s pathKey method entry) s
       end)
    s
  = if hasNull spec then inl TypeError
    else inr (foldl (fun s t => g s t.1.1 t.1.2 t.2) s (traversal spec)).
Proof.
  intros Hbody. unfold hasNull, traversal.
  rewrite (forOf_bad
             (fun p => match p.2 with
                       | None => true
                       | Some own => existsb (fun e => isNull e.2) own
                       end)
             (fun s p => foldl (fun s e => g s p.1 e.1 e.2) s (default [] p.2))).
  - destruct (existsb _ _); [done|]. f_equal.
    revert s. induction (default [] (paths spec)) as [|[pathKey pathItem] ps IH]; intros s.
    + done.
    + cbn [foldl mbind list_bind fst snd]. rewrite foldl_app, <- IH. f_equal.
      generalize (default [] pathItem). clear. intros own. revert s.
      induction own as [|[method e] es IHe]; intros s; [done|]. cbn. apply IHe.
  - intros s' [pathKey [own|]]; cbn [objectEntries fst snd default from_option id]; [|done].
    rewrite (forOf_bad (fun e => isNull e.2) (fun s e => g s pathKey e.1 e.2)).
    + done.
    + intros s'' [method entry]. apply Hbody.
Qed.

Lemma forOfPrinting_thrown {A} (body : list string -> A -> list string * option Exception)
    (l : list A) console e :
  foldl (fun '(console, thrown) x =>
           match thrown with
           | Some e => (console, Some e)
           | None => body console x
           end)
        (console, Some e) l
  = (console, Some e).
Proof. induction l as [|x l IH]; [done|]. apply IH. Qed.

(** A printing loop none of whose passes throws prints what its passes
    print, one after the other. *)
Lemma forOfPrinting_lines {A} (f : A -> list string)
    (body : list string -> A -> list string * option Exception) (l : list A) :
  (forall console x, In x l -> body console x = (console ++ f x, None)) ->
  forall console, forOfPrinting l body console = (console ++ flat_map f l, None).
Proof.
  unfold forOfPrinting. induction l as [|x l IH]; intros Hbody console.
  - cbn. by rewrite app_nil_r.
  - cbn [foldl flat_map]. rewrite Hbody by (by left).
    rewrite IH by (intros c y Hy; apply Hbody; by right). by rewrite app_assoc.
Qed.

End LoopFacts.

(** ** The planner *)

Section PlanFacts.
Import JsString Plan.

(** The loops as one pass over the traversal. *)

Lemma pushUnique_idem id acc : pushUnique id (pushUnique id acc) = pushUnique id acc.
Proof.
  unfold pushUnique. destruct (bool_decide (id ∈ acc)) eqn:E.
  - by rewrite E.
  - rewrite bool_decide_eq_true_2; [done | set_solver].
Qed.

Lemma visit_selects ws acts acc pathKey method entry :
  visit ws acts acc pathKey method entry
  = if isNull entry then inl TypeError
    else inr match selects ws acts (pathKey, method, entry) with
             | Some id => pushUnique id acc
             | None => acc
             end.
Proof.
  unfold visit, selects. destruct entry as [| |op]; [done|done|].
  cbn [guard isNull fst snd]. destruct (usable (OperationObject op)) as [[id op']|]; [|done].
  cbn [mbind option_bind].
  destruct (entityMatch _ _ _ _ _ && _), (idMatch _ _); simpl; f_equal;
    auto using pushUnique_idem.
Qed.

Lemma findMatchingOperations_traversal ws acts spec :
  findMatchingOperations ws acts spec
  = if hasNull spec then inl TypeError
    else inr (foldl (fun acc t => match selects ws acts t with
                                  | Some id => pushUnique id acc
                                  | None => acc
                                  end)
                    [] (traversal spec)).
Proof.
  unfold findMatchingOperations.
  rewrite (forOf_paths
             (fun acc pathKey method entry =>
                match selects ws acts (pathKey, method, entry) with
                | Some id => pushUnique id acc
                | None => acc
                end)
             (fun acc pathKey method entry => visit ws acts acc pathKey method entry))
    by apply visit_selects.
  by destruct (hasNull spec).
Qed.

Lemma filter_not_in_snoc (acc l : list string) x :
  filter (fun y => y ∉ acc ++ [x]) l = filter (fun y => y ∉ acc) (filter (fun y => y ≠ x) l).
Proof.
  rewrite list_filter_filter. apply list_filter_iff. intros y.
  rewrite elem_of_app, list_elem_of_singleton. tauto.
Qed.

Lemma foldl_pushUnique ids : forall acc,
  foldl (fun acc id => pushUnique id acc) acc ids
  = acc ++ filter (fun y => y ∉ acc) (first_seen ids).
Proof.
  induction ids as [|x ids IH]; intros acc; simpl.
  - by rewrite filter_nil, app_nil_r.
  - rewrite IH. unfold pushUnique. case_bool_decide as Hx.
    + rewrite filter_cons_False by (intros ?; contradiction).
      f_equal. rewrite list_filter_filter. apply list_filter_iff.
      intros y. naive_solver.
    + rewrite filter_cons_True by done.
      rewrite <- app_assoc. simpl. by rewrite filter_not_in_snoc.
Qed.

Lemma first_seen_elem (l : list string) x : x ∈ first_seen l <-> x ∈ l.
Proof.
  induction l as [|y l IH]; simpl; [done|].
  rewrite !elem_of_cons, list_elem_of_filter, IH.
  destruct (decide (x = y)); naive_solver.
Qed.

Lemma first_seen_NoDup (l : list string) : NoDup (first_seen l).
Proof.
  induction l as [|y l IH]; simpl; [constructor|].
  constructor.
  - rewrite list_elem_of_filter. naive_solver.
  - by apply NoDup_filter.
Qed.

Lemma first_seen_nil (l : list string) : first_seen l = [] <-> l = [].
Proof. destruct l; simpl; split; congruence. Qed.

(** The list the two loops build: the selected ids, first occurrence kept,
    in traversal order. *)
Lemma findMatchingOperations_first_seen ws acts spec :
  findMatchingOperations ws acts spec
  = if hasNull spec then inl TypeError
    else inr (first_seen (omap (selects ws acts) (traversal spec))).
Proof.
  rewrite findMatchingOperations_traversal. destruct (hasNull spec); [done|]. f_equal.
  transitivity (foldl (fun acc id => pushUnique id acc) []
                      (omap (selects ws acts) (traversal spec))).
  - generalize (@nil string) as acc.
    induction (traversal spec) as [|[[p m] e] ts IH]; intros acc; [done|].
    simpl. destruct (selects ws acts (p, m, e)); simpl; apply IH.
  - rewrite foldl_pushUnique. simpl.
    induction (first_seen _) as [|y l IHl]; [done|].
    rewrite filter_cons_True by apply not_elem_of_nil. by rewrite IHl.
Qed.

(** The task of a selection. *)
Lemma analyze_operations now intent spec :
  analyzeIntentAndCreateTasks now intent spec
  = if hasNull spec then inl TypeError
    else inr match first_seen (matchedIds intent spec) with
             | [] => []
             | ops => [ {| task_id := "task-" +:+ pretty now;
                           task_title := extractTaskTitle intent;
                           task_description := "Implement: " +:+ intent;
                           task_status := pending;
                           task_operations := ops |} ]
             end.
Proof.
  unfold analyzeIntentAndCreateTasks, matchedIds.
  rewrite findMatchingOperations_first_seen. destruct (hasNull spec); [done|].
  by destruct (first_seen _).
Qed.


(** The selection read on the entries the guard lets through. *)
Lemma matchedIds_wellFormed intent spec :
  matchedIds intent spec
  = omap (fun w =>
            if (entityMatch (split_ws (toLowerCase intent)) (toLowerCase w.1.2)
                  (toLowerCase w.1.1.1)
                  (toLowerCase (or_else (op_summary w.2) EmptyString))
                  (map toLowerCase (default [] (op_tags w.2)))
                && (actionMatch (matchedActions (toLowerCase intent)) w.1.1.2 w.1.1.1
                    || (size (matchedActions (toLowerCase intent)) =? 0)%nat))
               || idMatch (split_ws (toLowerCase intent)) (toLowerCase w.1.2)
            then Some w.1.2 else None)
         (ConsumerGenerator.wellFormed spec).
Proof.
  unfold matchedIds, ConsumerGenerator.wellFormed.
  induction (traversal spec) as [|[[p m] e] ts IH]; [done|].
  cbn [omap list_omap]. rewrite IH. unfold selects at 1. cbn [fst snd].
  destruct (usable e) as [[id op]|]; cbn [mbind option_bind omap list_omap fst snd];
    [|done].
  match goal with |- context [if ?b then Some id else None] => by destruct b end.
Qed.

Lemma petsOperations_selected o1 o2 o3 :
  omap (fun w : string * string * string * Operation =>
          if (entityMatch (split_ws (toLowerCase "create and list all pets"))
                (toLowerCase w.1.2) (toLowerCase w.1.1.1)
                (toLowerCase (or_else (op_summary w.2) EmptyString))
                (map toLowerCase (default [] (op_tags w.2)))
              && (actionMatch (matchedActions (toLowerCase "create and list all pets"))
                    w.1.1.2 w.1.1.1
                  || (size (matchedActions (toLowerCase "create and list all pets")) =? 0)%nat))
             || idMatch (split_ws (toLowerCase "create and list all pets")) (toLowerCase w.1.2)
          then Some w.1.2 else None)
       (petsOperations o1 o2 o3)
  = ["listPets"; "createPet"].
Proof.
  unfold petsOperations. cbn [omap list_omap fst snd].
  set (ws := split_ws _). set (acts := matchedActions _).
  assert (idMatch ws (toLowerCase "listPets") = true) as -> by (vm_compute; reflexivity).
  assert (idMatch ws (toLowerCase "createPet") = true) as -> by (vm_compute; reflexivity).
  assert (idMatch ws (toLowerCase "getPet") = false) as -> by (vm_compute; reflexivity).
  assert (actionMatch acts "get" "/pets/{id}" || (size acts =? 0)%nat = false) as ->
    by (vm_compute; reflexivity).
  by rewrite !orb_true_r, andb_false_r.
Qed.

(** C5: for a contract whose operations are exactly listPets (GET /pets),
    createPet (POST /pets) and getPet (GET /pets/{id}), whatever they hold
    (summaries, tags, parameters, bodies, responses), in whatever order the
    document lists them and whatever keys that are not operations stand
    beside them, planning with the intent "create and list all pets" gives
    one task whose operations are createPet and listPets, each once, and
    not getPet. *)
Theorem plan_create_and_list_pets now spec listPets createPet getPet :
  hasNull spec = false ->
  ConsumerGenerator.wellFormed spec ≡ₚ petsOperations listPets createPet getPet ->
  exists t,
    analyzeIntentAndCreateTasks now "create and list all pets" spec = inr [t]
    /\ NoDup (task_operations t)
    /\ (forall id, id ∈ task_operations t <-> id = "createPet" \/ id = "listPets")
    /\ "getPet" ∉ task_operations t.
Proof.
  intros Hnull Hperm. rewrite analyze_operations, Hnull.
  assert (matchedIds "create and list all pets" spec ≡ₚ ["listPets"; "createPet"]) as Hm.
  { rewrite matchedIds_wellFormed, Hperm. by rewrite petsOperations_selected. }
  assert (forall id, id ∈ first_seen (matchedIds "create and list all pets" spec)
                     <-> id = "createPet" \/ id = "listPets") as Hin.
  { intros id. rewrite first_seen_elem, Hm, !elem_of_cons, elem_of_nil. tauto. }
  pose proof (first_seen_NoDup (matchedIds "create and list all pets" spec)) as Hnd.
  destruct (first_seen _) as [|x ops] eqn:E.
  - exfalso. destruct (Hin "listPets") as [_ H]. apply (not_elem_of_nil "listPets"), H. by right.
  - eexists; split; [reflexivity|]. simpl. repeat split; try done; try apply Hin.
    intros H%Hin. by destruct H.
Qed.

Lemma plan_create_and_list_pets_witness :
  exists t,
    analyzeIntentAndCreateTasks 1730000000000 "create and list all pets" petStore = inr [t]
    /\ NoDup (task_operations t)
    /\ (forall id, id ∈ task_operations t <-> id = "createPet" \/ id = "listPets")
    /\ "getPet" ∉ task_operations t.
Proof.
  eapply (plan_create_and_list_pets _ petStore).
  - reflexivity.
  - unfold petsOperations. cbn.
    etransitivity; [apply Permutation_swap|].
    etransitivity; [apply Permutation_skip, Permutation_swap|].
    apply Permutation_swap.
Defined.

(** C6: the planner returns at most one task. It returns none exactly when
    no operation is selected; otherwise it returns one task, pending, whose
    operations are the selected ids in traversal order with the first
    occurrence of each kept. The intent "launch rockets" selects nothing in
    the pets contract. The planner returns whenever no path item and no
    entry of the document is null. *)
Theorem plan_one_task_or_none now intent spec :
  match analyzeIntentAndCreateTasks now intent spec with
  | inl thrown => thrown = TypeError /\ hasNull spec = true
  | inr tasks =>
      hasNull spec = false
      /\ (length tasks <= 1)%nat
      /\ (tasks = [] <-> matchedIds intent spec = [])
      /\ match matchedIds intent spec with
         | [] => tasks = []
         | _ :: _ =>
             exists t, tasks = [t]
               /\ task_status t = pending
               /\ task_operations t = first_seen (matchedIds intent spec)
               /\ NoDup (task_operations t)
               /\ (forall id, id ∈ task_operations t <-> id ∈ matchedIds intent spec)
         end
  end
  /\ analyzeIntentAndCreateTasks now "launch rockets"
       (petsSpec None None None None None None) = inr [].
Proof.
  rewrite analyze_operations.
  pose proof (first_seen_NoDup (matchedIds intent spec)) as Hnd.
  pose proof (first_seen_elem (matchedIds intent spec)) as Hin.
  pose proof (first_seen_nil (matchedIds intent spec)) as Hnil.
  split.
  - destruct (hasNull spec); [done|]. split; [done|]. split; [|split].
    + destruct (first_seen _); simpl; lia.
    + rewrite <- Hnil. destruct (first_seen _); split; congruence.
    + destruct (matchedIds intent spec) as [|x l] eqn:E; [done|].
      destruct (first_seen (x :: l)) as [|y ops] eqn:F; [discriminate|].
      eexists; split; [reflexivity|]. simpl. repeat split; try done; apply Hin.
  - rewrite analyze_operations. vm_compute. reflexivity.
Qed.

End PlanFacts.

(** ** Extraction *)

Section ExtractionFacts.
Import JsString ConsumerGenerator.

Lemma foldl_snoc_flat_map {A B} (g : list B -> A -> list B) (f : A -> list B) :
  (forall acc x, g acc x = acc ++ f x) ->
  forall l acc, foldl g acc l = acc ++ flat_map f l.
Proof.
  intros Hg l. induction l as [|x l IH]; intros acc; simpl.
  - by rewrite app_nil_r.
  - by rewrite IH, Hg, <- app_assoc.
Qed.

Lemma flat_map_bind {A B C} (g : B -> list C) (h : A -> list B) (l : list A) :
  flat_map g (l ≫= h) = flat_map (fun x => flat_map g (h x)) l.
Proof.
  induction l as [|x l IH]; [done|]. cbn. by rewrite flat_map_app, IH.
Qed.

(** The two loops as one pass over the traversal; a null stops them. *)
Lemma extractOperations_traversal spec f :
  extractOperations spec f
  = if hasNull spec then inl TypeError
    else inr (flat_map (extracted f) (traversal spec)).
Proof.
  unfold extractOperations.
  etransitivity.
  - apply (forOf_paths
             (fun operations pathKey method entry =>
                operations ++ extracted f (pathKey, method, entry))).
    intros operations pathKey method entry. unfold extracted. cbn [fst snd].
    destruct entry as [| |op]; cbn [guard isNull usable]; [done|by rewrite app_nil_r|].
    destruct (operationId op) as [[|c id]|]; rewrite ?app_nil_r; try done.
    by destruct (filteredOut f (String c id)); rewrite ?app_nil_r.
  - destruct (hasNull spec); [done|]. f_equal.
    by rewrite (foldl_snoc_flat_map _ (extracted f)).
Qed.

Lemma extracted_wellFormed f ts :
  flat_map (extracted f) ts
  = map describeEntry
      (List.filter (fun w => negb (filteredOut f w.1.2))
         (omap (fun t => '(id, op) ← usable t.2; Some (t.1.1, t.1.2, id, op)) ts)).
Proof.
  induction ts as [|[[p m] e] ts IH]; [done|].
  cbn. unfold extracted at 1. cbn.
  destruct (usable e) as [[id op]|]; cbn; [|done].
  destruct (filteredOut f id); cbn; by rewrite IH.
Qed.

Lemma extractOperations_wellFormed spec f :
  extractOperations spec f
  = if hasNull spec then inl TypeError
    else inr (map describeEntry
                (List.filter (fun w => negb (filteredOut f w.1.2)) (wellFormed spec))).
Proof. by rewrite extractOperations_traversal, extracted_wellFormed. Qed.

(** What extraction returns, when it returns. *)
Lemma extractOperations_returns spec f ops :
  extractOperations spec f = inr ops ->
  hasNull spec = false
  /\ ops = map describeEntry
             (List.filter (fun w => negb (filteredOut f w.1.2)) (wellFormed spec)).
Proof.
  rewrite extractOperations_wellFormed. destruct (hasNull spec); [done|].
  by intros [= <-].
Qed.

(** On a null path item or a null entry the loop guard throws, whatever the
    filter and whatever stands before or after in the document. *)
Lemma extractOperations_null spec f :
  hasNull spec = true -> extractOperations spec f = inl TypeError.
Proof. intros H. by rewrite extractOperations_traversal, H. Qed.

Lemma length_filter_member (sel ids : list string) :
  NoDup ids ->
  length (List.filter (fun id => bool_decide (id ∈ sel)) ids)
  = size (list_to_set sel ∩ list_to_set ids : gset string).
Proof.
  induction 1 as [|x ids Hx Hnd IH]; cbn.
  - by rewrite intersection_empty_r_L, size_empty.
  - case_bool_decide as Hin; cbn.
    + rewrite IH.
      replace (list_to_set sel ∩ ({[x]} ∪ list_to_set ids) : gset string)
        with ({[x]} ∪ (list_to_set sel ∩ list_to_set ids) : gset string)
        by (apply set_eq; intros y; set_solver).
      rewrite (size_union (C := gset string) {[x]}) by set_solver.
      by rewrite size_singleton.
    + rewrite IH. f_equal. apply set_eq. intros y. set_solver.
Qed.

(** C3, counterexample: no fixed order of the verbs is followed. Two
    documents list GET and POST of one path in opposite orders, and the
    descriptors come out in opposite orders. *)
Lemma extract_no_canonical_verb_order :
  ~ exists rank : string -> nat,
      forall spec ops, extractOperations spec None = inr ops -> VerbsRanked rank ops.
Proof.
  intros [rank H].
  assert (rank "GET" < rank "POST")%nat as H1.
  { apply (H getFirst _ eq_refl 0%nat 1%nat
             (describe "/pets" "get" "listPets" (petOperation "listPets"))
             (describe "/pets" "post" "createPet" (petOperation "createPet")));
      [lia | reflexivity..]. }
  assert (rank "POST" < rank "GET")%nat as H2.
  { apply (H postFirst _ eq_refl 0%nat 1%nat
             (describe "/pets" "post" "createPet" (petOperation "createPet"))
             (describe "/pets" "get" "listPets" (petOperation "listPets")));
      [lia | reflexivity..]. }
  lia.
Qed.

(** C3, as amended: on a document none of whose path items and entries is
    null, extraction returns one descriptor for each entry that is an
    object with a non-empty operation id, in the order the document lists
    the path items and, inside a path item, in the order the path item
    lists its keys; the other entries are skipped. With a filter it returns
    the descriptors of the entries whose id is in the filter, in that same
    order, and, when the ids of the document are distinct, as many as there
    are ids both in the filter and in the document. *)
Theorem extractOperations_document_order spec (sel : list string) :
  hasNull spec = false ->
  exists all selected,
    extractOperations spec None = inr all
    /\ all = map describeEntry (wellFormed spec)
    /\ length all = length (wellFormed spec)
    /\ map ctx_operationId all = operationIds spec
    /\ extractOperations spec (Some sel) = inr selected
    /\ selected
       = map describeEntry
           (List.filter (fun w => bool_decide (w.1.2 ∈ sel)) (wellFormed spec))
    /\ (NoDup (operationIds spec) ->
        length selected
        = size (list_to_set sel ∩ list_to_set (operationIds spec) : gset string))
    /\ sum_map id (map ctx_method) (extractOperations postFirst None) = inr ["POST"; "GET"]
    /\ sum_map id (map ctx_operationId) (extractOperations mixedSpec None)
       = inr ["createPet"; "listPets"; "getPet"; "deletePet"].
Proof.
  intros Hnull. rewrite !extractOperations_wellFormed, Hnull.
  eexists _, _. split; [reflexivity|].
  assert (List.filter (fun w : string * string * string * Operation =>
                         negb (filteredOut None w.1.2)) (wellFormed spec)
          = wellFormed spec) as ->
    by (apply forallb_filter_id, forallb_forall; done).
  split; [done|]. split; [by rewrite length_map|].
  split; [unfold operationIds; by rewrite map_map|].
  split; [reflexivity|].
  assert (List.filter (fun w : string * string * string * Operation =>
                         negb (filteredOut (Some sel) w.1.2)) (wellFormed spec)
          = List.filter (fun w => bool_decide (w.1.2 ∈ sel)) (wellFormed spec)) as ->
    by (apply List.filter_ext; intros w; cbn; by rewrite negb_involutive).
  split; [done|]. split; [|split; reflexivity].
  intros Hnd. rewrite length_map, <- length_filter_member by done.
  unfold operationIds. clear.
  induction (wellFormed spec) as [|w ws IH]; [done|]. cbn.
  destruct (bool_decide (w.1.2 ∈ sel)); cbn; by rewrite IH.
Qed.

Lemma extractOperations_document_order_witness :
  exists selected,
    extractOperations mixedSpec (Some ["getPet"; "createPet"; "other"]) = inr selected
    /\ map ctx_operationId selected = ["createPet"; "getPet"]
    /\ length selected
       = size (list_to_set ["getPet"; "createPet"; "other"]
               ∩ list_to_set (operationIds mixedSpec) : gset string).
Proof.
  destruct (extractOperations_document_order mixedSpec ["getPet"; "createPet"; "other"]
              eq_refl)
    as (all & selected & _ & _ & _ & _ & Hsel & Hdesc & Hcount & _).
  exists selected. split; [exact Hsel|]. split; [by rewrite Hdesc|].
  apply Hcount. apply (bool_decide_unpack (NoDup (operationIds mixedSpec))).
  vm_compute. exact I.
Defined.

(** ** Return type *)

(** A split is one piece without separator, or ends with what follows the
    last separator. *)
Lemma split_char_cases c s :
  (Regex.occurs c s = false /\ split_char c s = [s])
  \/ (exists pre seg w ws,
        s = pre +:+ String c seg /\ Regex.occurs c seg = false
        /\ split_char c s = w :: ws /\ last ws = Some seg).
Proof.
  induction s as [|a s IH].
  - by left.
  - cbn [split_char Regex.occurs]. destruct (Ascii.eqb a c) eqn:E.
    + apply Ascii.eqb_eq in E as ->. right.
      destruct IH as [[Hocc Hsplit]|(pre & seg & w & ws & Hs & Hocc & Hsplit & Hlast)].
      * exists EmptyString, s, EmptyString, [s]. by rewrite Hsplit.
      * exists (String c pre), seg, EmptyString, (w :: ws).
        rewrite Hsplit, Hs. repeat split; [done|].
        destruct ws; [discriminate | done].
    + destruct IH as [[Hocc Hsplit]|(pre & seg & w & ws & Hs & Hocc & Hsplit & Hlast)].
      * left. by rewrite Hsplit, Hocc.
      * right. exists (String a pre), seg, (String a w), ws.
        by rewrite Hsplit, Hs.
Qed.

(** [s.split(c).pop()]: the text after the last [c] of [s], all of [s]
    when it has none. *)
Lemma pop_split_char c s :
  exists seg,
    pop (split_char c s) = Some seg
    /\ Regex.occurs c seg = false
    /\ (s = seg \/ exists pre, s = pre +:+ String c seg).
Proof.
  unfold pop.
  destruct (split_char_cases c s)
    as [[Hocc Hsplit]|(pre & seg & w & ws & Hs & Hocc & Hsplit & Hlast)].
  - exists s. rewrite Hsplit. auto.
  - exists seg. rewrite Hsplit. repeat split; [|done|eauto].
    destruct ws; [discriminate | done].
Qed.

Lemma inferReturnType_selected op :
  inferReturnType op
  = match selectedResponse op with
    | None => "void"
    | Some r =>
        match response_content r with
        | None => "void"
        | Some content => default "Object" (namedSchema content)
        end
    end.
Proof.
  unfold inferReturnType, selectedResponse, namedSchema, pop.
  destruct (op_responses op !! "200") as [r|]; [|destruct (op_responses op !! "201") as [r|]];
    try done;
    (destruct (response_content r) as [content|]; [|done];
     destruct (content !! "application/json") as [json|]; [|done]; cbn;
     destruct (media_schema json) as [schema|]; [|done]; cbn;
     destruct (schema_ref schema) as [[|a ref]|]; try done; cbn;
     destruct (last _) as [[|b seg]|]; done).
Qed.

Lemma namedSchema_trailing content name :
  namedSchema content = Some name ->
  exists json schema ref,
    content !! "application/json" = Some json
    /\ media_schema json = Some schema
    /\ schema_ref schema = Some ref
    /\ Regex.occurs "/" name = false
    /\ (ref = name \/ exists pre, ref = pre +:+ String "/" name).
Proof.
  unfold namedSchema, mbind, option_bind. intros H.
  destruct (content !! "application/json") as [json|] eqn:Hjson; [|done].
  destruct (media_schema json) as [schema|] eqn:Hschema; [|done].
  destruct (schema_ref schema) as [ref|] eqn:Href; [|done].
  exists json, schema, ref.
  destruct (pop_split_char "/" ref) as (seg & Hpop & Hocc & Hs). unfold pop in Hpop.
  destruct ref as [|a ref]; [done|]. rewrite Hpop in H.
  destruct seg as [|b seg]; [done|]. injection H as <-. done.
Qed.

(** C4, counterexample: a 200 response whose only body is plain text
    declares no JSON body, and the return type is the generic object, not
    [void]. *)
Lemma returnType_without_json_body_not_void :
  ~ (forall op, hasJsonBody op = false -> inferReturnType op = "void").
Proof.
  intros H.
  assert (hasJsonBody textOnly = false) as Hno by (vm_compute; reflexivity).
  apply H in Hno. vm_compute in Hno. discriminate.
Qed.

(** C4, as amended: the return type is read from the response of status
    200 when there is one and from that of status 201 otherwise, and from
    nothing else. It is [void] when that response is missing or declares
    no content; when it declares content, it is the text after the last
    slash of the [$ref] of the JSON schema if there is such a text, and the
    generic object otherwise. *)
Theorem inferReturnType_resolution op op' :
  op_responses op' !! "200" = op_responses op !! "200" ->
  op_responses op' !! "201" = op_responses op !! "201" ->
  inferReturnType op' = inferReturnType op
  /\ inferReturnType op
     = match selectedResponse op with
       | None => "void"
       | Some r =>
           match response_content r with
           | None => "void"
           | Some content => default "Object" (namedSchema content)
           end
       end
  /\ (forall content name,
        namedSchema content = Some name ->
        exists json schema ref,
          content !! "application/json" = Some json
          /\ media_schema json = Some schema
          /\ schema_ref schema = Some ref
          /\ Regex.occurs "/" name = false
          /\ (ref = name \/ exists pre, ref = pre +:+ String "/" name)).
Proof.
  intros H200 H201. split; [|split].
  - rewrite !inferReturnType_selected. unfold selectedResponse. by rewrite H200, H201.
  - apply inferReturnType_selected.
  - apply namedSchema_trailing.
Qed.

Lemma inferReturnType_resolution_witness :
  inferReturnType createdPet = "void"
  /\ inferReturnType jsonPet = "Pet"
  /\ inferReturnType textOnly = "Object"
  /\ inferReturnType noContent = "void".
Proof.
  destruct (inferReturnType_resolution createdPet createdPet eq_refl eq_refl) as (_ & H1 & _).
  destruct (inferReturnType_resolution jsonPet jsonPet eq_refl eq_refl) as (_ & H2 & _).
  destruct (inferReturnType_resolution textOnly textOnly eq_refl eq_refl) as (_ & H3 & _).
  destruct (inferReturnType_resolution noContent noContent eq_refl eq_refl) as (_ & H4 & _).
  rewrite H1, H2, H3, H4. repeat split; vm_compute; reflexivity.
Defined.

(** ** Generation *)

(** C9: when the operations extracted from the contract, with the filter of
    the options or without a filter, are none, generation ends with the
    error "No operations found in the spec": the call returns no file map
    and writes no file. *)
Theorem generateForOperations_no_operations this fs options spec :
  fs !! specPath options = Some (Document spec) ->
  extractOperations spec (operations options) = inr [] ->
  generateForOperations this fs options = inl (Error "No operations found in the spec").
Proof.
  intros Hfile Hnone. unfold generateForOperations. by rewrite Hfile, Hnone.
Qed.

Lemma generateForOperations_no_operations_witness :
  generateForOperations constructor {[ "openapi.yaml" := Document mixedSpec ]}
    {| specPath := "openapi.yaml"; outputDir := "consumer"; language := "java";
       opt_packageName := None; operations := Some ["launchRocket"] |}
  = inl (Error "No operations found in the spec").
Proof.
  apply (generateForOperations_no_operations _ _ _ mixedSpec).
  - vm_compute. reflexivity.
  - vm_compute. reflexivity.
Defined.

(** A file map is returned only for a contract with an operation to emit. *)
Lemma generateForOperations_files this fs options files writes :
  generateForOperations this fs options = inr (files, writes) ->
  exists spec ops,
    fs !! specPath options = Some (Document spec)
    /\ extractOperations spec (operations options) = inr ops
    /\ ops <> []
    /\ files = generateForLanguage this (language options) ops
                 {| packageName := or_else (opt_packageName options) "com.example.client";
                    apiClassName := deriveApiClassName (info_title spec) |}.
Proof.
  unfold generateForOperations. intros H.
  destruct (fs !! specPath options) as [[d|spec]|]; try discriminate.
  destruct (extractOperations spec (operations options)) as [e|ops] eqn:E; [discriminate|].
  exists spec, ops. split; [done|]. split; [done|].
  destruct ops as [|o os]; [discriminate|].
  cbn in H. split; [done|]. by injection H as <- _.
Qed.

(** The paths of the file map are fixed by the language. *)
Lemma files_of_language this language operations context :
  map fst (generateForLanguage this language operations context) = pathsOf language.
Proof.
  unfold generateForLanguage, pathsOf.
  destruct (String.eqb language "java"); [done|].
  destruct (String.eqb language "typescript"); [done|].
  by destruct (String.eqb language "python").
Qed.

Lemma readBy_other language op :
  String.eqb language "java" = false ->
  readBy language op
  = {| ctx_operationId := ctx_operationId op; ctx_method := ctx_method op;
       ctx_path := ctx_path op; ctx_summary := ctx_summary op;
       hasBody := false; hasParams := false;
       params := map (fun p => {| p_name := p_name p; p_type := p_type p;
                                  p_in := EmptyString |})
                     (params op);
       returnType := returnType op |}.
Proof. intros H. unfold readBy. by rewrite H. Qed.

(** The emitters of Java on descriptors and on what they read of them. *)
Lemma java_reads ops ctx ctx' :
  generateJavaApplication ops ctx = generateJavaApplication (map (readBy "java") ops) ctx'
  /\ generateJavaService ops ctx = generateJavaService (map (readBy "java") ops) ctx'
  /\ generateJavaPom ctx = generateJavaPom ctx'.
Proof.
  unfold generateJavaApplication, generateJavaService. rewrite !map_map.
  split; [reflexivity|]. split; reflexivity.
Qed.

Lemma typeScript_reads ops ctx ctx' :
  apiClassName ctx = apiClassName ctx' ->
  generateTypeScriptIndex ops ctx
  = generateTypeScriptIndex (map (readBy "typescript") ops) ctx'
  /\ generateTypeScriptService ops ctx
     = generateTypeScriptService (map (readBy "typescript") ops) ctx'
  /\ generateTypeScriptPackage ctx = generateTypeScriptPackage ctx'.
Proof.
  intros Hctx. unfold generateTypeScriptIndex, generateTypeScriptService.
  rewrite !map_map, Hctx. split; [reflexivity|]. split; [|reflexivity].
  do 2 f_equal. apply map_ext. intros op.
  rewrite (readBy_other "typescript" op eq_refl).
  cbn [ctx_operationId ctx_method ctx_path ctx_summary params returnType].
  by rewrite !map_map.
Qed.

Lemma python_reads ops ctx ctx' :
  apiClassName ctx = apiClassName ctx' ->
  generatePythonMain ops ctx = generatePythonMain (map (readBy "python") ops) ctx'
  /\ generatePythonService ops ctx
     = generatePythonService (map (readBy "python") ops) ctx'.
Proof.
  intros Hctx. unfold generatePythonMain, generatePythonService.
  rewrite !map_map, Hctx. split; [reflexivity|].
  do 2 f_equal. apply map_ext. intros op.
  rewrite (readBy_other "python" op eq_refl).
  cbn [ctx_operationId ctx_method ctx_path ctx_summary params returnType].
  by rewrite !map_map.
Qed.

(** C8: emission is a function of the operations, the target language and
    the context, and of no more than what the emitters of the language read
    of them: two calls, on any generator objects, whose languages are the
    same, whose operations agree on what is read and whose contexts agree on
    the API class name where it is read, return the same file map, paths and
    contents. Two calls with the same three arguments are such calls. The
    paths of the map are fixed by the language, and distinct. *)
Theorem generateForLanguage_deterministic this this' language
    operations operations' context context' :
  map (readBy language) operations = map (readBy language) operations' ->
  (language <> "java" -> apiClassName context = apiClassName context') ->
  generateForLanguage this language operations context
  = generateForLanguage this' language operations' context'
  /\ map fst (generateForLanguage this language operations context) = pathsOf language
  /\ NoDup (map fst (generateForLanguage this language operations context)).
Proof.
  intros Hops Hctx. split; [|split; [apply files_of_language|]].
  - unfold generateForLanguage.
    destruct (String.eqb language "java") eqn:Ej.
    { apply String.eqb_eq in Ej as ->.
      destruct (java_reads operations context context') as (-> & -> & ->).
      destruct (java_reads operations' context' context') as (H1 & H2 & _).
      by rewrite H1, H2, Hops. }
    assert (apiClassName context = apiClassName context') as Hapi.
    { apply Hctx. intros ->. discriminate. }
    destruct (String.eqb language "typescript") eqn:Et.
    { apply String.eqb_eq in Et as ->.
      destruct (typeScript_reads operations context context' Hapi) as (-> & -> & ->).
      destruct (typeScript_reads operations' context' context' eq_refl) as (H1 & H2 & _).
      by rewrite H1, H2, Hops. }
    destruct (String.eqb language "python") eqn:Ep; [|done].
    apply String.eqb_eq in Ep as ->.
    destruct (python_reads operations context context' Hapi) as (-> & ->).
    destruct (python_reads operations' context' context' eq_refl) as (H1 & H2).
    by rewrite H1, H2, Hops.
  - rewrite files_of_language. unfold pathsOf.
    destruct (String.eqb language "java");
      [apply (bool_decide_unpack _); vm_compute; exact I|].
    destruct (String.eqb language "typescript");
      [apply (bool_decide_unpack _); vm_compute; exact I|].
    destruct (String.eqb language "python");
      [apply (bool_decide_unpack _); vm_compute; exact I|constructor].
Qed.

Lemma generateForLanguage_deterministic_witness :
  generateForLanguage constructor "python" [findByStatus]
    {| packageName := "com.example.client"; apiClassName := "Pets" |}
  = generateForLanguage constructor "python" [findByStatus']
      {| packageName := "org.example"; apiClassName := "Pets" |}.
Proof.
  apply (generateForLanguage_deterministic constructor constructor "python"
           [findByStatus] [findByStatus']
           {| packageName := "com.example.client"; apiClassName := "Pets" |}
           {| packageName := "org.example"; apiClassName := "Pets" |}).
  - reflexivity.
  - reflexivity.
Defined.

End ExtractionFacts.

(** ** The emitted Java *)

Section GeneratedJavaFacts.
Import JsString ConsumerGenerator GeneratedJava.

(** The query text of a method is the rendering of its query program. *)
Lemma javaQueryCode_program queryParams :
  queryParams <> [] ->
  javaQueryCode queryParams
  = nl +:+ join nl (map renderQueryStmt (queryProgram queryParams)).
Proof.
  intros Hne. unfold javaQueryCode, queryProgram.
  destruct queryParams as [|p ps]; [done|]. cbn [length Nat.ltb Nat.leb].
  set (qs := p :: ps).
  rewrite map_cons, join_cons by (by destruct (imap _ qs)).
  rewrite map_app. cbn [map].
  rewrite join_snoc by done.
  replace (map renderQueryStmt
             (imap (fun i q => AppendIfNotNull (p_name q)
                                 (if (i =? 0)%nat then EmptyString else "&")) qs))
    with (imap (fun i q => javaQueryAppend (p_name q) (javaQueryPrefix i)) qs).
  - generalize (join nl (imap (fun i q => javaQueryAppend (p_name q) (javaQueryPrefix i)) qs)).
    intros emitted. vm_compute. reflexivity.
  - change (map renderQueryStmt) with (fmap (M := list) renderQueryStmt).
    rewrite fmap_imap. apply imap_ext. intros i q _. by destruct i.
Qed.

Lemma javaStatusHandling_chain :
  javaStatusHandling = renderStatusChain statusBranches ThrowRuntimeException.
Proof. vm_compute. reflexivity. Qed.

Lemma exec_appends args ps : forall k st,
  foldl (execQueryStmt args) st
        (imap (fun i p => AppendIfNotNull (p_name p)
                            (if (k + i =? 0)%nat then EmptyString else "&")) ps)
  = {| query := query st +:+ appended args k ps; path := path st |}.
Proof.
  induction ps as [|p ps IH]; intros k st.
  - cbn. rewrite append_nil_r. by destruct st.
  - rewrite imap_cons. cbn [foldl].
    rewrite (imap_ext _ (fun i p => AppendIfNotNull (p_name p)
                           (if (S k + i =? 0)%nat then EmptyString else "&")))
      by (intros i q _; cbn; by rewrite Nat.add_succ_r).
    rewrite IH. cbn [execQueryStmt appended]. rewrite Nat.add_0_r.
    destruct (args (p_name p)) as [value|]; [|done].
    cbn [query path]. by rewrite !append_assoc.
Qed.

(** The query block adds to the path, after a question mark, the pairs of
    the supplied parameters in declaration order, each parameter but the
    first declared one preceded by an ampersand; it adds nothing when no
    parameter is supplied. *)
Lemma runQueryBlock_appended op args path0 :
  runQueryBlock op args path0
  = match appended args 0 (List.filter inQuery (params op)) with
    | EmptyString => path0
    | String c q => path0 +:+ "?" +:+ String c q
    end.
Proof.
  unfold runQueryBlock, queryProgram.
  destruct (List.filter inQuery (params op)) as [|p ps]; [done|].
  cbn [length Nat.ltb Nat.leb foldl execQueryStmt path].
  rewrite foldl_app.
  rewrite (exec_appends args (p :: ps) 0). cbn [foldl execQueryStmt query path].
  change (EmptyString +:+ appended args 0 (p :: ps)) with (appended args 0 (p :: ps)).
  by destruct (appended args 0 (p :: ps)).
Qed.

(** C1, on the emitted Java: with the two optional query parameters a and
    b declared in this order and only b supplied, the query block leaves
    the path followed by "?&b=" and the value: the parameter b, first to
    be appended, still gets the ampersand of its position. *)
Theorem java_query_only_second_supplied value path0 :
  runQueryBlock twoQueryParams (onlyB value) path0 = path0 +:+ "?&b=" +:+ value
  /\ javaQueryCode (List.filter inQuery (params twoQueryParams))
     = nl +:+ join nl (map renderQueryStmt
                         (queryProgram (List.filter inQuery (params twoQueryParams)))).
Proof.
  split.
  - rewrite runQueryBlock_appended.
    change (appended (onlyB value) 0 (List.filter inQuery (params twoQueryParams)))
      with ("&b=" +:+ value +:+ EmptyString).
    by rewrite append_nil_r.
  - by apply javaQueryCode_program.
Qed.

Lemma handleStatus_cases statusCode responseBody :
  handleStatus statusCode responseBody
  = if (200 <=? statusCode) && (statusCode <? 300) then Returns (Some responseBody)
    else Throws ("HTTP " +:+ pretty statusCode +:+ ": " +:+ responseBody).
Proof.
  unfold handleStatus, statusBranches. cbn [runStatusChain holds perform].
  destruct ((200 <=? statusCode) && (statusCode <? 300)) eqn:E; [done|].
  destruct (statusCode =? 204) eqn:F; [|done]. lia.
Qed.

(** C2, on the emitted Java: at status 204 [sendRequest] returns the
    response body like at any other status from 200 to 299, and a method
    that is not [void] hands it to its caller; the branch that returns
    [null] is never taken. Outside 200 to 299 it throws a runtime
    exception whose message has the status code and the body. *)
Theorem handleStatus_204_returns_body responseBody :
  handleStatus 204 responseBody = Returns (Some responseBody)
  /\ methodOutcome twoQueryParams 204 responseBody = Value (Some responseBody)
  /\ (forall statusCode body, handleStatus statusCode body <> Returns None)
  /\ (forall statusCode body,
        handleStatus statusCode body
        = if (200 <=? statusCode) && (statusCode <? 300) then Returns (Some body)
          else Throws ("HTTP " +:+ pretty statusCode +:+ ": " +:+ body))
  /\ (forall ops ctx,
        generateJavaService ops ctx
        = javaServiceHead +:+ renderStatusChain statusBranches ThrowRuntimeException
          +:+ javaServiceMiddle +:+ join nl (map javaMethod ops) +:+ javaServiceTail).
Proof.
  split; [done|]. split; [done|]. split; [|split].
  - intros statusCode body. rewrite handleStatus_cases. by destruct (_ && _).
  - apply handleStatus_cases.
  - intros ops ctx. by rewrite <- javaStatusHandling_chain.
Qed.

End GeneratedJavaFacts.

(** ** Patterns: the matcher against what a pattern matches *)

Section RegexFacts.
Import JsString Regex.

Lemma last_char_app prev (w1 w2 : string) :
  last_char prev (w1 +:+ w2) = last_char (last_char prev w1) w2.
Proof.
  revert prev. induction w1 as [|x w1 IH]; intros prev; [done|].
  change (last_char (Some x) (w1 +:+ w2) = last_char (last_char (Some x) w1) w2).
  apply IH.
Qed.

Lemma starLoop_spec ic r k :
  MatcherSpec ic r ->
  forall n prev s,
    (String.length s <= n)%nat ->
    starLoop (matchFrom ic r) k n prev s = true
    <-> exists w rest,
          s = w +:+ rest /\ Matches ic (Star r) prev w rest
          /\ k (last_char prev w) rest = true.
Proof.
  intros Hr. induction n as [|n IHn]; intros prev s Hlen; cbn [starLoop];
    rewrite orb_true_iff.
  - split.
    + intros [Hk|Hf]; [|discriminate]. exists EmptyString, s. repeat split; [constructor|done].
    + intros (w & rest & Hs & HM & Hk). left.
      destruct s; [|cbn in Hlen; lia]. symmetry in Hs.
      apply append_empty in Hs as [-> ->]. done.
  - split.
    + intros [Hk|Hm].
      { exists EmptyString, s. repeat split; [constructor|done]. }
      apply Hr in Hm as (w1 & rest1 & Hs & HM1 & Hk).
      apply andb_true_iff in Hk as [Hlt Hloop]. apply Nat.ltb_lt in Hlt.
      apply IHn in Hloop as (w2 & rest & Hs2 & HM2 & Hk2); [|lia].
      exists (w1 +:+ w2). exists rest. subst rest1. split; [by rewrite append_assoc|].
      split; [|by rewrite last_char_app].
      apply MStarStep; [done| |done].
      intros ->. subst s. rewrite !length_append in Hlt. cbn in Hlt. lia.
    + intros (w & rest & Hs & HM & Hk). inversion HM as [| | | | | | | |r' prev' w1 w2 rest' HM1 Hne HM2]; subst.
      { by left. }
      right. apply Hr. exists w1. exists (w2 +:+ rest). split; [by rewrite append_assoc|].
      split; [done|]. apply andb_true_iff. split.
      * apply Nat.ltb_lt. rewrite append_assoc, (length_append w1).
        destruct w1; [done|]. cbn. lia.
      * apply IHn.
        -- rewrite append_assoc, (length_append w1) in Hlen.
           destruct w1; [done|]. cbn in Hlen. lia.
        -- exists w2, rest. repeat split; [done|]. by rewrite <- last_char_app.
Qed.

(** The matcher accepts exactly the splits of the text into a match of the
    pattern and a rest the continuation accepts. *)
Lemma matchFrom_spec ic r : MatcherSpec ic r.
Proof.
  induction r as [|c|f| |r1 IH1 r2 IH2|r1 IH1 r2 IH2|r IH]; intros prev s k;
    cbn [matchFrom].
  - split.
    + intros Hk. exists EmptyString, s. repeat split; [constructor|done].
    + intros (w & rest & -> & HM & Hk). inversion HM; subst. done.
  - split.
    + destruct s as [|a s]; [done|]. destruct (chr_eq ic a c) eqn:Hc; [|done]. intros Hk.
      exists (String a EmptyString), s. repeat split; [by constructor|done].
    + intros (w & rest & -> & HM & Hk). inversion HM as [|? ? ? ? Hc| | | | | | |]; subst.
      change (String a EmptyString +:+ rest) with (String a rest). cbv beta iota.
      by rewrite Hc.
  - split.
    + destruct s as [|a s]; [done|]. destruct (f a) eqn:Hc; [|done]. intros Hk.
      exists (String a EmptyString), s. repeat split; [by constructor|done].
    + intros (w & rest & -> & HM & Hk). inversion HM as [| |? ? ? ? Hc| | | | | |]; subst.
      change (String a EmptyString +:+ rest) with (String a rest). cbv beta iota.
      by rewrite Hc.
  - split.
    + destruct (xorb _ _) eqn:Hb; [|done]. intros Hk.
      exists EmptyString, s. repeat split; [by constructor|done].
    + intros (w & rest & -> & HM & Hk). inversion HM as [| | |? ? Hb| | | | |]; subst.
      change (EmptyString +:+ rest) with rest. by rewrite Hb.
  - split.
    + intros (w1 & rest1 & -> & HM1 & Hk)%IH1.
      apply IH2 in Hk as (w2 & rest & -> & HM2 & Hk).
      exists (w1 +:+ w2). exists rest. split; [by rewrite append_assoc|].
      split; [by constructor|by rewrite last_char_app].
    + intros (w & rest & -> & HM & Hk). inversion HM; subst.
      apply IH1. eexists _, _. split; [by rewrite append_assoc|]. split; [done|].
      apply IH2. eexists _, _. split; [done|]. split; [done|].
      by rewrite <- last_char_app.
  - rewrite orb_true_iff. split.
    + intros [(w & rest & -> & HM & Hk)%IH1|(w & rest & -> & HM & Hk)%IH2];
        exists w, rest; repeat split; try done; by constructor.
    + intros (w & rest & -> & HM & Hk). inversion HM; subst.
      * left. apply IH1. by eexists _, _.
      * right. apply IH2. by eexists _, _.
  - by apply starLoop_spec.
Qed.

Lemma searchFrom_spec ic r s : forall prev,
  searchFrom ic r prev s = true
  <-> exists pre w post,
        s = pre +:+ w +:+ post /\ Matches ic r (last_char prev pre) w post.
Proof.
  induction s as [|a s IH]; intros prev; cbn [searchFrom]; rewrite orb_true_iff.
  - split.
    + intros [(w & rest & Hs & HM & _)%matchFrom_spec|]; [|done].
      by exists EmptyString, w, rest.
    + intros (pre & w & post & Hs & HM). left. apply matchFrom_spec.
      symmetry in Hs. apply append_empty in Hs as [-> Hs]. by exists w, post.
  - split.
    + intros [(w & rest & Hs & HM & _)%matchFrom_spec|(pre & w & post & -> & HM)%IH].
      * by exists EmptyString, w, rest.
      * by exists (String a pre), w, post.
    + intros (pre & w & post & Hs & HM). destruct pre as [|b pre].
      * left. apply matchFrom_spec. by exists w, post.
      * right. injection Hs as <- ->. apply IH. by exists pre, w, post.
Qed.

(** [test]: some part of the text is matched by the pattern. *)
Lemma test_spec rx s :
  test rx s = true
  <-> exists pre w post,
        s = pre +:+ w +:+ post
        /\ Matches (ignoreCase rx) (source rx) (last_char None pre) w post.
Proof. apply searchFrom_spec. Qed.

End RegexFacts.

(** ** The guardrail scan *)

Section GuardrailFacts.
Import JsString Regex Guardrails.

Lemma flat_map_nil {A B} (f : A -> list B) (l : list A) :
  (forall x, f x = []) -> flat_map f l = [].
Proof. intros Hf. induction l as [|x l IH]; [done|]. cbn. by rewrite Hf, IH. Qed.

(** The violations of a file, rule by rule and, for each rule, line by line. *)
Lemma validateFile_reports content language filePath :
  validateFile content language filePath
  = flat_map (fun rule =>
                flat_map (fun il => if reports rule language il.2
                                    then [violationText rule filePath il.1] else [])
                         (imap pair (split_char LF content)))
             rules.
Proof.
  unfold validateFile. rewrite <- (app_nil_l (flat_map _ rules)).
  apply foldl_snoc_flat_map. intros acc rule.
  unfold reports, applies.
  assert (forall acc',
            foldl (fun violations '(i, line) =>
                     if isComment line language then violations
                     else if test (pattern rule) line then
                       let shouldSkip :=
                         match skipPatterns rule with
                         | Some skips => existsb (fun skip => test skip line) skips
                         | None => false
                         end in
                       if negb shouldSkip then
                         let location :=
                           if truthy filePath
                           then default EmptyString filePath +:+ ":" +:+ pretty (i + 1)%nat
                           else "line " +:+ pretty (i + 1)%nat in
                         violations
                         ++ ["[" +:+ name rule +:+ "] " +:+ location +:+ ": " +:+ message rule]
                       else violations
                     else violations)
                  acc' (imap pair (split_char LF content))
            = acc' ++ flat_map (fun il =>
                                  if negb (isComment il.2 language)
                                     && test (pattern rule) il.2
                                     && negb (suppressed rule il.2)
                                  then [violationText rule filePath il.1] else [])
                               (imap pair (split_char LF content))) as Hlines.
  { intros acc'. apply foldl_snoc_flat_map. intros acc'' [i line].
    unfold suppressed, violationText. cbv beta iota zeta. cbn [fst snd].
    destruct (isComment line language), (test (pattern rule) line); cbn [negb andb];
      rewrite ?app_nil_r; try done.
    by destruct (negb _); rewrite ?app_nil_r. }
  destruct (languages rule) as [ls|]; [destruct (bool_decide (language ∈ ls))|];
    cbn [negb andb].
  - apply Hlines.
  - rewrite flat_map_nil by done. by rewrite app_nil_r.
  - apply Hlines.
Qed.

Lemma validate_files files :
  validate files
  = flat_map (fun f => if endsWith f.1 ".xml" || endsWith f.1 ".pom" then []
                       else validateFile f.2 (inferLanguage f.1) (Some f.1))
             files.
Proof.
  unfold validate. rewrite <- (app_nil_l (flat_map _ files)).
  apply foldl_snoc_flat_map. intros acc [filePath content]. cbn.
  destruct (_ || _); by rewrite ?app_nil_r.
Qed.

(** C7: a rule reports a line of a file exactly when it applies to the
    language of the file, the line is not a comment, the line matches the
    pattern of the rule and no skip pattern of the rule matches the line:
    the violations of a file are those of the pairs of a rule and a line
    that meet the four conditions, and no others. In a .ts file the line
    with the call of fetch is reported by no-fetch, the same text after //
    is not reported, and the basePath line, which matches the pattern of
    no-raw-url, is not reported. *)
Theorem validateFile_reports_iff content language filePath :
  let lines := split_char LF content in
  validateFile content language filePath
  = flat_map (fun rule =>
                flat_map (fun il => if reports rule language il.2
                                    then [violationText rule filePath il.1] else [])
                         (imap pair lines))
             rules
  /\ (forall rule i line,
        rule ∈ rules -> lines !! i = Some line -> reports rule language line = true ->
        violationText rule filePath i ∈ validateFile content language filePath)
  /\ (forall v,
        v ∈ validateFile content language filePath ->
        exists rule i line,
          rule ∈ rules /\ lines !! i = Some line /\ reports rule language line = true
          /\ v = violationText rule filePath i)
  /\ validate [("client.ts", fetchLine)]
     = [ violationText noFetch (Some "client.ts") 0;
         violationText noRawUrl (Some "client.ts") 0 ]
  /\ validate [("client.ts", "// " +:+ fetchLine)] = []
  /\ test (pattern noRawUrl) basePathLine = true
  /\ suppressed noRawUrl basePathLine = true
  /\ validate [("client.ts", basePathLine)] = [].
Proof.
  cbv zeta. split; [apply validateFile_reports|]. split; [|split].
  - intros rule i line Hrule Hline Hrep. rewrite validateFile_reports.
    apply list_elem_of_In, in_flat_map. exists rule. split; [by apply list_elem_of_In|].
    apply in_flat_map. exists (i, line). split.
    + apply list_elem_of_In, list_elem_of_lookup. exists i.
      by rewrite list_lookup_imap, Hline.
    + cbn. rewrite Hrep. by left.
  - intros v Hv. rewrite validateFile_reports in Hv.
    apply list_elem_of_In, in_flat_map in Hv as (rule & Hrule & Hv).
    apply in_flat_map in Hv as ([i line] & Hil & Hv). cbn in Hv.
    exists rule, i, line.
    apply list_elem_of_In, list_elem_of_lookup in Hil as [j Hj].
    rewrite list_lookup_imap in Hj.
    destruct (split_char LF content !! j) as [line'|] eqn:E; [|done].
    cbn in Hj. injection Hj as <- <-.
    destruct (reports rule language line') eqn:Hrep; [|done].
    destruct Hv as [<-|[]].
    split; [by apply list_elem_of_In|]. by repeat split.
  - repeat split; vm_compute; reflexivity.
Qed.

(** C10: a file whose path ends in .xml or .pom adds nothing to the scan of
    a file map, whatever its content: the scan is the same with and
    without it, and the scan of the file alone is empty. *)
Theorem validate_skips_xml files1 files2 filePath content :
  endsWith filePath ".xml" || endsWith filePath ".pom" = true ->
  validate (files1 ++ (filePath, content) :: files2) = validate (files1 ++ files2)
  /\ validate [(filePath, content)] = [].
Proof.
  intros Hxml. rewrite !validate_files, !flat_map_app. cbn. by rewrite Hxml.
Qed.

Lemma validate_skips_xml_witness :
  validate [("src/client.ts", fetchLine); ("pom.xml", rawUrlLine)]
  = validate [("src/client.ts", fetchLine)]
  /\ validate [("pom.xml", rawUrlLine)] = []
  /\ validate [("settings.conf", rawUrlLine)]
     = [violationText noRawUrl (Some "settings.conf") 0].
Proof.
  destruct (validate_skips_xml [("src/client.ts", fetchLine)] [] "pom.xml" rawUrlLine)
    as [H1 H2]; [vm_compute; reflexivity|].
  split; [exact H1|]. split; [exact H2|]. vm_compute. reflexivity.
Defined.

End GuardrailFacts.

(** ** More on the guardrail scan *)

Section GuardrailScanFacts.
Import JsString Regex Guardrails.

Lemma flat_map_nil_in {A B} (f : A -> list B) (l : list A) :
  (forall x, In x l -> f x = []) -> flat_map f l = [].
Proof.
  induction l as [|x l IH]; intros Hf; [done|]. cbn.
  rewrite Hf by (by left). apply IH. intros y Hy. apply Hf. by right.
Qed.

(** Where a violation comes from. *)
Lemma validateFile_origin content language filePath v :
  v ∈ validateFile content language filePath ->
  exists rule i line,
    rule ∈ rules /\ split_char LF content !! i = Some line
    /\ reports rule language line = true /\ v = violationText rule filePath i.
Proof.
  intros Hv. rewrite validateFile_reports in Hv.
  apply list_elem_of_In, in_flat_map in Hv as (rule & Hrule & Hv).
  apply in_flat_map in Hv as ([i line] & Hil & Hv). cbn in Hv.
  exists rule, i, line.
  apply list_elem_of_In, list_elem_of_lookup in Hil as [j Hj].
  rewrite list_lookup_imap in Hj.
  destruct (split_char LF content !! j) as [line'|] eqn:E; [|done].
  cbn in Hj. injection Hj as <- <-.
  destruct (reports rule language line') eqn:Hrep; [|done].
  destruct Hv as [<-|[]].
  split; [by apply list_elem_of_In|]. by repeat split.
Qed.

Lemma validateFile_member content language filePath rule i line :
  rule ∈ rules -> split_char LF content !! i = Some line ->
  reports rule language line = true ->
  violationText rule filePath i ∈ validateFile content language filePath.
Proof.
  intros Hrule Hline Hrep. rewrite validateFile_reports.
  apply list_elem_of_In, in_flat_map. exists rule. split; [by apply list_elem_of_In|].
  apply in_flat_map. exists (i, line). split.
  - apply list_elem_of_In, list_elem_of_lookup. exists i.
    by rewrite list_lookup_imap, Hline.
  - cbn. rewrite Hrep. by left.
Qed.

Lemma rules_cases (P : Rule -> Prop) :
  P noFetch -> P noAxios -> P noHttpClient -> P noOkHttpDirect ->
  P noRequests -> P noUrllib -> P noRawUrl ->
  forall rule, rule ∈ rules -> P rule.
Proof.
  intros ??????? rule Hrule. unfold rules in Hrule.
  repeat (apply elem_of_cons in Hrule as [->|Hrule]; [done|]).
  by apply elem_of_nil in Hrule.
Qed.

(** X1: the scan takes the entries of the file map in the order in which
    the map enumerates them, and reports entry by entry: when the entries
    are those of a list followed by those of another, the violations are
    those of the first list followed by those of the second. *)
Theorem validate_app files1 files2 :
  validate (files1 ++ files2) = validate files1 ++ validate files2.
Proof. by rewrite !validate_files, flat_map_app. Qed.

(** X2: in a file whose language is neither TypeScript nor JavaScript, no
    violation of no-fetch or no-axios is reported, whatever the file
    holds. *)
Theorem scoped_rules_silent content language filePath v :
  language <> "typescript" -> language <> "javascript" ->
  v ∈ validateFile content language filePath ->
  startsWith v "[no-fetch]" = false /\ startsWith v "[no-axios]" = false.
Proof.
  intros Hts Hjs (rule & i & line & Hrule & _ & Hrep & ->)%validateFile_origin.
  revert Hrep. unfold reports.
  pattern rule. revert rule Hrule. apply rules_cases; intros Hrep;
    try (split; reflexivity);
    (apply andb_true_iff in Hrep as [Hrep _]; apply andb_true_iff in Hrep as [Hrep _];
     apply andb_true_iff in Hrep as [Hrep _]; cbn in Hrep;
     apply bool_decide_eq_true in Hrep;
     repeat (apply elem_of_cons in Hrep as [->|Hrep]; [done|]);
     by apply elem_of_nil in Hrep).
Qed.

Lemma scoped_rules_silent_witness :
  startsWith (violationText noHttpClient (Some "A.java") 0) "[no-fetch]" = false
  /\ startsWith (violationText noHttpClient (Some "A.java") 0) "[no-axios]" = false.
Proof.
  apply (scoped_rules_silent "x = axios(new HttpClient());" "java" (Some "A.java")).
  - discriminate.
  - discriminate.
  - apply (bool_decide_unpack _). vm_compute. exact I.
Defined.

(** X3: a text whose every line is a comment of the language has no
    violation. *)
Theorem comments_are_silent content language filePath :
  allComments content language = true ->
  validateFile content language filePath = [].
Proof.
  unfold allComments. rewrite forallb_forall. intros Hall.
  rewrite validateFile_reports. apply flat_map_nil. intros rule.
  apply flat_map_nil_in. intros [i line] Hil. cbn.
  apply list_elem_of_In, list_elem_of_lookup in Hil as [j Hj].
  rewrite list_lookup_imap in Hj.
  destruct (split_char LF content !! j) as [line'|] eqn:E; [|done].
  cbn in Hj. injection Hj as <- <-.
  unfold reports. rewrite Hall; [by rewrite andb_false_r|].
  apply list_elem_of_In, list_elem_of_lookup. eauto.
Qed.

Lemma comments_are_silent_witness :
  validateFile ("// " +:+ fetchLine +:+ String LF ("  /* " +:+ fetchLine)) "typescript" None
  = [].
Proof. apply comments_are_silent. vm_compute. reflexivity. Defined.

(** X4: the directory scan reads a file exactly when the language of the
    file is known: a name has a source extension if and only if its
    inferred language is not unknown. *)
Theorem isSourceFile_known_language filename :
  isSourceFile filename = true <-> inferLanguage filename <> "unknown".
Proof.
  unfold isSourceFile, inferLanguage. cbn [existsb].
  destruct (endsWith filename ".java"), (endsWith filename ".ts"),
    (endsWith filename ".tsx"), (endsWith filename ".js"),
    (endsWith filename ".jsx"), (endsWith filename ".py"); cbn; split; done.
Qed.

Lemma ruleOfMessage_violationText rule filePath i :
  rule ∈ rules -> ruleOfMessage (violationText rule filePath i) = name rule.
Proof. revert rule. apply rules_cases; reflexivity. Qed.

Lemma walkEntry_origin pathJoin : forall node dir file v,
  v ∈ walkEntry pathJoin dir file node ->
  exists rule dir' file' i,
    rule ∈ rules /\ gv_rule v = name rule
    /\ gv_message v = violationText rule (Some (pathJoin dir' file')) i
    /\ gv_file v = Some (pathJoin dir' file') /\ gv_line v = None
    /\ isSourceFile file' = true /\ applies rule (inferLanguage file') = true.
Proof.
  fix IH 1. intros [content|entries] dir file v; cbn [walkEntry].
  - destruct (isSourceFile file) eqn:Hsrc; [|intros H; by apply elem_of_nil in H].
    intros (msg & -> & Hmsg)%list_elem_of_fmap.
    apply validateFile_origin in Hmsg as (rule & i & line & Hrule & _ & Hrep & ->).
    exists rule, dir, file, i. cbn.
    split; [done|]. split; [by apply ruleOfMessage_violationText|].
    repeat split; try done.
    unfold reports in Hrep. by repeat (apply andb_true_iff in Hrep as [Hrep _]).
  - destruct (negb _); [|intros H; by apply elem_of_nil in H].
    induction entries as [|[f n] es IHes]; [intros H; by apply elem_of_nil in H|].
    intros [Hv|Hv]%elem_of_app; [by apply (IH n (pathJoin dir file) f)|by apply IHes].
Qed.

(** X5: every violation the directory scan returns names a rule of the
    engine: the rule read back from the text of the message is the name of
    the rule that reported it. The violation is for a file with a source
    extension, under a rule that applies to the language of that file; it
    carries the joined path of the file and no line number of its own. *)
Theorem validateDirectory_rules pathJoin dirPath root violations v :
  validateDirectory pathJoin dirPath root = inr violations ->
  v ∈ violations ->
  exists rule dir file i,
    rule ∈ rules /\ gv_rule v = name rule
    /\ gv_message v = violationText rule (Some (pathJoin dir file)) i
    /\ gv_file v = Some (pathJoin dir file) /\ gv_line v = None
    /\ isSourceFile file = true /\ applies rule (inferLanguage file) = true.
Proof.
  unfold validateDirectory, walkDir.
  destruct root as [[content|entries]|]; intros H Hv; try discriminate;
    injection H as <-; [|by apply elem_of_nil in Hv].
  apply list_elem_of_In, in_flat_map in Hv as ([f n] & _ & Hv).
  by apply list_elem_of_In, walkEntry_origin in Hv.
Qed.

Lemma validateDirectory_rules_witness :
  exists rule dir file i,
    rule ∈ rules /\ "no-fetch" = name rule
    /\ violationText noFetch (Some "consumer/src/client.ts") 0
       = violationText rule (Some (dir +:+ "/" +:+ file)) i
    /\ Some "consumer/src/client.ts" = Some (dir +:+ "/" +:+ file) /\ @None nat = None
    /\ isSourceFile file = true /\ applies rule (inferLanguage file) = true.
Proof.
  apply (validateDirectory_rules (fun d f => d +:+ "/" +:+ f) "consumer"
           (Some (FsDir [ ("node_modules", FsDir [("lib.ts", FsFile fetchLine)]);
                          ("notes.txt", FsFile fetchLine);
                          ("src", FsDir [("client.ts", FsFile ("x = fetch(1)"))]) ]))
           [ {| gv_rule := "no-fetch";
                gv_message := violationText noFetch (Some "consumer/src/client.ts") 0;
                gv_file := Some "consumer/src/client.ts"; gv_line := None |} ]
           {| gv_rule := "no-fetch";
              gv_message := violationText noFetch (Some "consumer/src/client.ts") 0;
              gv_file := Some "consumer/src/client.ts"; gv_line := None |}).
  - vm_compute. reflexivity.
  - apply list_elem_of_singleton. reflexivity.
Defined.

Lemma noRawUrl_in_rules : noRawUrl ∈ rules.
Proof. unfold rules. rewrite !elem_of_cons. tauto. Qed.

Lemma validate_cons filePath content files :
  validate ((filePath, content) :: files)
  = (if endsWith filePath ".xml" || endsWith filePath ".pom" then []
     else validateFile content (inferLanguage filePath) (Some filePath))
    ++ validate files.
Proof. by rewrite !validate_files. Qed.

(** The line of the entry point of a language that holds the base URL. *)
Lemma scan_of_generated this language operations context :
  match language with
  | ConsumerGenerator.java =>
      violationText noRawUrl (Some "src/main/java/Application.java") 17
  | ConsumerGenerator.typescript => violationText noRawUrl (Some "src/index.ts") 8
  | ConsumerGenerator.python => violationText noRawUrl (Some "main.py") 9
  end
  ∈ validate (ConsumerGenerator.generateForLanguage this
                (ConsumerGenerator.languageName language) operations context).
Proof.
  destruct language.
  - change (ConsumerGenerator.generateForLanguage this
              (ConsumerGenerator.languageName ConsumerGenerator.java) operations context)
      with [ ("src/main/java/Application.java",
              ConsumerGenerator.generateJavaApplication operations context);
             ("src/main/java/ApiService.java",
              ConsumerGenerator.generateJavaService operations context);
             ("pom.xml", ConsumerGenerator.generateJavaPom context) ].
    rewrite validate_cons. apply elem_of_app. left.
    change (endsWith "src/main/java/Application.java" ".xml"
            || endsWith "src/main/java/Application.java" ".pom") with false.
    cbv iota.
    eapply validateFile_member.
    + apply noRawUrl_in_rules.
    + lazy. reflexivity.
    + vm_compute. reflexivity.
  - change (ConsumerGenerator.generateForLanguage this
              (ConsumerGenerator.languageName ConsumerGenerator.typescript)
              operations context)
      with [ ("src/index.ts", ConsumerGenerator.generateTypeScriptIndex operations context);
             ("src/api-service.ts",
              ConsumerGenerator.generateTypeScriptService operations context);
             ("package.json", ConsumerGenerator.generateTypeScriptPackage context) ].
    rewrite validate_cons. apply elem_of_app. left.
    change (endsWith "src/index.ts" ".xml" || endsWith "src/index.ts" ".pom") with false.
    cbv iota.
    eapply validateFile_member.
    + apply noRawUrl_in_rules.
    + lazy. reflexivity.
    + vm_compute. reflexivity.
  - change (ConsumerGenerator.generateForLanguage this
              (ConsumerGenerator.languageName ConsumerGenerator.python)
              operations context)
      with [ ("main.py", ConsumerGenerator.generatePythonMain operations context);
             ("api_service.py", ConsumerGenerator.generatePythonService operations context);
             ("requirements.txt", "requests>=2.28.0" +:+ ConsumerGenerator.nl) ].
    rewrite validate_cons. apply elem_of_app. left.
    change (endsWith "main.py" ".xml" || endsWith "main.py" ".pom") with false.
    cbv iota.
    eapply validateFile_member.
    + apply noRawUrl_in_rules.
    + lazy. reflexivity.
    + vm_compute. reflexivity.
Qed.

(** X6: the code the generator emits does not pass the guardrails of the
    engine: for every target language, whatever the operations and the
    context, the scan of the generated file map reports the base URL
    written in the entry point as a hardcoded URL. *)
Theorem generated_code_is_reported this language operations context :
  validate (ConsumerGenerator.generateForLanguage this
              (ConsumerGenerator.languageName language) operations context) <> []
  /\ match language with
     | ConsumerGenerator.java =>
         violationText noRawUrl (Some "src/main/java/Application.java") 17
     | ConsumerGenerator.typescript => violationText noRawUrl (Some "src/index.ts") 8
     | ConsumerGenerator.python => violationText noRawUrl (Some "main.py") 9
     end
     ∈ validate (ConsumerGenerator.generateForLanguage this
                   (ConsumerGenerator.languageName language) operations context).
Proof.
  pose proof (scan_of_generated this language operations context) as H.
  split; [|exact H]. intros Hnil. rewrite Hnil in H. by apply elem_of_nil in H.
Qed.

Lemma chr_eq_refl ic c : chr_eq ic c c = true.
Proof. unfold chr_eq. destruct ic; apply Ascii.eqb_refl. Qed.

Lemma lit_Matches ic c s prev rest :
  Matches ic (lit (String c s)) prev (String c s) rest.
Proof.
  revert c prev. induction s as [|b s IH]; intros c prev.
  - constructor. apply chr_eq_refl.
  - change (lit (String c (String b s))) with (Seq (Chr c) (lit (String b s))).
    change (String c (String b s)) with (String c EmptyString +:+ String b s).
    constructor; [constructor; apply chr_eq_refl|apply IH].
Qed.

(** A pattern that is a plain word is found in every text that includes
    the word. *)
Lemma test_lit_includes rx c s line :
  source rx = lit (String c s) ->
  includes line (String c s) = true -> test rx line = true.
Proof.
  intros Hrx (pre & post & ->)%includes_spec. apply test_spec.
  exists pre, (String c s), post. split; [done|]. rewrite Hrx. apply lit_Matches.
Qed.

(** The text of a violation of no-raw-url tells its rule and its line. *)
Lemma violationText_noRawUrl rule filePath i j :
  rule ∈ rules ->
  violationText rule filePath j = violationText noRawUrl filePath i ->
  rule = noRawUrl /\ j = i.
Proof.
  intros Hrule Htext.
  assert (rule = noRawUrl) as ->.
  { apply (f_equal ruleOfMessage) in Htext.
    rewrite !ruleOfMessage_violationText in Htext by (done || apply noRawUrl_in_rules).
    revert Htext. pattern rule. revert rule Hrule. apply rules_cases; done. }
  split; [done|]. unfold violationText in Htext.
  do 3 apply append_cancel_l in Htext. apply append_cancel_r in Htext.
  destruct (truthy filePath); apply append_cancel_l in Htext;
    [apply append_cancel_l in Htext|]; apply (inj pretty) in Htext; lia.
Qed.

(** X7: a line that includes the word basePath is never reported as a
    hardcoded URL, whatever the text around it and whatever the language:
    the rule no-raw-url does not report the line, and the violation of
    no-raw-url for the line is not among the violations of the text. *)
Theorem basePath_lines_exempt content language filePath i line :
  split_char LF content !! i = Some line ->
  includes line "basePath" = true ->
  reports noRawUrl language line = false
  /\ violationText noRawUrl filePath i ∉ validateFile content language filePath.
Proof.
  intros Hline Hinc.
  assert (reports noRawUrl language line = false) as Hno.
  { assert (suppressed noRawUrl line = true) as Hsup.
    { unfold suppressed. cbn [skipPatterns noRawUrl existsb].
      rewrite (test_lit_includes (regex (lit "basePath")) "b" "asePath" line) by done.
      by rewrite !orb_true_r. }
    unfold reports. by rewrite Hsup, andb_false_r. }
  split; [done|].
  intros (rule & j & line' & Hrule & Hline' & Hrep & Htext)%validateFile_origin.
  symmetry in Htext. apply violationText_noRawUrl in Htext as [-> ->]; [|done].
  congruence.
Qed.

Lemma basePath_lines_exempt_witness :
  violationText noRawUrl (Some "config.ts") 1
  ∉ validateFile ("const docs = " +:+ dq +:+ "http://example.com/docs" +:+ dq +:+ ";"
                  +:+ String LF basePathLine)
      "typescript" (Some "config.ts").
Proof.
  apply (basePath_lines_exempt _ "typescript" (Some "config.ts") 1 basePathLine).
  - vm_compute. reflexivity.
  - vm_compute. reflexivity.
Defined.

End GuardrailScanFacts.

(** ** More on extraction and naming *)

Section GeneratorFacts.
Import JsString ConsumerGenerator.

Lemma filter_map_commute {A B} (f : A -> B) (p : B -> bool) (l : list A) :
  List.filter p (map f l) = map f (List.filter (fun x => p (f x)) l).
Proof.
  induction l as [|x l IH]; [done|]. cbn. destruct (p (f x)); cbn; by rewrite IH.
Qed.

(** X8: extraction with a filter is extraction without one followed by the
    selection of the descriptors whose id is in the filter: the filter
    changes neither the descriptors nor their order, nor whether extraction
    returns. *)
Theorem extractOperations_filter spec sel :
  extractOperations spec (Some sel)
  = sum_map id (List.filter (fun d => bool_decide (ctx_operationId d ∈ sel)))
            (extractOperations spec None).
Proof.
  rewrite !extractOperations_wellFormed. destruct (hasNull spec); [done|].
  cbn [sum_map]. rewrite filter_map_commute. do 2 f_equal.
  rewrite (forallb_filter_id (fun w => negb (filteredOut None w.1.2)))
    by (by apply forallb_forall).
  apply List.filter_ext. intros w. cbn. by rewrite negb_involutive.
Qed.

Lemma extractOperations_selected spec sel ops d :
  extractOperations spec (Some sel) = inr ops -> d ∈ ops -> ctx_operationId d ∈ sel.
Proof.
  intros [_ ->]%extractOperations_returns (w & -> & Hw)%list_elem_of_fmap.
  apply list_elem_of_In, filter_In in Hw as [_ Hw]. cbn in Hw.
  rewrite negb_involutive in Hw. by apply bool_decide_eq_true in Hw.
Qed.

Lemma extractOperations_ids spec f ops d :
  extractOperations spec f = inr ops -> d ∈ ops -> ctx_operationId d ∈ operationIds spec.
Proof.
  intros [_ ->]%extractOperations_returns (w & -> & Hw)%list_elem_of_fmap.
  unfold operationIds. apply list_elem_of_In, filter_In in Hw as [Hw _].
  apply list_elem_of_fmap. exists w. split; [done|]. by apply list_elem_of_In.
Qed.

(** X9: a filter none of whose ids is an operation id of the document is a
    hard stop, like an empty document: unless the document has a null, on
    which extraction throws, generation ends with the error "No operations
    found in the spec". The empty filter is such a filter. *)
Theorem generateForOperations_unknown_ids this fs options spec sel :
  fs !! specPath options = Some (Document spec) ->
  operations options = Some sel ->
  (forall id, id ∈ sel -> id ∉ operationIds spec) ->
  generateForOperations this fs options
  = inl (if hasNull spec then TypeError else Error "No operations found in the spec").
Proof.
  intros Hfile Hsel Hunknown. unfold generateForOperations. rewrite Hfile, Hsel.
  destruct (extractOperations spec (Some sel)) as [e|ops] eqn:E.
  - rewrite extractOperations_wellFormed in E. destruct (hasNull spec); [|done].
    by injection E as <-.
  - destruct (extractOperations_returns _ _ _ E) as [-> _].
    destruct ops as [|d ds]; [done|]. exfalso.
    assert (d ∈ d :: ds) as Hd by (by left).
    pose proof (extractOperations_ids _ _ _ _ E Hd) as Hid.
    apply (extractOperations_selected _ _ _ _ E) in Hd.
    by apply (Hunknown (ctx_operationId d)).
Qed.

Lemma generateForOperations_unknown_ids_witness :
  generateForOperations constructor {[ "openapi.yaml" := Document mixedSpec ]}
    {| specPath := "openapi.yaml"; outputDir := "consumer"; language := "python";
       opt_packageName := None; operations := Some [] |}
  = inl (Error "No operations found in the spec").
Proof.
  apply (generateForOperations_unknown_ids _ _ _ mixedSpec []).
  - vm_compute. reflexivity.
  - reflexivity.
  - intros id Hid. by apply elem_of_nil in Hid.
Defined.

Lemma namedSchema_nonempty content name :
  namedSchema content = Some name -> name <> EmptyString.
Proof.
  unfold namedSchema, mbind, option_bind.
  destruct (content !! "application/json") as [json|]; [|done].
  destruct (media_schema json) as [schema|]; [|done].
  destruct (schema_ref schema) as [[|a ref]|]; try done.
  destruct (last _) as [[|b seg]|]; try done. by intros [= <-].
Qed.

Lemma inferReturnType_nonempty op : inferReturnType op <> EmptyString.
Proof.
  rewrite inferReturnType_selected.
  destruct (selectedResponse op) as [r|]; [|done].
  destruct (response_content r) as [content|]; [|done].
  destruct (namedSchema content) as [name|] eqn:E; [|done].
  cbn. by apply namedSchema_nonempty in E.
Qed.

Lemma upper_char_not_lower c : is_lower (upper_char c) = false.
Proof. by destruct c as [[] [] [] [] [] [] [] []]. Qed.

Lemma lower_char_not_upper c : is_upper (lower_char c) = false.
Proof. by destruct c as [[] [] [] [] [] [] [] []]. Qed.

Lemma upper_char_alnum c : is_alnum c = true -> is_alnum (upper_char c) = true.
Proof. by destruct c as [[] [] [] [] [] [] [] []]. Qed.

Lemma toUpperCase_no_lower s : all_chars (fun c => negb (is_lower c)) (toUpperCase s) = true.
Proof.
  induction s as [|c s IH]; [done|]. cbn. by rewrite upper_char_not_lower, IH.
Qed.

Lemma toLowerCase_no_upper s : all_chars (fun c => negb (is_upper c)) (toLowerCase s) = true.
Proof.
  induction s as [|c s IH]; [done|]. cbn. by rewrite lower_char_not_upper, IH.
Qed.

(** X10: every descriptor of an extraction has a non-empty operation id, a
    non-empty summary and a non-empty return type, a method without
    lower-case letters, and the flag [hasParams] set exactly when it has
    parameters. *)
Theorem extractOperations_descriptors spec f ops d :
  extractOperations spec f = inr ops -> d ∈ ops ->
  ctx_operationId d <> EmptyString
  /\ ctx_summary d <> EmptyString
  /\ returnType d <> EmptyString
  /\ all_chars (fun c => negb (is_lower c)) (ctx_method d) = true
  /\ (hasParams d = true <-> params d <> []).
Proof.
  rewrite extractOperations_traversal. destruct (hasNull spec); [done|]. intros [= <-].
  intros ([[pathKey method] e] & _ & Hd)%list_elem_of_In%in_flat_map.
  unfold extracted in Hd. cbn in Hd.
  destruct e as [| |op]; [done|done|]. cbn in Hd.
  destruct (operationId op) as [[|c id]|]; try done.
  destruct (filteredOut f (String c id)); [done|]. destruct Hd as [<-|[]].
  cbn. split; [done|]. split; [by destruct (op_summary op) as [[|]|]|].
  split; [apply inferReturnType_nonempty|]. split; [apply toUpperCase_no_lower|].
  destruct (default [] (op_parameters op)); cbn; split; done.
Qed.

Lemma extractOperations_descriptors_witness :
  let d := describe "/pets/{id}" "get" "getPet" (petOperation "getPet") in
  ctx_operationId d <> EmptyString
  /\ ctx_summary d <> EmptyString
  /\ returnType d <> EmptyString
  /\ all_chars (fun c => negb (is_lower c)) (ctx_method d) = true
  /\ (hasParams d = true <-> params d <> []).
Proof.
  apply (extractOperations_descriptors mixedSpec (Some ["getPet"])
           [describe "/pets/{id}" "get" "getPet" (petOperation "getPet")]).
  - vm_compute. reflexivity.
  - apply list_elem_of_singleton. reflexivity.
Defined.

Lemma keep_chars_all f s : all_chars f (keep_chars f s) = true.
Proof.
  induction s as [|c s IH]; [done|]. cbn. destruct (f c) eqn:E; [|done].
  cbn. by rewrite E, IH.
Qed.

(** X11: the API class name derived from a title is never empty, is made
    of letters and digits only, and does not start with a lower-case
    letter; a title without a letter or digit gives "Default". *)
Theorem deriveApiClassName_identifier title :
  deriveApiClassName title <> EmptyString
  /\ all_chars is_alnum (deriveApiClassName title) = true
  /\ all_chars (fun c => negb (is_lower c)) (charAt0 (deriveApiClassName title)) = true
  /\ (keep_chars is_alnum title = EmptyString -> deriveApiClassName title = "Default").
Proof.
  unfold deriveApiClassName. pose proof (keep_chars_all is_alnum title) as Hall.
  destruct (keep_chars is_alnum title) as [|c s]; [by repeat split|].
  change (toUpperCase (charAt0 (String c s)) +:+ slice1 (String c s))
    with (String (upper_char c) s).
  cbn in Hall. apply andb_true_iff in Hall as [Hc Hs].
  cbn. rewrite upper_char_not_lower, (upper_char_alnum c Hc), Hs. by repeat split.
Qed.

Lemma deriveApiClassName_identifier_witness : deriveApiClassName "?!" = "Default".
Proof. apply (deriveApiClassName_identifier "?!"). reflexivity. Defined.

(** X12: a name put in snake case has no upper-case letter left. *)
Theorem toSnakeCase_no_upper str :
  all_chars (fun c => negb (is_upper c)) (toSnakeCase str) = true.
Proof.
  unfold toSnakeCase. pose proof (toLowerCase_no_upper (underscore_upper str)) as H.
  destruct (toLowerCase (underscore_upper str)) as [|c r]; [done|].
  cbn in H. apply andb_true_iff in H as [Hc Hr].
  destruct c as [[] [] [] [] [] [] [] []]; cbn; try done; by rewrite ?Hc, Hr.
Qed.

Lemma eqb_cases (a b : string) : (String.eqb a b = true /\ a = b) \/ (String.eqb a b = false /\ a <> b).
Proof. destruct (String.eqb_spec a b); auto. Qed.

(** X13: the three type projections fall back together: a type name that
    is none of number, string, boolean and array is projected to the
    untyped name of each language, Object, any and any, and the four names
    never are. A schema type is never projected as integer: it reaches
    the projections as number. *)
Theorem type_projections_agree type schema :
  (type ∉ ["number"; "string"; "boolean"; "array"]
   -> toJavaType type = "Object" /\ toTypeScriptType type = "any"
      /\ toPythonType type = "any")
  /\ (type ∈ ["number"; "string"; "boolean"; "array"]
      -> toJavaType type <> "Object" /\ toTypeScriptType type <> "any"
         /\ toPythonType type <> "any")
  /\ schemaToType schema <> "integer"
  /\ schemaToType schema <> EmptyString.
Proof.
  unfold toJavaType, toTypeScriptType, toPythonType.
  split; [|split; [|split]].
  - intros Hnot.
    destruct (eqb_cases type "number") as [[-> Hn]|[-> Hn]];
      [exfalso; apply Hnot; subst; set_solver|].
    destruct (eqb_cases type "string") as [[-> Hs]|[-> Hs]];
      [exfalso; apply Hnot; subst; set_solver|].
    destruct (eqb_cases type "boolean") as [[-> Hb]|[-> Hb]];
      [exfalso; apply Hnot; subst; set_solver|].
    destruct (eqb_cases type "array") as [[-> Ha]|[-> Ha]];
      [exfalso; apply Hnot; subst; set_solver|].
    done.
  - intros Hin. repeat (apply elem_of_cons in Hin as [->|Hin]; [by repeat split|]).
    by apply elem_of_nil in Hin.
  - unfold schemaToType. destruct schema as [schema|]; [|done].
    case_bool_decide as H1; [done|]. case_bool_decide as H2; [done|].
    destruct (schema_type schema) as [[|c t]|]; try done. cbn.
    intros Heq. apply H1. by rewrite Heq.
  - unfold schemaToType. destruct schema as [schema|]; [|done].
    case_bool_decide as H1; [done|]. case_bool_decide as H2; [done|].
    by destruct (schema_type schema) as [[|c t]|].
Qed.

Lemma type_projections_agree_witness :
  toJavaType "integer" = "Object" /\ toTypeScriptType "integer" = "any"
  /\ toPythonType "integer" = "any".
Proof.
  apply (type_projections_agree "integer" None).
  rewrite !elem_of_cons, elem_of_nil. intros [?|[?|[?|[?|[]]]]]; discriminate.
Defined.

End GeneratorFacts.

(** ** More on the emitted Java *)

Section EmittedJavaFacts.
Import JsString ConsumerGenerator GeneratedJava.

Lemma appended_later args i ps :
  appended args (S i) ps
  = match queryPairs args ps with
    | [] => EmptyString
    | pairs => "&" +:+ join "&" pairs
    end.
Proof.
  revert i. induction ps as [|p ps IH]; intros i; [done|].
  cbn [appended]. unfold queryPairs in *. cbn [omap list_omap]. rewrite (IH (S i)).
  destruct (args (p_name p)) as [value|]; cbn [mbind option_bind]; [|done].
  change ((if (S i =? 0)%nat then EmptyString else "&") +:+ p_name p +:+ "=" +:+
          value +:+ ?x) with ("&" +:+ p_name p +:+ "=" +:+ value +:+ x).
  destruct (omap _ ps) as [|x l].
  - by rewrite append_nil_r.
  - rewrite (join_cons "&" _ (x :: l)) by done. by rewrite !append_assoc.
Qed.

Lemma pair_nonempty (name value rest : string) :
  exists c q, name +:+ "=" +:+ value +:+ rest = String c q.
Proof. destruct name as [|c name]; [by exists "="%char, (value +:+ rest)|by eexists _, _]. Qed.

(** X14: the query string the emitted Java builds, in general: nothing is
    added to the path when no query parameter is supplied; otherwise a
    question mark and the name=value pairs of the supplied parameters, in
    declaration order, joined by ampersands, with one more ampersand in
    front when the first declared parameter is not supplied. *)
Theorem java_query_string op args path0 p ps :
  List.filter inQuery (params op) = p :: ps ->
  runQueryBlock op args path0
  = match queryPairs args (p :: ps) with
    | [] => path0
    | pairs =>
        path0 +:+ "?"
        +:+ match args (p_name p) with Some _ => EmptyString | None => "&" end
        +:+ join "&" pairs
    end.
Proof.
  intros Hq. rewrite runQueryBlock_appended, Hq. cbn [appended].
  rewrite appended_later. unfold queryPairs. cbn [omap list_omap].
  destruct (args (p_name p)) as [value|]; cbn [mbind option_bind].
  - change ((if (0 =? 0)%nat then EmptyString else "&") +:+ ?x) with x.
    set (rest := match omap _ ps with [] => EmptyString | _ => _ end).
    destruct (pair_nonempty (p_name p) value rest) as (c & q & E).
    rewrite E, <- E. unfold rest. clear E rest.
    change (EmptyString +:+ ?x) with x.
    destruct (omap _ ps) as [|x l].
    + by rewrite !append_nil_r.
    + rewrite (join_cons "&" _ (x :: l)) by done. by rewrite !append_assoc.
  - by destruct (omap _ ps).
Qed.

Lemma java_query_string_witness :
  runQueryBlock getPetById
    (fun name => if String.eqb name "limit" then Some "10"
                 else if String.eqb name "offset" then Some "20" else None)
    "/pets/7"
  = "/pets/7?limit=10&offset=20".
Proof.
  rewrite (java_query_string getPetById _ "/pets/7"
             {| p_name := "limit"; p_type := "number"; p_in := "query" |}
             [ {| p_name := "offset"; p_type := "number"; p_in := "query" |} ]).
  - vm_compute. reflexivity.
  - reflexivity.
Defined.

Lemma prefix_app (t rest : string) : String.prefix t (t +:+ rest) = true.
Proof. apply (startsWith_spec (t +:+ rest) t). by exists rest. Qed.

Lemma replace_go_skip target replacement (w rest : string) :
  replace_go target replacement (String.length w) (w +:+ rest)
  = replace_go target replacement 0 rest.
Proof.
  induction w as [|c w IH]; [by destruct rest|].
  change (replace_go target replacement (String.length w) (w +:+ rest)
          = replace_go target replacement 0 rest). apply IH.
Qed.

Lemma replace_go_copy b t replacement (pre rest : string) :
  Regex.occurs b pre = false ->
  replace_go (String b t) replacement 0 (pre +:+ rest)
  = pre +:+ replace_go (String b t) replacement 0 rest.
Proof.
  induction pre as [|c pre IH]; [done|]. cbn [Regex.occurs].
  intros [Hc Hpre]%orb_false_iff.
  change (String c pre +:+ rest) with (String c (pre +:+ rest)).
  cbn [replace_go String.prefix].
  destruct (Ascii.ascii_dec b c) as [->|Hne]; [by rewrite Ascii.eqb_refl in Hc|].
  rewrite IH by done. done.
Qed.

(** One occurrence of a target between two texts without its first
    character is replaced, and nothing else changes. *)
Lemma javaReplace_once b t replacement (pre post : string) :
  Regex.occurs b pre = false -> Regex.occurs b post = false ->
  javaReplace (String b t) replacement (pre +:+ String b t +:+ post)
  = pre +:+ replacement +:+ post.
Proof.
  intros Hpre Hpost. unfold javaReplace. rewrite replace_go_copy by done. f_equal.
  change (String b t +:+ post) with (String b (t +:+ post)).
  cbn [replace_go].
  change (String b (t +:+ post)) with (String b t +:+ post). rewrite prefix_app.
  cbn [String.length Nat.sub]. rewrite Nat.sub_0_r, replace_go_skip. f_equal.
  rewrite <- (append_nil_r post) at 1. rewrite replace_go_copy by done.
  cbn [replace_go]. apply append_nil_r.
Qed.

Lemma javaPathCode_calls ps : forall e,
  foldl (fun pathCode p =>
           pathCode +:+ ".replace(" +:+ dq +:+ "{" +:+ p_name p +:+ "}" +:+ dq
                    +:+ ", " +:+ p_name p +:+ ")")
        ("String path = " +:+ renderPathExpr e) ps
  = "String path = "
    +:+ renderPathExpr
          (foldl (fun e p => ReplaceCall e ("{" +:+ p_name p +:+ "}") (p_name p)) e ps).
Proof.
  induction ps as [|p ps IH]; intros e; [done|].
  cbn [foldl]. rewrite <- IH. f_equal. cbn [renderPathExpr]. by rewrite !append_assoc.
Qed.

(** The path statement of a method is the rendering of its path program. *)
Lemma javaPathCode_program op :
  javaPathCode op = "String path = " +:+ renderPathExpr (pathProgram op) +:+ ";".
Proof.
  unfold javaPathCode, pathProgram.
  change ("String path = " +:+ dq +:+ ctx_path op +:+ dq)
    with ("String path = " +:+ renderPathExpr (Template (ctx_path op))).
  by rewrite javaPathCode_calls, append_assoc.
Qed.

(** X15: the path statement the generator emits is the text of its path
    program. For a plain path template with one placeholder, for the one
    path parameter of the operation, and no other opening brace, the
    program gives the template with the argument in the place of the
    placeholder; a [null] argument ends in a [NullPointerException]. *)
Theorem java_path_substitution op args p pre post :
  List.filter inPath (params op) = [p] ->
  ctx_path op = pre +:+ "{" +:+ p_name p +:+ "}" +:+ post ->
  plainLiteral (ctx_path op) = true ->
  Regex.occurs "{" pre = false -> Regex.occurs "{" post = false ->
  javaPathCode op = "String path = " +:+ renderPathExpr (pathProgram op) +:+ ";"
  /\ pathProgram op
     = ReplaceCall (Template (ctx_path op)) ("{" +:+ p_name p +:+ "}") (p_name p)
  /\ runPathCode op args
     = match args (p_name p) with
       | Some value => Some (pre +:+ value +:+ post)
       | None => None
       end.
Proof.
  intros Hp Hpath _ Hpre Hpost. split; [apply javaPathCode_program|].
  unfold runPathCode, pathProgram. rewrite Hp. cbn [foldl]. split; [done|].
  rewrite Hpath. cbn [evalPathExpr mbind option_bind].
  destruct (args (p_name p)) as [value|]; [|done].
  cbn [mbind option_bind]. f_equal.
  change ("{" +:+ p_name p +:+ "}") with (String "{" (p_name p +:+ "}")).
  replace (pre +:+ "{" +:+ p_name p +:+ "}" +:+ post)
    with (pre +:+ String "{" (p_name p +:+ "}") +:+ post).
  - by apply javaReplace_once.
  - f_equal. change (String "{" ((p_name p +:+ "}") +:+ post)
                     = String "{" (p_name p +:+ "}" +:+ post)).
    by rewrite append_assoc.
Qed.

Lemma java_path_substitution_witness :
  javaPathCode getPetById
  = "String path = " +:+ dq +:+ "/pets/{id}" +:+ dq +:+ ".replace(" +:+ dq +:+ "{id}" +:+ dq
    +:+ ", id);"
  /\ runPathCode getPetById (fun name => if String.eqb name "id" then Some "7" else None)
     = Some "/pets/7".
Proof.
  destruct (java_path_substitution getPetById
              (fun name => if String.eqb name "id" then Some "7" else None)
              {| p_name := "id"; p_type := "string"; p_in := "path" |}
              "/pets/" EmptyString) as (Htext & Hprogram & Hrun); try reflexivity.
  split; [|exact Hrun]. rewrite Htext, Hprogram. reflexivity.
Defined.

End EmittedJavaFacts.

(** ** More on the planner *)

Section PlannerFacts.
Import JsString ConsumerGenerator Plan.

Lemma matchedIds_usable intent spec id :
  id ∈ matchedIds intent spec -> id ∈ operationIds spec.
Proof.
  unfold matchedIds, operationIds, wellFormed.
  intros ([[p m] e] & Ht & Hsel)%list_elem_of_omap.
  unfold selects in Hsel. cbn in Hsel.
  destruct (usable e) as [[id' op]|] eqn:E; [|done]. cbn in Hsel.
  destruct (_ || _); [|done]. injection Hsel as ->.
  apply list_elem_of_fmap. exists (p, m, id, op). split; [done|].
  apply list_elem_of_omap. exists (p, m, e). split; [done|]. cbn. by rewrite E.
Qed.

Lemma task_of_analyze now intent spec tasks t :
  analyzeIntentAndCreateTasks now intent spec = inr tasks -> t ∈ tasks ->
  hasNull spec = false
  /\ task_operations t = first_seen (matchedIds intent spec)
  /\ task_operations t <> [] /\ task_status t = pending.
Proof.
  rewrite analyze_operations. destruct (hasNull spec); [done|]. intros [= <-].
  destruct (first_seen (matchedIds intent spec)) as [|x l] eqn:E;
    [intros H; by apply elem_of_nil in H|].
  intros ->%list_elem_of_singleton. by cbn.
Qed.

(** X16: a task the planner makes can always be implemented on the contract
    it was planned on: its operations are operation ids of the document, so
    generation filtered to them finds at least one operation and returns a
    file map, not the error of an empty extraction. *)
Theorem planned_task_generates this fs options now intent spec tasks t :
  fs !! specPath options = Some (Document spec) ->
  analyzeIntentAndCreateTasks now intent spec = inr tasks -> t ∈ tasks ->
  operations options = Some (task_operations t) ->
  (forall id, id ∈ task_operations t -> id ∈ operationIds spec)
  /\ exists files writes, generateForOperations this fs options = inr (files, writes).
Proof.
  intros Hfile Htasks Ht Hsel.
  destruct (task_of_analyze _ _ _ _ _ Htasks Ht) as (Hnull & Hops & Hne & _).
  assert (forall id, id ∈ task_operations t -> id ∈ operationIds spec) as Hids.
  { intros id Hid. rewrite Hops in Hid. apply (proj1 (first_seen_elem _ _)) in Hid.
    by apply matchedIds_usable in Hid. }
  split; [done|]. unfold generateForOperations. rewrite Hfile, Hsel.
  rewrite extractOperations_wellFormed, Hnull.
  destruct (map describeEntry _) as [|d ds] eqn:E.
  - exfalso. destruct (task_operations t) as [|x l] eqn:Et; [done|].
    assert (x ∈ operationIds spec) as Hx by (apply Hids; by left).
    unfold operationIds in Hx. apply list_elem_of_fmap in Hx as (w & -> & Hw).
    apply map_eq_nil in E.
    assert (In w (List.filter (fun w0 => negb (filteredOut (Some (w.1.2 :: l)) w0.1.2))
                              (wellFormed spec))) as Hin.
    { apply filter_In. split; [by apply list_elem_of_In|]. cbn.
      rewrite negb_involutive. apply bool_decide_eq_true. by left. }
    by rewrite E in Hin.
  - cbn. by eexists _, _.
Qed.

Lemma planned_task_generates_witness :
  exists files writes,
    generateForOperations constructor
      {[ "openapi.yaml" := Document (petsSpec None None None None None None) ]}
      {| specPath := "openapi.yaml"; outputDir := "consumer"; language := "java";
         opt_packageName := None; operations := Some ["listPets"; "createPet"] |}
    = inr (files, writes).
Proof.
  apply (planned_task_generates constructor _ _ 1730000000000 "create and list all pets"
           (petsSpec None None None None None None)
           [ {| task_id := "task-1730000000000"; task_title := "Create and list all pets";
                task_description := "Implement: create and list all pets";
                task_status := pending; task_operations := ["listPets"; "createPet"] |} ]
           {| task_id := "task-1730000000000"; task_title := "Create and list all pets";
              task_description := "Implement: create and list all pets";
              task_status := pending; task_operations := ["listPets"; "createPet"] |}).
  - vm_compute. reflexivity.
  - vm_compute. reflexivity.
  - apply list_elem_of_singleton. reflexivity.
  - reflexivity.
Defined.

Lemma lower_upper_char c : lower_char (upper_char c) = lower_char c.
Proof. by destruct c as [[] [] [] [] [] [] [] []]. Qed.

Lemma toLowerCase_toUpperCase s : toLowerCase (toUpperCase s) = toLowerCase s.
Proof. induction s as [|c s IH]; [done|]. cbn. by rewrite lower_upper_char, IH. Qed.

(** X17: the selection of the planner does not depend on the letter case of
    the intent: two intents equal up to case select the same operations, in
    the same order. *)
Theorem plan_ignores_case now now' intent intent' spec :
  toLowerCase intent = toLowerCase intent' ->
  sum_map id (map task_operations) (analyzeIntentAndCreateTasks now intent spec)
  = sum_map id (map task_operations) (analyzeIntentAndCreateTasks now' intent' spec).
Proof.
  intros Hcase. rewrite !analyze_operations.
  assert (matchedIds intent spec = matchedIds intent' spec) as ->
    by (unfold matchedIds; by rewrite Hcase).
  destruct (hasNull spec); [done|]. by destruct (first_seen _).
Qed.

Lemma plan_ignores_case_witness :
  sum_map id (map task_operations)
    (analyzeIntentAndCreateTasks 1 "Create And LIST all Pets"
       (petsSpec None None None None None None))
  = sum_map id (map task_operations)
      (analyzeIntentAndCreateTasks 2 (toUpperCase "Create And LIST all Pets")
         (petsSpec None None None None None None)).
Proof.
  apply plan_ignores_case. symmetry. apply toLowerCase_toUpperCase.
Defined.

Lemma selects_usable ws acts pathKey method op c id :
  operationId op = Some (String c id) ->
  selects ws acts (pathKey, method, OperationObject op)
  = if (entityMatch ws (toLowerCase (String c id)) (toLowerCase pathKey)
          (toLowerCase (or_else (op_summary op) EmptyString))
          (map toLowerCase (default [] (op_tags op)))
        && (actionMatch acts method pathKey || (size acts =? 0)%nat))
       || idMatch ws (toLowerCase (String c id))
    then Some (String c id) else None.
Proof. intros H. unfold selects, usable. cbn [fst snd]. by rewrite H. Qed.

(** X18: an operation whose id contains, case aside, a word of the intent
    of more than three characters is always in the task, whatever its verb
    and whatever actions the intent names. *)
Theorem plan_selects_id_words now intent spec pathKey method op id word :
  hasNull spec = false ->
  (pathKey, method, OperationObject op) ∈ traversal spec ->
  operationId op = Some id -> id <> EmptyString ->
  word ∈ split_ws (toLowerCase intent) ->
  (3 < String.length word)%nat ->
  includes (toLowerCase id) word = true ->
  exists t, analyzeIntentAndCreateTasks now intent spec = inr [t] /\ id ∈ task_operations t.
Proof.
  intros Hnull Ht Hid Hne Hword Hlen Hinc.
  assert (id ∈ matchedIds intent spec) as Hm.
  { unfold matchedIds. apply list_elem_of_omap. exists (pathKey, method, OperationObject op).
    split; [done|]. destruct id as [|c id]; [done|].
    rewrite (selects_usable _ _ _ _ _ c id Hid).
    assert (idMatch (split_ws (toLowerCase intent)) (toLowerCase (String c id)) = true) as ->.
    { unfold idMatch. apply existsb_exists. exists word.
      split; [by apply list_elem_of_In|].
      apply andb_true_iff. split; [by apply Nat.ltb_lt|done]. }
    by rewrite orb_true_r. }
  rewrite analyze_operations, Hnull. apply (proj2 (first_seen_elem _ _)) in Hm.
  destruct (first_seen (matchedIds intent spec)) as [|x l]; [by apply elem_of_nil in Hm|].
  by eexists.
Qed.

Lemma plan_selects_id_words_witness :
  exists t,
    analyzeIntentAndCreateTasks 1 "delete everything about getPet"
      (petsSpec None None None None None None) = inr [t]
    /\ "getPet" ∈ task_operations t.
Proof.
  apply (plan_selects_id_words 1 "delete everything about getPet"
           (petsSpec None None None None None None)
           "/pets/{id}" "get" (mkOp "getPet" None None) "getPet" "getpet").
  - reflexivity.
  - change (traversal (petsSpec None None None None None None))
      with (petsEntries None None None None None None).
    unfold petsEntries. rewrite !elem_of_cons. auto.
  - reflexivity.
  - discriminate.
  - apply (bool_decide_unpack _). vm_compute. exact I.
  - vm_compute. lia.
  - vm_compute. reflexivity.
Defined.





Lemma filter_flat_map {A B} (p : B -> bool) (g : A -> list B) (l : list A) :
  List.filter p (flat_map g l) = flat_map (fun x => List.filter p (g x)) l.
Proof.
  induction l as [|x l IH]; [done|]. cbn. by rewrite List.filter_app, IH.
Qed.

Lemma existsb_false {A} (f : A -> bool) (l : list A) x :
  existsb f l = false -> In x l -> f x = false.
Proof.
  induction l as [|y l IH]; [done|]. cbn. intros [Hy Hl]%orb_false_iff [<-|Hx]; auto.
Qed.

Lemma listAvailableOperations_traversal spec :
  hasNull spec = false ->
  listAvailableOperations spec
  = (flat_map (fun t =>
                 match usable t.2 with
                 | None => []
                 | Some (id, op) =>
                     ("  - " +:+ toUpperCase t.1.2 +:+ " " +:+ t.1.1 +:+ ": " +:+ id)
                     :: (if truthy (op_summary op)
                         then ["    " +:+ default EmptyString (op_summary op)] else [])
                 end)
              (traversal spec),
     None).
Proof.
  unfold hasNull, listAvailableOperations, traversal. intros Hnull.
  rewrite (forOfPrinting_lines
             (fun p => flat_map (fun e =>
                match usable e.2 with
                | None => []
                | Some (id, op) =>
                    ("  - " +:+ toUpperCase e.1 +:+ " " +:+ p.1 +:+ ": " +:+ id)
                    :: (if truthy (op_summary op)
                        then ["    " +:+ default EmptyString (op_summary op)] else [])
                end) (default [] p.2))).
  - rewrite app_nil_l, flat_map_bind. f_equal. apply flat_map_ext. intros [pathKey pathItem].
    cbn. rewrite flat_map_bind. apply flat_map_ext. intros [method e]. cbn.
    by rewrite app_nil_r.
  - intros console [pathKey pathItem] Hp.
    pose proof (existsb_false _ _ _ Hnull Hp) as Hitem. cbn [fst snd] in Hitem |- *.
    destruct pathItem as [own|]; [|done]. cbn [objectEntries default from_option id].
    apply forOfPrinting_lines. intros console' [method e] He.
    pose proof (existsb_false _ _ _ Hitem He) as Hentry. cbn [fst snd] in Hentry |- *.
    destruct e as [| |op]; [done|by rewrite app_nil_r|]. cbn [guard].
    destruct (usable (OperationObject op)) as [[id op']|]; [|by rewrite app_nil_r].
    destruct (truthy (op_summary op')); by rewrite <- ?app_assoc.
Qed.

(** X20: the catalog printed when no operation matches is in step with
    extraction: when extraction without a filter returns, the catalog is
    printed to its end, and its operation lines, the lines that start with a
    dash, are one for each descriptor extraction returns, in the same
    order, with the method, path and id of the descriptor. *)
Theorem listAvailableOperations_extract spec ops :
  extractOperations spec None = inr ops ->
  (listAvailableOperations spec).2 = None
  /\ List.filter (fun line => startsWith line "  - ") (listAvailableOperations spec).1
     = map catalogLine ops.
Proof.
  rewrite extractOperations_traversal. destruct (hasNull spec) eqn:Hnull; [done|].
  intros [= <-]. rewrite listAvailableOperations_traversal by done. cbn [fst snd].
  split; [done|]. rewrite filter_flat_map.
  induction (traversal spec) as [|[[pathKey method] e] ts IH]; [done|].
  cbn [flat_map]. rewrite map_app, IH. f_equal. unfold extracted. cbn [fst snd].
  destruct (usable e) as [[id op]|]; [|done].
  cbn [filteredOut]. cbn [List.filter].
  assert (forall x, startsWith ("  - " +:+ x) "  - " = true) as ->
    by (intros x; apply prefix_app).
  destruct (truthy (op_summary op)); [|done].
  cbn [List.filter].
  by assert (forall x, startsWith ("    " +:+ x) "  - " = false) as -> by reflexivity.
Qed.

Lemma listAvailableOperations_extract_witness :
  (listAvailableOperations petStore).2 = None
  /\ List.filter (fun line => startsWith line "  - ") (listAvailableOperations petStore).1
     = [ "  - GET /pets/{id}: getPet"; "  - POST /pets: createPet";
         "  - GET /pets: listPets" ].
Proof.
  destruct (extractOperations petStore None) as [e|ops] eqn:E; [discriminate|].
  destruct (listAvailableOperations_extract petStore ops E) as [H1 H2].
  split; [exact H1|]. rewrite H2.
  assert (ops = match extractOperations petStore None with
                | inr ops => ops
                | inl _ => []
                end) as -> by (by rewrite E).
  vm_compute. reflexivity.
Defined.

(** X21: unless a task is named, [spec implement] only takes pending tasks
    of the plan: all of them, in plan order, with the option all, the first
    one otherwise; it takes none exactly when the plan has no pending
    task. *)
Theorem tasksToImplement_pending options tasks :
  truthy (opt_task options) = false ->
  exists selected,
    tasksToImplement options tasks = inr selected
    /\ (forall t, t ∈ selected -> task_status t = pending /\ t ∈ tasks)
    /\ (selected = [] <-> forall t, t ∈ tasks -> task_status t <> pending)
    /\ selected = (if opt_all options then List.filter isPending tasks
                   else option_list (List.find isPending tasks)).
Proof.
  intros Hno. unfold tasksToImplement. rewrite Hno.
  assert (forall t, isPending t = true <-> task_status t = pending) as Hp.
  { intros t. unfold isPending. by destruct (task_status t). }
  destruct (opt_all options).
  - eexists. split; [done|]. split; [|split; [|done]].
    + intros t [Ht Hpt]%list_elem_of_In%filter_In.
      split; [by apply Hp|by apply list_elem_of_In].
    + split.
      * intros Hnil t Ht Hpt.
        assert (In t (List.filter isPending tasks)) as Hin
          by (apply filter_In; split; [by apply list_elem_of_In|by apply Hp]).
        by rewrite Hnil in Hin.
      * intros Hnone. induction tasks as [|t ts IH]; [done|]. cbn.
        destruct (isPending t) eqn:E.
        -- exfalso. apply (Hnone t); [by left|by apply Hp].
        -- apply IH. intros t' Ht'. apply Hnone. by right.
  - destruct (List.find isPending tasks) as [t|] eqn:E.
    + eexists. split; [done|]. apply find_some in E as [Hin Hpt].
      split; [|split; [|done]].
      * intros t' ->%list_elem_of_singleton. split; [by apply Hp|by apply list_elem_of_In].
      * split; [done|]. intros Hnone. exfalso.
        apply (Hnone t); [by apply list_elem_of_In|by apply Hp].
    + eexists. split; [done|]. split; [|split; [|done]].
      * intros t Ht. by apply elem_of_nil in Ht.
      * split; [|done]. intros _ t Ht Hpt.
        apply list_elem_of_In in Ht. apply (find_none _ _ E t) in Ht.
        apply Hp in Hpt. congruence.
Qed.

Lemma tasksToImplement_pending_witness :
  exists selected,
    tasksToImplement {| opt_task := None; opt_all := false; opt_plan := "plan.yaml";
                        opt_dryRun := false |}
      Implement.petsPlan = inr selected
    /\ (forall t, t ∈ selected -> task_status t = pending /\ t ∈ Implement.petsPlan)
    /\ (selected = [] <->
        forall t, t ∈ Implement.petsPlan -> task_status t <> pending)
    /\ selected = option_list (List.find isPending Implement.petsPlan).
Proof.
  apply (tasksToImplement_pending
           {| opt_task := None; opt_all := false; opt_plan := "plan.yaml";
              opt_dryRun := false |}).
  reflexivity.
Defined.

End PlannerFacts.

(** ** The fetch of a contract *)

Section SyncFacts.
Import JsString Sync.

Lemma https_scheme url :
  startsWith url "https://" = true -> startsWith url "https" = true.
Proof.
  intros [post ->]%startsWith_spec. apply startsWith_spec. by exists ("://" +:+ post).
Qed.

Lemma http_scheme url :
  startsWith url "http://" = true -> startsWith url "https" = false.
Proof.
  intros [post ->]%startsWith_spec.
  destruct (startsWith ("http://" +:+ post) "https") eqn:E; [|done].
  apply startsWith_spec in E as [post' E]. discriminate.
Qed.

(** X22: the fetch gives a text only for a URL that starts with http:// or
    https://, asked for with the module of that scheme, and answered with
    status 200; the text is then the chunks of the answer put together.
    Every other status, redirects included, every failure of the request
    and every other URL end in an error. *)
Theorem fetchSpec_resolves get url text :
  fetchSpec get url = inr text
  <-> exists u chunks,
        url = Some u /\ text = concat_chunks chunks
        /\ ((startsWith u "http://" = true /\ get http u = Responded 200 chunks)
            \/ (startsWith u "https://" = true /\ get https u = Responded 200 chunks)).
Proof.
  unfold fetchSpec. split.
  - destruct url as [[|c u]|]; try done. cbn [truthy negb from_option id].
    destruct (startsWith (String c u) "http://") eqn:Hhttp;
      destruct (startsWith (String c u) "https://") eqn:Hhttps; cbn [negb andb]; try done.
    + apply http_scheme in Hhttp as Hs. apply https_scheme in Hhttps. congruence.
    + rewrite (http_scheme _ Hhttp).
      destruct (get http (String c u)) as [| | |statusCode chunks] eqn:G; try done.
      destruct (statusCode =? 200) eqn:S; [|done]. apply Z.eqb_eq in S as ->.
      intros [= <-]. exists (String c u), chunks. auto.
    + rewrite (https_scheme _ Hhttps).
      destruct (get https (String c u)) as [| | |statusCode chunks] eqn:G; try done.
      destruct (statusCode =? 200) eqn:S; [|done]. apply Z.eqb_eq in S as ->.
      intros [= <-]. exists (String c u), chunks. auto.
  - intros (u & chunks & -> & -> & [[Hs G]|[Hs G]]).
    + destruct u as [|c u]; [done|]. cbn [truthy negb from_option id].
      rewrite Hs, (http_scheme _ Hs), G. done.
    + destruct u as [|c u]; [done|]. cbn [truthy negb from_option id].
      rewrite Hs, (https_scheme _ Hs), G. cbn. by rewrite andb_false_r.
Qed.

End SyncFacts.

(** ** The run of [spec implement] *)

Section ImplementFacts.
Import JsString ConsumerGenerator Plan Guardrails Implement.

Lemma findIndex_lt p tasks i : findIndex p tasks = Some i -> (i < length tasks)%nat.
Proof.
  revert i. induction tasks as [|t ts IH]; intros i; [done|]. cbn.
  destruct (p t); [intros [= <-]; lia|].
  destruct (findIndex p ts) as [j|]; [|done]. intros [= <-].
  specialize (IH j eq_refl). lia.
Qed.

Lemma filterIndices_lt p tasks i : i ∈ filterIndices p tasks -> (i < length tasks)%nat.
Proof.
  revert i. induction tasks as [|t ts IH]; intros i; [by intros ?%elem_of_nil|]. cbn.
  assert (i ∈ map S (filterIndices p ts) -> (i < S (length ts))%nat) as Hmap.
  { intros (j & -> & Hj)%list_elem_of_fmap. specialize (IH j Hj). lia. }
  destruct (p t); [|done]. intros [->|Hi]%elem_of_cons; [lia|by apply Hmap].
Qed.

(** The chosen positions are positions of the plan. *)
Lemma chosenTasks_in_range options tasks chosen i :
  chosenTasks options tasks = inr chosen -> i ∈ chosen -> (i < length tasks)%nat.
Proof.
  unfold chosenTasks. destruct (truthy (opt_task options)).
  - destruct (findIndex _ tasks) as [j|] eqn:E; [|done].
    intros [= <-] ->%list_elem_of_singleton. by apply findIndex_lt in E.
  - destruct (opt_all options).
    + intros [= <-]. apply filterIndices_lt.
    + destruct (findIndex isPending tasks) as [j|] eqn:E; intros [= <-].
      * intros ->%list_elem_of_singleton. by apply findIndex_lt in E.
      * by intros ?%elem_of_nil.
Qed.

Lemma failed_run_stays pathJoin this fs root config dry chosen : forall st,
  is_Some (run_failure st) ->
  foldl (implementTask pathJoin this fs root config dry) st chosen = st.
Proof.
  induction chosen as [|i l IH]; intros st Hf; [done|]. cbn [foldl].
  assert (implementTask pathJoin this fs root config dry st i = st) as ->.
  { unfold implementTask. by destruct Hf as [e ->]. }
  by apply IH.
Qed.

Lemma supported_cases language :
  language ∈ supportedLanguages ->
  exists l : SupportedLanguage, language = languageName l.
Proof.
  unfold supportedLanguages. rewrite !elem_of_cons, elem_of_nil.
  intros [->|[->|[->|[]]]]; [by exists java|by exists typescript|by exists python].
Qed.

Lemma pathsOf_supported language :
  language ∈ supportedLanguages -> length (pathsOf language) = 3%nat.
Proof. intros [l ->]%supported_cases. by destruct l. Qed.

Lemma pathsOf_unsupported language :
  language ∉ supportedLanguages -> pathsOf language = [].
Proof.
  unfold supportedLanguages, pathsOf. rewrite !elem_of_cons, elem_of_nil. intros H.
  destruct (String.eqb_spec language "java") as [->|_]; [tauto|].
  destruct (String.eqb_spec language "typescript") as [->|_]; [tauto|].
  destruct (String.eqb_spec language "python") as [->|_]; [tauto|done].
Qed.

Lemma generated_files_written this fs options files written :
  generateForOperations this fs options = inr (files, written) ->
  length files = length (pathsOf (language options))
  /\ (language options ∈ supportedLanguages -> validate files <> [])
  /\ (language options ∉ supportedLanguages -> validate files = [])
  /\ written = if truthy (Some (outputDir options))
               then map (fun '(filePath, content) =>
                           {| write_dir := outputDir options; write_file := filePath;
                              write_content := content |}) files
               else [].
Proof.
  intros H. pose proof (generateForOperations_files _ _ _ _ _ H)
    as (spec & ops & Hfile & Hops & Hne & Hfiles).
  unfold generateForOperations in H. rewrite Hfile, Hops in H.
  destruct ops as [|o os]; [done|].
  cbn [length Nat.eqb] in H. injection H as <- <-.
  split; [|split; [|split; [|done]]].
  - by rewrite <- (length_map fst), files_of_language.
  - intros [l Hl]%supported_cases Hnil. rewrite Hl in Hnil.
    pose proof (scan_of_generated this l (o :: os)
                  {| packageName := or_else (opt_packageName options) "com.example.client";
                     apiClassName := deriveApiClassName (info_title spec) |}) as Hin.
    rewrite Hnil in Hin. by apply elem_of_nil in Hin.
  - intros Hno%pathsOf_unsupported.
    pose proof (files_of_language this (language options) (o :: os)
                  {| packageName := or_else (opt_packageName options) "com.example.client";
                     apiClassName := deriveApiClassName (info_title spec) |}) as Hpaths.
    rewrite Hno in Hpaths. apply map_eq_nil in Hpaths. by rewrite Hpaths.
Qed.

Lemma setStatus_twice s1 s2 t : setStatus s2 (setStatus s1 t) = setStatus s2 t.
Proof. done. Qed.

(** One pass of the loop that does not fail. *)
Lemma implementTask_pass pathJoin this fs root config dry st i :
  pathJoin root (cfg_consumer_outputDir config) <> EmptyString ->
  run_failure st = None -> (i < length (run_tasks st))%nat ->
  let st' := implementTask pathJoin this fs root config dry st i in
  run_failure st' = None ->
  length (run_writes st')
  = (length (run_writes st) + writesPerTask (cfg_consumer_language config) dry)%nat
  /\ (cfg_consumer_language config ∈ supportedLanguages ->
      (length (run_violations st) < length (run_violations st'))%nat)
  /\ (cfg_consumer_language config ∉ supportedLanguages ->
      run_violations st' = run_violations st)
  /\ length (run_tasks st') = length (run_tasks st)
  /\ forall j, run_tasks st' !! j
               = (if bool_decide (j = i) then setStatus (statusAfter dry) else id)
                 <$> run_tasks st !! j.
Proof.
  intros Hdir Hok Hi. unfold implementTask. rewrite Hok.
  destruct (lookup_lt_is_Some_2 (run_tasks st) i Hi) as [t Ht].
  rewrite list_lookup_alter_eq, Ht. cbn [fmap option_fmap option_map].
  destruct (generateForOperations _ _ _) as [e|[files written]] eqn:G; [done|].
  apply generated_files_written in G as (Hlen & Hscan & Hnoscan & Hw).
  cbn [outputDir language] in Hw, Hlen, Hscan, Hnoscan.
  assert (truthy (Some (pathJoin root (cfg_consumer_outputDir config))) = true) as Htr
    by (by destruct (pathJoin root (cfg_consumer_outputDir config))).
  rewrite Htr in Hw.
  assert (length written = length (pathsOf (cfg_consumer_language config))) as Hlw
    by (by rewrite Hw, length_map).
  assert (forall s j,
            alter (setStatus s) i (run_tasks st) !! j
            = (if bool_decide (j = i) then setStatus s else id) <$> run_tasks st !! j) as Hl.
  { intros s j. case_bool_decide as Hj.
    - subst j. apply list_lookup_alter_eq.
    - rewrite list_lookup_alter_ne by done. by destruct (run_tasks st !! j). }
  assert (cfg_consumer_language config ∈ supportedLanguages ->
          (length (run_violations st) < length (run_violations st ++ validate files))%nat)
    as Hmore.
  { intros Hs%Hscan. rewrite length_app. destruct (validate files); [done|cbn; lia]. }
  assert (cfg_consumer_language config ∉ supportedLanguages ->
          run_violations st ++ validate files = run_violations st) as Hsame.
  { intros Hs%Hnoscan. by rewrite Hs, app_nil_r. }
  unfold writesPerTask.
  destruct dry; cbn [negb]; intros _; cbn [run_writes run_violations run_tasks].
  - split; [by rewrite length_app, Hlw|]. split; [exact Hmore|]. split; [exact Hsame|].
    split; [by rewrite length_alter|]. apply Hl.
  - split; [rewrite !length_app, length_map, Hlw, Hlen; lia|].
    split; [exact Hmore|]. split; [exact Hsame|].
    split; [by rewrite !length_alter|]. intros j.
    case_bool_decide as Hj.
    + subst j. rewrite !list_lookup_alter_eq. by destruct (run_tasks st !! i).
    + rewrite !list_lookup_alter_ne by done. by destruct (run_tasks st !! j).
Qed.

(** A run of the loop that does not fail. *)
Lemma run_passes pathJoin this fs root config dry chosen : forall st,
  pathJoin root (cfg_consumer_outputDir config) <> EmptyString ->
  run_failure st = None ->
  (forall i, i ∈ chosen -> (i < length (run_tasks st))%nat) ->
  let final := foldl (implementTask pathJoin this fs root config dry) st chosen in
  run_failure final = None ->
  length (run_writes final)
  = (length (run_writes st)
     + writesPerTask (cfg_consumer_language config) dry * length chosen)%nat
  /\ (cfg_consumer_language config ∈ supportedLanguages ->
      (length (run_violations st) + length chosen <= length (run_violations final))%nat)
  /\ (cfg_consumer_language config ∉ supportedLanguages ->
      run_violations final = run_violations st)
  /\ length (run_tasks final) = length (run_tasks st)
  /\ forall j, run_tasks final !! j
               = (if bool_decide (j ∈ chosen) then setStatus (statusAfter dry) else id)
                 <$> run_tasks st !! j.
Proof.
  induction chosen as [|i l IH]; intros st Hdir Hok Hrange; cbn [foldl].
  - intros _. cbn. repeat split; try lia. intros j. by destruct (run_tasks st !! j).
  - intros Hfinal.
    destruct (run_failure (implementTask pathJoin this fs root config dry st i)) eqn:E.
    { rewrite failed_run_stays in Hfinal by (by rewrite E). congruence. }
    destruct (implementTask_pass pathJoin this fs root config dry st i Hdir Hok)
      as (Hw & Hv & Hnv & Hlen & Hl); [apply Hrange; by left|done|].
    destruct (IH _ Hdir E) as (Hw' & Hv' & Hnv' & Hlen' & Hl'); [|done|].
    { intros k Hk. rewrite Hlen. apply Hrange. by right. }
    rewrite Hw', Hw, Hlen', Hlen. cbn [length].
    split; [lia|]. split; [intros Hs; specialize (Hv Hs); specialize (Hv' Hs); lia|].
    split; [intros Hs; by rewrite (Hnv' Hs), (Hnv Hs)|]. split; [done|].
    intros j. rewrite Hl', Hl.
    destruct (run_tasks st !! j) as [t|]; [|reflexivity]. cbn.
    destruct (decide (j = i)) as [->|Hne].
    + rewrite (bool_decide_eq_true_2 (i = i)) by done.
      rewrite (bool_decide_eq_true_2 (i ∈ i :: l)) by (by left).
      by destruct (bool_decide (i ∈ l)).
    + rewrite (bool_decide_eq_false_2 (j = i)) by done.
      destruct (decide (j ∈ l)) as [Hin|Hnin].
      * rewrite !bool_decide_eq_true_2; [done|by right|done].
      * rewrite !bool_decide_eq_false_2; [done| |done].
        intros [?|?]%elem_of_cons; done.
Qed.

(** X23: a dry run is not dry for the generated files: the plan is not
    saved, but when the run succeeds the generator has written the files of
    every chosen task under the output directory all the same: three for
    each task when the configured language is one of the three the
    generator has a case for, none otherwise. *)
Theorem dry_run_still_writes pathJoin this fs root config options tasks chosen :
  opt_dryRun options = true ->
  pathJoin root (cfg_consumer_outputDir config) <> EmptyString ->
  chosenTasks options tasks = inr chosen ->
  let result := implementPlan pathJoin this fs root config options tasks in
  saved_plan result = None
  /\ (exit_code result = 0 ->
      length (files_written result)
      = (length (pathsOf (cfg_consumer_language config)) * length chosen)%nat
      /\ (cfg_consumer_language config ∈ supportedLanguages ->
          length (files_written result) = (3 * length chosen)%nat)
      /\ (cfg_consumer_language config ∉ supportedLanguages ->
          files_written result = [])).
Proof.
  intros Hdry Hdir Hchosen. unfold implementPlan. rewrite Hchosen, Hdry.
  assert (forall n : nat,
            n = (length (pathsOf (cfg_consumer_language config)) * length chosen)%nat ->
            (cfg_consumer_language config ∈ supportedLanguages -> n = (3 * length chosen)%nat)
            /\ (cfg_consumer_language config ∉ supportedLanguages -> n = 0%nat)) as Hcount.
  { intros n ->. split.
    - intros Hs. by rewrite (pathsOf_supported _ Hs).
    - intros Hs. by rewrite (pathsOf_unsupported _ Hs). }
  destruct chosen as [|i l].
  { cbn. split; [done|]. intros _. split; [lia|]. split; [done|done]. }
  set (final := foldl _ _ _).
  destruct (run_failure final) eqn:E; [done|]. cbn [negb saved_plan exit_code files_written].
  split; [done|]. intros _.
  destruct (run_passes pathJoin this fs root config true (i :: l)
              {| run_tasks := tasks; run_writes := []; run_violations := [];
                 run_failure := None |} Hdir eq_refl) as (Hw & _); [|done|].
  { intros k Hk. by apply (chosenTasks_in_range options tasks (i :: l)). }
  fold final in Hw. cbn [run_writes length Nat.add writesPerTask] in Hw.
  split; [done|]. destruct (Hcount _ Hw) as [H3 H0]. split; [done|].
  intros Hs. specialize (H0 Hs). by destruct (run_writes final).
Qed.

Lemma dry_run_still_writes_witness :
  let result :=
    implementPlan slashJoin constructor petsProject "proj" petsConfig
      {| opt_task := None; opt_all := false; opt_plan := "plan.yaml"; opt_dryRun := true |}
      petsPlan in
  exit_code result = 0
  /\ saved_plan result = None
  /\ length (files_written result) = (3 * length [1%nat])%nat.
Proof.
  split; [vm_compute; reflexivity|].
  destruct (dry_run_still_writes slashJoin constructor petsProject "proj" petsConfig
              {| opt_task := None; opt_all := false; opt_plan := "plan.yaml";
                 opt_dryRun := true |} petsPlan [1%nat])
    as [Hplan Hwrites]; [reflexivity|discriminate|reflexivity|].
  split; [exact Hplan|].
  apply Hwrites; [vm_compute; reflexivity|].
  unfold supportedLanguages. cbn. rewrite !elem_of_cons. auto.
Defined.

(** X24: a run that is not dry and succeeds saves the plan with every
    chosen task completed and every other task as it was, after writing
    each generated file twice, once by the generator and once by the
    command: six writes for each task when the configured language is one
    of the three the generator has a case for, none otherwise. A run that
    fails does not save the plan. *)
Theorem implement_completes pathJoin this fs root config options tasks chosen :
  opt_dryRun options = false ->
  pathJoin root (cfg_consumer_outputDir config) <> EmptyString ->
  chosenTasks options tasks = inr chosen -> chosen <> [] ->
  let result := implementPlan pathJoin this fs root config options tasks in
  (exit_code result = 0 ->
   exists saved,
     saved_plan result = Some saved
     /\ length saved = length tasks
     /\ (forall j, saved !! j
                   = (if bool_decide (j ∈ chosen) then setStatus completed else id)
                     <$> tasks !! j)
     /\ length (files_written result)
        = (2 * length (pathsOf (cfg_consumer_language config)) * length chosen)%nat
     /\ (cfg_consumer_language config ∈ supportedLanguages ->
         length (files_written result) = (6 * length chosen)%nat)
     /\ (cfg_consumer_language config ∉ supportedLanguages ->
         files_written result = []))
  /\ (exit_code result <> 0 -> saved_plan result = None).
Proof.
  intros Hwet Hdir Hchosen Hne. unfold implementPlan. rewrite Hchosen, Hwet.
  destruct chosen as [|i l]; [done|].
  set (final := foldl _ _ _).
  destruct (run_failure final) eqn:E; cbn [negb saved_plan exit_code files_written];
    [split; [done|done]|].
  split; [|done]. intros _.
  destruct (run_passes pathJoin this fs root config false (i :: l)
              {| run_tasks := tasks; run_writes := []; run_violations := [];
                 run_failure := None |} Hdir eq_refl) as (Hw & _ & _ & Hlen & Hl); [|done|].
  { intros k Hk. by apply (chosenTasks_in_range options tasks (i :: l)). }
  fold final in Hw, Hlen, Hl. cbn [run_writes length Nat.add writesPerTask] in Hw.
  exists (run_tasks final). split; [done|]. split; [done|]. split; [done|].
  split; [done|]. rewrite Hw. split.
  - intros Hs. rewrite (pathsOf_supported _ Hs). cbn [length]. lia.
  - intros Hs. rewrite (pathsOf_unsupported _ Hs) in Hw.
    cbn [length Nat.mul Nat.add] in Hw. by destruct (run_writes final).
Qed.

Lemma implement_completes_witness :
  let result :=
    implementPlan slashJoin constructor petsProject "proj" goConfig
      {| opt_task := None; opt_all := true; opt_plan := "plan.yaml"; opt_dryRun := false |}
      petsPlan in
  exit_code result = 0
  /\ exists saved,
       saved_plan result = Some saved
       /\ length saved = length petsPlan
       /\ (forall j, saved !! j
                     = (if bool_decide (j ∈ [1%nat]) then setStatus completed else id)
                       <$> petsPlan !! j)
       /\ files_written result = [].
Proof.
  split; [vm_compute; reflexivity|].
  destruct (implement_completes slashJoin constructor petsProject "proj" goConfig
              {| opt_task := None; opt_all := true; opt_plan := "plan.yaml";
                 opt_dryRun := false |} petsPlan [1%nat])
    as [Hok _]; [reflexivity|discriminate|reflexivity|discriminate|].
  destruct Hok as (saved & Hplan & Hlen & Hsaved & _ & _ & Hnone);
    [vm_compute; reflexivity|].
  exists saved. split; [exact Hplan|]. split; [exact Hlen|]. split; [exact Hsaved|].
  apply Hnone. unfold supportedLanguages. cbn. rewrite !elem_of_cons, elem_of_nil.
  intros [?|[?|[?|[]]]]; discriminate.
Defined.

(** X25: a run that implements tasks and succeeds warns about guardrail
    violations, at least one for each task, whenever the configured
    language is one of the three the generator has a case for: the entry
    point it generates is reported by the scan the command makes of the
    generated code. With any other language nothing is generated and
    nothing is warned. *)
Theorem implement_warns pathJoin this fs root config options tasks chosen :
  pathJoin root (cfg_consumer_outputDir config) <> EmptyString ->
  chosenTasks options tasks = inr chosen ->
  let result := implementPlan pathJoin this fs root config options tasks in
  exit_code result = 0 ->
  (cfg_consumer_language config ∈ supportedLanguages ->
   (length chosen <= length (warned_violations result))%nat)
  /\ (cfg_consumer_language config ∉ supportedLanguages -> warned_violations result = []).
Proof.
  intros Hdir Hchosen. unfold implementPlan. rewrite Hchosen.
  destruct chosen as [|i l]; [cbn; split; [lia|done]|].
  set (final := foldl _ _ _).
  destruct (run_failure final) eqn:E; cbn [exit_code warned_violations]; [done|].
  intros _.
  destruct (run_passes pathJoin this fs root config (opt_dryRun options) (i :: l)
              {| run_tasks := tasks; run_writes := []; run_violations := [];
                 run_failure := None |} Hdir eq_refl) as (_ & Hv & Hnv & _); [|done|].
  { intros k Hk. by apply (chosenTasks_in_range options tasks (i :: l)). }
  fold final in Hv, Hnv. cbn in Hv, Hnv |- *. split; [intros Hs; specialize (Hv Hs); lia|done].
Qed.

Lemma implement_warns_witness :
  let result :=
    implementPlan slashJoin constructor petsProject "proj" petsConfig
      {| opt_task := Some "task-1"; opt_all := false; opt_plan := "plan.yaml";
         opt_dryRun := false |}
      petsPlan in
  exit_code result = 0 /\ (length [0%nat] <= length (warned_violations result))%nat.
Proof.
  split; [vm_compute; reflexivity|].
  apply (implement_warns slashJoin constructor petsProject "proj" petsConfig
           {| opt_task := Some "task-1"; opt_all := false; opt_plan := "plan.yaml";
              opt_dryRun := false |} petsPlan [0%nat]).
  - discriminate.
  - reflexivity.
  - vm_compute. reflexivity.
  - unfold supportedLanguages. cbn. rewrite !elem_of_cons. auto.
Defined.

End ImplementFacts.

(** ** The report of the guardrails *)

Section ReportFacts.
Import JsString Plan Guardrails.

Lemma first_seen_snoc (l : list string) x :
  first_seen (l ++ [x]) = if decide (x ∈ l) then first_seen l else first_seen l ++ [x].
Proof.
  induction l as [|y l IH]; cbn [app first_seen].
  - rewrite decide_False by apply not_elem_of_nil. done.
  - rewrite IH. destruct (decide (x ∈ l)) as [Hin|Hout].
    + rewrite (decide_True (P := x ∈ y :: l)) by (by right). done.
    + rewrite filter_app, filter_cons, filter_nil.
      destruct (decide (x = y)) as [->|Hxy].
      * rewrite (decide_True (P := y ∈ y :: l)) by (by left).
        rewrite (decide_False (P := y <> y)) by tauto.
        by rewrite app_nil_r.
      * rewrite (decide_False (P := x ∈ y :: l)) by (rewrite elem_of_cons; tauto).
        rewrite (decide_True (P := x <> y)) by done. done.
Qed.

Lemma mapGet_keyed {V} (g : string -> V) keys k :
  mapGet (map (fun r => (r, g r)) keys) k = if decide (k ∈ keys) then Some (g k) else None.
Proof.
  induction keys as [|r keys IH]; cbn [map mapGet].
  - by rewrite decide_False by apply not_elem_of_nil.
  - destruct (decide (r = k)) as [->|Hrk].
    + by rewrite (decide_True (P := k ∈ k :: keys)) by (by left).
    + rewrite IH. destruct (decide (k ∈ keys)) as [Hin|Hout].
      * by rewrite (decide_True (P := k ∈ r :: keys)) by (by right).
      * by rewrite (decide_False (P := k ∈ r :: keys))
          by (rewrite elem_of_cons; intros [?|?]; congruence).
Qed.

Lemma mapSet_keyed {V} (g : string -> V) keys k x :
  NoDup keys ->
  mapSet (map (fun r => (r, g r)) keys) k x
  = if decide (k ∈ keys)
    then map (fun r => (r, if decide (r = k) then x else g r)) keys
    else map (fun r => (r, g r)) keys ++ [(k, x)].
Proof.
  induction 1 as [|r keys Hr Hnd IH]; cbn [map mapSet].
  - by rewrite decide_False by apply not_elem_of_nil.
  - destruct (decide (r = k)) as [->|Hrk].
    + rewrite (decide_True (P := k ∈ k :: keys)) by (by left).
      f_equal. apply map_ext_in. intros r Hin%list_elem_of_In.
      rewrite (decide_False (P := r = k)) by (by intros ->). done.
    + rewrite IH. destruct (decide (k ∈ keys)) as [Hin|Hout].
      * by rewrite (decide_True (P := k ∈ r :: keys)) by (by right).
      * by rewrite (decide_False (P := k ∈ r :: keys))
          by (rewrite elem_of_cons; intros [?|?]; congruence).
Qed.

(** X26: the report groups the violations by rule as a filter would: the
    groups come in the order in which their rules first occur among the
    violations, and the group of a rule holds the violations of that rule
    in their order. *)
Theorem byRule_groups violations :
  byRule violations
  = map (fun rule => (rule, filter (fun v => gv_rule v = rule) violations))
        (first_seen (map gv_rule violations)).
Proof.
  induction violations as [|v vs IH] using rev_ind; [done|].
  unfold byRule in *. rewrite foldl_snoc, IH. cbn zeta.
  rewrite mapGet_keyed, mapSet_keyed by apply first_seen_NoDup.
  rewrite map_app. cbn [map]. rewrite first_seen_snoc.
  assert (forall r, filter (fun v0 => gv_rule v0 = r) (vs ++ [v])
                    = filter (fun v0 => gv_rule v0 = r) vs
                      ++ (if decide (gv_rule v = r) then [v] else [])) as Hfilter.
  { intros r. rewrite filter_app, filter_cons, filter_nil. done. }
  destruct (decide (gv_rule v ∈ map gv_rule vs)) as [Hin|Hout].
  - rewrite !(decide_True (P := gv_rule v ∈ first_seen (map gv_rule vs)))
      by (by apply first_seen_elem).
    apply map_ext_in. intros r _. f_equal. rewrite Hfilter. cbn [default].
    destruct (decide (r = gv_rule v)) as [->|Hr].
    + by rewrite (decide_True (P := gv_rule v = gv_rule v)) by done.
    + rewrite (decide_False (P := gv_rule v = r)) by (by intros <-).
      by rewrite app_nil_r.
  - rewrite !(decide_False (P := gv_rule v ∈ first_seen (map gv_rule vs)))
      by (by rewrite first_seen_elem).
    rewrite map_app. cbn [map default]. f_equal.
    + apply map_ext_in. intros r Hr%list_elem_of_In.
      apply (proj1 (first_seen_elem _ _)) in Hr. f_equal. rewrite Hfilter.
      rewrite (decide_False (P := gv_rule v = r)) by (by intros <-).
      by rewrite app_nil_r.
    + f_equal. f_equal. rewrite Hfilter.
      rewrite (decide_True (P := gv_rule v = gv_rule v)) by done. f_equal.
      clear -Hout. induction vs as [|w vs IHv]; [done|].
      cbn [map] in Hout. apply not_elem_of_cons in Hout as [Hw Hout].
      rewrite filter_cons, (decide_False (P := gv_rule w = gv_rule v)) by done.
      by apply IHv.
Qed.

Lemma mapSet_counts (m : list (string * list GuardrailViolation)) v :
  length (concat (map snd (mapSet m (gv_rule v)
                                  (default [] (mapGet m (gv_rule v)) ++ [v]))))
  = S (length (concat (map snd m))).
Proof.
  induction m as [|[k g] m IH]; [done|]. cbn [mapGet mapSet].
  destruct (decide (k = gv_rule v)) as [->|Hk]; cbn [map concat default snd].
  - rewrite !length_app. cbn. lia.
  - rewrite !length_app, IH. lia.
Qed.

Lemma byRule_counts violations :
  length (concat (map snd (byRule violations))) = length violations.
Proof.
  induction violations as [|v vs IH] using rev_ind; [done|].
  unfold byRule in *. rewrite foldl_snoc, mapSet_counts, IH, length_app. cbn. lia.
Qed.

Lemma reportSection_appends report entry :
  exists text, reportSection report entry = report +:+ text.
Proof.
  destruct entry as [rule vs]. unfold reportSection. rewrite append_assoc.
  generalize ((ConsumerGenerator.nl +:+ "[" +:+ rule +:+ "] - " +:+ pretty (length vs)
              +:+ " occurrence(s)" +:+ ConsumerGenerator.nl) +:+ repeatString "─" 50
              +:+ ConsumerGenerator.nl).
  induction vs as [|v vs IH]; intros t0; cbn [foldl].
  - by exists t0.
  - rewrite append_assoc. apply IH.
Qed.

Lemma sections_append report groups :
  exists text, foldl reportSection report groups = report +:+ text.
Proof.
  revert report. induction groups as [|e groups IH]; intros report; cbn [foldl].
  - exists EmptyString. by rewrite append_nil_r.
  - destruct (reportSection_appends report e) as [t ->].
    destruct (IH (report +:+ t)) as [t' ->]. exists (t +:+ t').
    by rewrite append_assoc.
Qed.

(** X27: the report is the one of a passed check exactly when there is no
    violation; otherwise it opens with the banner of a failed check, and
    the occurrences counted in its sections add up to the number of
    violations in the banner. *)
Theorem generateReport_passed violations :
  (generateReport violations = passedReport <-> violations = [])
  /\ (violations <> [] ->
      exists text,
        generateReport violations
        = failedReportHead +:+ pretty (length violations) +:+ text)
  /\ length (concat (map snd (byRule violations))) = length violations.
Proof.
  assert (violations <> [] ->
          exists text, generateReport violations
                       = failedReportHead +:+ pretty (length violations) +:+ text) as Hfailed.
  { intros Hne. unfold generateReport.
    rewrite bool_decide_eq_false_2 by (by destruct violations).
    destruct (sections_append
                (failedReportHead +:+ pretty (length violations) +:+ failedReportTail)
                (byRule violations)) as [t ->].
    eexists. rewrite !append_assoc. reflexivity. }
  split; [|split; [done|apply byRule_counts]].
  split; [|by intros ->].
  intros Hpassed. destruct violations as [|v vs]; [done|]. exfalso.
  destruct Hfailed as [text Htext]; [done|]. rewrite Hpassed in Htext.
  pose proof (prefix_app failedReportHead (pretty (length (v :: vs)) +:+ text)) as Hprefix.
  rewrite <- Htext in Hprefix. vm_compute in Hprefix. discriminate.
Qed.

Lemma generateReport_passed_witness :
  exists text,
    generateReport [ {| gv_rule := "no-fetch"; gv_message := "[no-fetch] a.ts:1: m";
                        gv_file := Some "a.ts"; gv_line := None |};
                     {| gv_rule := "no-raw-url"; gv_message := "[no-raw-url] b.py:2: m";
                        gv_file := None; gv_line := None |} ]
    = failedReportHead +:+ pretty 2%nat +:+ text.
Proof.
  apply (generateReport_passed
           [ {| gv_rule := "no-fetch"; gv_message := "[no-fetch] a.ts:1: m";
                gv_file := Some "a.ts"; gv_line := None |};
             {| gv_rule := "no-raw-url"; gv_message := "[no-raw-url] b.py:2: m";
                gv_file := None; gv_line := None |} ]).
  discriminate.
Defined.

End ReportFacts.
